(** * New Avalon: Skirmish -- rules engine

    A shallow embedding of the server-side rules engine:
    - [BoardUtils]       : src/server/utils/boardUtils.ts
    - [PhaseManagement]  : the phase management handlers (phaseManagement.ts)
    - [ReadyCheck]       : src/server/handlers/readyCheck.ts

    JavaScript values are modelled by what the code does with them: numbers
    that are player ids, rounds, phases and scores are integers ([Z]); an
    object used as a dictionary keeps its own-property enumeration order;
    an array is a list; an optional field is an [option].  The game state
    is one mutable object per session: a function that mutates it takes
    the state and returns the state afterwards.  A handler takes what
    [getGameState(gameId)] returned and yields the state of the session
    afterwards together with the messages it sent; the calls of the logger
    change nothing and are left out. *)

From Stdlib Require Import ZArith QArith Qround Sorted.
From stdpp Require Import base list gmap strings pretty.

Open Scope Z_scope.

(** ** JavaScript objects keyed by numbers

    [{ [key: number]: V }] : the key is stored as the canonical string of
    the number.  Own properties are enumerated ([for .. in], [Object.keys],
    [Object.values], [Object.entries]) with the array-index keys
    (integers in [0, 2^32 - 2]) first, in ascending numeric order, followed
    by every other key in insertion order.  The list below is kept in that
    enumeration order. *)
Module JsObject.

Definition t (V : Type) : Type := list (Z * V).

Definition empty {V} : t V := [].

Definition isArrayIndex (k : Z) : bool := (0 <=? k) && (k <? 2 ^ 32 - 1).

Fixpoint get {V} (o : t V) (k : Z) : option V :=
  match o with
  | [] => None
  | (k', v) :: rest => if k' =? k then Some v else get rest k
  end.

Fixpoint update {V} (k : Z) (v : V) (o : t V) : t V :=
  match o with
  | [] => []
  | (k', v') :: rest =>
      if k' =? k then (k', v) :: rest else (k', v') :: update k v rest
  end.

(** Position of a property that is created by the assignment. *)
Fixpoint insertNew {V} (k : Z) (v : V) (o : t V) : t V :=
  match o with
  | [] => [(k, v)]
  | (k', v') :: rest =>
      if isArrayIndex k && (negb (isArrayIndex k') || (k <? k'))
      then (k, v) :: (k', v') :: rest
      else (k', v') :: insertNew k v rest
  end.

(** [o[k] = v] *)
Definition set {V} (k : Z) (v : V) (o : t V) : t V :=
  match get o k with
  | Some _ => update k v o
  | None => insertNew k v o
  end.

Definition keys {V} (o : t V) : list Z := map fst o.
Definition values {V} (o : t V) : list V := map snd o.
Definition entries {V} (o : t V) : list (Z * V) := o.

End JsObject.

(** ** Data model *)
Module Types.

(** Modelled from the spec: the type declarations of [types/types.ts]
    (Status, Card, Cell, Board, Player, GameState) are not part of the
    sources; the records list the fields the engine reads or writes. *)
Record Status := mkStatus {
  type : string;
  addedByPlayerId : Z
}.

(** Modelled from the spec: [Card] of [types/types.ts]. [ownerId],
    [baseId], [bonusPower] and [statuses] are optional properties. *)
Record Card := mkCard {
  card_id : string;
  baseId : option string;
  ownerId : option Z;
  isFaceDown : bool;
  power : Z;
  bonusPower : option Z;
  statuses : option (list Status)
}.

(** Modelled from the spec: a board cell, [{ card: Card | null }]. *)
Record Cell := mkCell { card : option Card }.

Abbreviation Board := (list (list Cell)).

(** A value that is a number, [null] or [undefined]
    ([activePlayerId], [startingPlayerId], [gameWinner], a payload's
    [playerId]). *)
Inductive Nullable :=
| undefined
| null
| num (n : Z).

(** Modelled from the spec: [Player] of [types/types.ts]. *)
Record Player := mkPlayer {
  player_id : Z;
  teamId : option Z;
  hand : list Card;
  deck : list Card;
  score : Z;
  isReady : bool;
  isDummy : bool;
  isDisconnected : bool;
  autoDrawEnabled : option bool
}.

(** Modelled from the spec: [GameState] of [types/types.ts]. *)
Record GameState := mkGameState {
  board : Board;
  players : list Player;
  activeGridSize : Z;
  currentPhase : Z;
  activePlayerId : Nullable;
  startingPlayerId : Nullable;
  currentRound : Z;
  turnNumber : Z;
  roundWinners : option (JsObject.t (list Z));
  gameWinner : Nullable;
  isGameStarted : bool;
  isReadyCheckActive : bool;
  isRoundEndModalOpen : bool;
  roundEndTriggered : bool;
  autoAbilitiesEnabled : bool;
  autoDrawnPlayers : list Z
}.

#[export] Instance Status_eq_dec : EqDecision Status.
Proof. solve_decision. Defined.
#[export] Instance Card_eq_dec : EqDecision Card.
Proof. solve_decision. Defined.
#[export] Instance Cell_eq_dec : EqDecision Cell.
Proof. solve_decision. Defined.
#[export] Instance Nullable_eq_dec : EqDecision Nullable.
Proof. solve_decision. Defined.

End Types.
Export Types.

(** ** boardUtils.ts *)
Module BoardUtils.

Definition GRID_MAX_SIZE : nat := 7.

Definition HERO_MR_PEARL_ID : string := "mrPearlDoF"%string.
Definition HERO_REVEREND_ID : string := "reverendOfTheChoir"%string.

(** [structuredClone]: a deep copy; on values it is the identity. *)
Definition cloneBoard (b : Board) : Board := b.

Definition createInitialBoard : Board :=
  replicate GRID_MAX_SIZE (replicate GRID_MAX_SIZE (mkCell None)).

(** [board[r][c]] and [board[r][c].card] *)
Definition cellAt (b : Board) (r c : nat) : option Cell :=
  b !! r ≫= (.!! c).

Definition cardAt (b : Board) (r c : nat) : option Card :=
  cellAt b r c ≫= card.

(** In-place mutation of the card object held by cell [(r, c)]. *)
Definition updCard (f : Card → Card) (r c : nat) (b : Board) : Board :=
  alter (alter (λ cell, mkCell (f <$> card cell)) c) r b.

(** The cells visited by [for r in 0..n-1, for c in 0..n-1], in order. *)
Definition positions (n : nat) : list (nat * nat) :=
  r ← seq 0 n; (λ c, (r, c)) <$> seq 0 n.

(** A double loop whose body mutates the board as it goes. *)
Definition forCells (n : nat) (step : Board → nat → nat → Board)
    (b : Board) : Board :=
  foldl (λ b rc, step b rc.1 rc.2) b (positions n).

Definition hasType (ty : string) (s : Status) : bool := String.eqb (type s) ty.

(** [card.statuses?.some(s => s.type === ty)], [undefined] being falsy *)
Definition someStatus (ty : string) (cd : Card) : bool :=
  match statuses cd with
  | Some l => existsb (hasType ty) l
  | None => false
  end.

Definition isAuto (s : Status) : bool := hasType "Support" s || hasType "Threat" s.

(** *** 1. Reset dynamic properties *)
Definition resetCard (cd : Card) : Card :=
  mkCard (card_id cd) (baseId cd) (ownerId cd) (isFaceDown cd) (power cd)
    None
    (List.filter (λ s, negb (isAuto s)) <$> statuses cd).

Definition resetStep (b : Board) (r c : nat) : Board := updCard resetCard r c b.

(** [if (!card.statuses) card.statuses = [];
     if (!card.statuses.some(s => s.type === ty)) card.statuses.push(..)] *)
Definition pushStatus (ty : string) (by_ : Z) (cd : Card) : Card :=
  let l := default [] (statuses cd) in
  mkCard (card_id cd) (baseId cd) (ownerId cd) (isFaceDown cd) (power cd)
    (bonusPower cd)
    (Some (if existsb (hasType ty) l then l else l ++ [mkStatus ty by_])).

(** *** 2. Standard Support / Threat logic *)
Definition neighborsPos (r c : nat) : list (Z * Z) :=
  [ (Z.of_nat r - 1, Z.of_nat c); (Z.of_nat r + 1, Z.of_nat c);
    (Z.of_nat r, Z.of_nat c - 1); (Z.of_nat r, Z.of_nat c + 1) ].

Definition playerTeamMap (ps : list Player) : gmap Z (option Z) :=
  foldl (λ m p, <[player_id p := teamId p]> m) ∅ ps.

(** [playerTeamMap.get(id)] *)
Definition teamOf (m : gmap Z (option Z)) (pid : Z) : option Z :=
  m !! pid ≫= (λ t, t).

Record Scan := mkScan {
  enemyNeighborsByPlayer : JsObject.t (list (Z * Z));
  hasFriendlyNeighbor : bool
}.

(** A neighbor is friendly if it has the same owner, or the same team
    when the owner's team is defined. *)
Definition isFriendly (m : gmap Z (option Z)) (ownerId neighborOwnerId : Z)
    : bool :=
  let ownerTeamId := teamOf m ownerId in
  let neighborTeamId := teamOf m neighborOwnerId in
  (ownerId =? neighborOwnerId)
  || match ownerTeamId with
     | Some t => bool_decide (neighborTeamId = Some t)
     | None => false
     end.

(** [if (!e[id]) e[id] = []; e[id].push(pos)] *)
Definition pushEnemy (neighborOwnerId : Z) (pos : Z * Z)
    (e : JsObject.t (list (Z * Z))) : JsObject.t (list (Z * Z)) :=
  let e := match JsObject.get e neighborOwnerId with
           | Some _ => e
           | None => JsObject.set neighborOwnerId [] e
           end in
  let cur := default [] (JsObject.get e neighborOwnerId) in
  JsObject.set neighborOwnerId (cur ++ [pos]) e.

Definition scanNeighbor (GRID_SIZE : nat) (m : gmap Z (option Z))
    (b : Board) (owner : Z) (acc : Scan) (pos : Z * Z) : Scan :=
  let '(nr, nc) := pos in
  if (0 <=? nr) && (nr <? Z.of_nat GRID_SIZE)
     && (0 <=? nc) && (nc <? Z.of_nat GRID_SIZE)
  then
    match cardAt b (Z.to_nat nr) (Z.to_nat nc) with
    | None => acc
    | Some neighborCard =>
        let isNeighborStunned := someStatus "Stun" neighborCard in
        match ownerId neighborCard with
        | None => acc
        | Some neighborOwnerId =>
            if negb (isFaceDown neighborCard) && negb isNeighborStunned then
              if isFriendly m owner neighborOwnerId then
                mkScan (enemyNeighborsByPlayer acc) true
              else
                mkScan (pushEnemy neighborOwnerId (nr, nc)
                          (enemyNeighborsByPlayer acc))
                       (hasFriendlyNeighbor acc)
            else acc
        end
    end
  else acc.

Definition scanNeighbors (GRID_SIZE : nat) (m : gmap Z (option Z))
    (b : Board) (owner : Z) (r c : nat) : Scan :=
  foldl (scanNeighbor GRID_SIZE m b owner) (mkScan JsObject.empty false)
    (neighborsPos r c).

(** Condition A: the first enumerated enemy with two or more neighbors. *)
Definition pinnedBy (e : JsObject.t (list (Z * Z))) : option Z :=
  fst <$> List.find (λ kv, (2 <=? length (snd kv))%nat) (JsObject.entries e).

(** [offset = Math.floor((GRID_SIZE - activeGridSize) / 2)] *)
Definition gridOffset (GRID_SIZE : nat) (activeGridSize : Z) : Z :=
  (Z.of_nat GRID_SIZE - activeGridSize) / 2.

Definition isActiveCell (GRID_SIZE : nat) (activeGridSize : Z)
    (r c : nat) : bool :=
  let offset := gridOffset GRID_SIZE activeGridSize in
  (offset <=? Z.of_nat r) && (Z.of_nat r <? offset + activeGridSize)
  && (offset <=? Z.of_nat c) && (Z.of_nat c <? offset + activeGridSize).

Definition isCardOnEdge (GRID_SIZE : nat) (activeGridSize : Z)
    (r c : nat) : bool :=
  let offset := gridOffset GRID_SIZE activeGridSize in
  (Z.of_nat r =? offset) || (Z.of_nat r =? offset + activeGridSize - 1)
  || (Z.of_nat c =? offset) || (Z.of_nat c =? offset + activeGridSize - 1).

(** Condition B: on the border of the active grid, with an enemy neighbor. *)
Definition borderThreat (GRID_SIZE : nat) (activeGridSize : Z)
    (e : JsObject.t (list (Z * Z))) (r c : nat) : option Z :=
  if isActiveCell GRID_SIZE activeGridSize r c then
    let hasEnemyNeighbor := (0 <? length (JsObject.keys e))%nat in
    if isCardOnEdge GRID_SIZE activeGridSize r c && hasEnemyNeighbor
    then head (JsObject.keys e)
    else None
  else None.

Definition threateningPlayerId (GRID_SIZE : nat) (activeGridSize : Z)
    (e : JsObject.t (list (Z * Z))) (r c : nat) : option Z :=
  match pinnedBy e with
  | Some p => Some p
  | None => borderThreat GRID_SIZE activeGridSize e r c
  end.

Definition statusStep (GRID_SIZE : nat) (activeGridSize : Z)
    (m : gmap Z (option Z)) (b : Board) (r c : nat) : Board :=
  match cardAt b r c with
  | None => b
  | Some cd =>
      match ownerId cd with
      | None => b
      | Some owner =>
          if isFaceDown cd then b
          else
            let sc := scanNeighbors GRID_SIZE m b owner r c in
            let b1 := if hasFriendlyNeighbor sc
                      then updCard (pushStatus "Support" owner) r c b
                      else b in
            match threateningPlayerId GRID_SIZE activeGridSize
                    (enemyNeighborsByPlayer sc) r c with
            | Some t => updCard (pushStatus "Threat" t) r c b1
            | None => b1
            end
      end
  end.

(** *** 3. Hero passives *)
Record HeroPosition := mkHero {
  hero_r : nat;
  hero_c : nat;
  hero_ownerId : Z;
  hero_baseId : string
}.

(** The hero record pushed for cell [(r, c)] when its card is a face-up,
    owned, non-stunned card whose [baseId] is [hid]. *)
Definition heroAt (hid : string) (b : Board) (rc : nat * nat)
    : option HeroPosition :=
  match cardAt b rc.1 rc.2 with
  | None => None
  | Some cd =>
      let isStunned := someStatus "Stun" cd in
      match baseId cd, ownerId cd with
      | Some bid, Some owner =>
          if negb (String.eqb bid "") && negb (isFaceDown cd)
             && negb isStunned && String.eqb bid hid
          then Some (mkHero rc.1 rc.2 owner bid)
          else None
      | _, _ => None
      end
  end.

(** The single collecting pass fills two arrays; a card goes to at most
    one of them, as the two hero ids differ. *)
Definition collectHeroes (hid : string) (n : nat) (b : Board)
    : list HeroPosition :=
  omap (heroAt hid b) (positions n).

Definition rowCells (n r : nat) : list (nat * nat) := (λ i, (r, i)) <$> seq 0 n.
Definition colCells (n c : nat) : list (nat * nat) := (λ i, (i, c)) <$> seq 0 n.

Definition applyLine (f : Card → Card) (cells : list (nat * nat))
    (b : Board) : Board :=
  foldl (λ b rc, updCard f rc.1 rc.2 b) b cells.

(** The processed-line sets: the key [`${r}-${ownerId}`] is the pair. *)
Record HeroLoop := mkLoop {
  loopBoard : Board;
  processedRows : gset (nat * Z);
  processedCols : gset (nat * Z)
}.

(** Body of [for (const hero of heroes)]; [effect ownerId] is what the
    inner loops do to a target card. *)
Definition heroStep (n : nat) (effect : Z → Card → Card)
    (st : HeroLoop) (hero : HeroPosition) : HeroLoop :=
  let r := hero_r hero in
  let c := hero_c hero in
  let owner := hero_ownerId hero in
  let st1 :=
    if decide ((r, owner) ∈ processedRows st) then st
    else mkLoop (applyLine (effect owner) (rowCells n r) (loopBoard st))
                ({[ (r, owner) ]} ∪ processedRows st) (processedCols st) in
  if decide ((c, owner) ∈ processedCols st1) then st1
  else mkLoop (applyLine (effect owner) (colCells n c) (loopBoard st1))
              (processedRows st1) ({[ (c, owner) ]} ∪ processedCols st1).

Definition applyHeroes (n : nat) (effect : Z → Card → Card)
    (heroes : list HeroPosition) (b : Board) : Board :=
  loopBoard (foldl (heroStep n effect) (mkLoop b ∅ ∅) heroes).

(** Reverend: Support for the owner's face-up cards of the line. *)
Definition grantSupport (owner : Z) (target : Card) : Card :=
  if bool_decide (ownerId target = Some owner) && negb (isFaceDown target)
  then pushStatus "Support" owner target
  else target.

(** Mr. Pearl: [+1] bonus power, the Mr. Pearl cards excluded. *)
Definition bumpPower (owner : Z) (target : Card) : Card :=
  if bool_decide (ownerId target = Some owner) && negb (isFaceDown target)
     && negb (bool_decide (baseId target = Some HERO_MR_PEARL_ID))
  then mkCard (card_id target) (baseId target) (ownerId target)
         (isFaceDown target) (power target)
         (Some (default 0 (bonusPower target) + 1)) (statuses target)
  else target.

Definition heroPasses (n : nat) (b : Board) : Board :=
  let reverends := collectHeroes HERO_REVEREND_ID n b in
  let mrPearls := collectHeroes HERO_MR_PEARL_ID n b in
  applyHeroes n bumpPower mrPearls (applyHeroes n grantSupport reverends b).

(** Every loop reads [newBoard[r][c].card] for [r, c < newBoard.length]:
    a row that is shorter than the board is high makes the first of them
    throw a [TypeError]. *)
Definition rowsCoverGrid (b : Board) : bool :=
  forallb (λ row, (length b <=? length row)%nat) b.

Definition recalculateBoardStatuses (gs : GameState) : option Board :=
  let newBoard := cloneBoard (board gs) in
  let GRID_SIZE := length newBoard in
  if rowsCoverGrid newBoard then
    let m := playerTeamMap (players gs) in
    let b1 := forCells GRID_SIZE resetStep newBoard in
    let b2 := forCells GRID_SIZE
                (statusStep GRID_SIZE (activeGridSize gs) m) b1 in
    Some (heroPasses GRID_SIZE b2)
  else None.

End BoardUtils.

(** ** Untrusted payload values and [Number(..)] *)
Module JsValue.

(** A JavaScript number: a finite value is given as a rational. *)
Inductive JsNumber :=
| NaN
| Infinity (negative : bool)
| Finite (q : Q).

(** A payload field as it comes out of [JSON.parse]; a missing field
    reads as [undefined]. *)
Inductive t :=
| JsUndefined
| JsNull
| JsBoolean (b : bool)
| JsNumeric (x : JsNumber)
| JsString (s : string).

Section Number.
(** The numeric value of a string ([StringToNumber] of the language)
    is left open. *)
Variable StringToNumber : string → JsNumber.

(** [Number(v)] *)
Definition Number (v : t) : JsNumber :=
  match v with
  | JsUndefined => NaN
  | JsNull => Finite 0
  | JsBoolean true => Finite 1
  | JsBoolean false => Finite 0
  | JsNumeric x => x
  | JsString s => StringToNumber s
  end.
End Number.

(** [Number.isInteger(x)] *)
Definition isInteger (x : JsNumber) : bool :=
  match x with
  | Finite q => (Qnum q mod Zpos (Qden q)) =? 0
  | _ => false
  end.

(** [Number.isNaN(x)] *)
Definition isNaN (x : JsNumber) : bool :=
  match x with NaN => true | _ => false end.

(** [x < y] and [x >= y] against a finite [y] *)
Definition lt (x : JsNumber) (y : Q) : bool :=
  match x with
  | NaN => false
  | Infinity negative => negative
  | Finite q => negb (Qle_bool y q)
  end.

Definition ge (x : JsNumber) (y : Q) : bool :=
  match x with
  | NaN => false
  | Infinity negative => negb negative
  | Finite q => Qle_bool y q
  end.

(** The integer an integral number stands for. *)
Definition toZ (x : JsNumber) : Z :=
  match x with
  | Finite q => Qfloor q
  | _ => 0
  end.

End JsValue.

(** ** phaseManagement.ts *)
Module PhaseManagement.
Import JsValue.

(** The messages a handler sends: an error to the caller's socket, or
    the game state to every client of the game. *)
Inductive Event :=
| ERROR (message : string)
| Broadcast (gs : GameState).

(** *** Field updates of the game state and of a player *)
Definition withPhase (ph : Z) (gs : GameState) : GameState :=
  mkGameState (board gs) (players gs) (activeGridSize gs) ph
    (activePlayerId gs) (startingPlayerId gs) (currentRound gs)
    (turnNumber gs) (roundWinners gs) (gameWinner gs) (isGameStarted gs)
    (isReadyCheckActive gs) (isRoundEndModalOpen gs) (roundEndTriggered gs)
    (autoAbilitiesEnabled gs) (autoDrawnPlayers gs).

Definition withActivePlayerId (a : Nullable) (gs : GameState) : GameState :=
  mkGameState (board gs) (players gs) (activeGridSize gs) (currentPhase gs)
    a (startingPlayerId gs) (currentRound gs)
    (turnNumber gs) (roundWinners gs) (gameWinner gs) (isGameStarted gs)
    (isReadyCheckActive gs) (isRoundEndModalOpen gs) (roundEndTriggered gs)
    (autoAbilitiesEnabled gs) (autoDrawnPlayers gs).

Definition withPlayers (ps : list Player) (gs : GameState) : GameState :=
  mkGameState (board gs) ps (activeGridSize gs) (currentPhase gs)
    (activePlayerId gs) (startingPlayerId gs) (currentRound gs)
    (turnNumber gs) (roundWinners gs) (gameWinner gs) (isGameStarted gs)
    (isReadyCheckActive gs) (isRoundEndModalOpen gs) (roundEndTriggered gs)
    (autoAbilitiesEnabled gs) (autoDrawnPlayers gs).

Definition withHandDeck (h d : list Card) (p : Player) : Player :=
  mkPlayer (player_id p) (teamId p) h d (score p) (isReady p) (isDummy p)
    (isDisconnected p) (autoDrawEnabled p).

Definition withScore (sc : Z) (p : Player) : Player :=
  mkPlayer (player_id p) (teamId p) (hand p) (deck p) sc (isReady p)
    (isDummy p) (isDisconnected p) (autoDrawEnabled p).

(** [players.find(p => p.id === id)]: no player has a [null] or
    [undefined] id. *)
Definition findPlayer (pid : Nullable) (ps : list Player) : option Player :=
  match pid with
  | num n => List.find (λ p, player_id p =? n) ps
  | _ => None
  end.

(** In-place mutation of the object [players.find(..)] returned. *)
Fixpoint updateFound (n : Z) (f : Player → Player) (ps : list Player)
    : list Player :=
  match ps with
  | [] => []
  | p :: rest =>
      if player_id p =? n then f p :: rest else p :: updateFound n f rest
  end.

(** [x || 0] on a number *)
Definition orZero (x : Z) : Z := if x =? 0 then 0 else x.

(** [Math.max(...xs)]: [-Infinity] without arguments. *)
Inductive Maximum :=
| NegInfinity
| Max (z : Z).

Definition Math_max (xs : list Z) : Maximum :=
  foldl (λ acc x, match acc with
                  | NegInfinity => Max x
                  | Max y => Max (Z.max y x)
                  end) NegInfinity xs.

(** [x === m] and [m >= x] for a number [x] *)
Definition isMaximum (x : Z) (m : Maximum) : bool :=
  match m with
  | Max z => x =? z
  | NegInfinity => false
  end.

Definition reaches (m : Maximum) (x : Z) : bool :=
  match m with
  | Max z => x <=? z
  | NegInfinity => false
  end.

Definition getRoundVictoryThreshold (round : Z) : Z := 10 + round * 10.

Definition maxScoreOf (gs : GameState) : Maximum :=
  Math_max ((λ p, orZero (score p)) <$> players gs).

Definition checkRoundEnd (gs : GameState) (isDeselectCheck : bool) : bool :=
  let threshold := getRoundVictoryThreshold (currentRound gs) in
  let maxScore := maxScoreOf gs in
  if negb (isGameStarted gs) then false
  else if isRoundEndModalOpen gs then false
  else if negb (currentPhase gs =? 0) then false
  else if negb isDeselectCheck
          && negb (bool_decide (activePlayerId gs = startingPlayerId gs))
  then false
  else reaches maxScore threshold.

(** [totalWins[winnerId] = (totalWins[winnerId] || 0) + 1] for every
    winner of every recorded round *)
Definition countWins (rw : JsObject.t (list Z)) : JsObject.t Z :=
  foldl (λ totalWins winners,
           foldl (λ totalWins winnerId,
                    JsObject.set winnerId
                      (orZero (default 0 (JsObject.get totalWins winnerId)) + 1)
                      totalWins)
                 totalWins winners)
        JsObject.empty (JsObject.values rw).

Definition endRound (gs : GameState) : GameState :=
  let maxScore := maxScoreOf gs in
  let winners :=
    player_id <$> List.filter (λ p, isMaximum (score p) maxScore)
                    (players gs) in
  let rw := JsObject.set (currentRound gs) winners
              (default JsObject.empty (roundWinners gs)) in
  let totalWins := countWins rw in
  let winner :=
    match List.find (λ e, 2 <=? e.2) (JsObject.entries totalWins) with
    | Some (playerId, _) => num playerId
    | None => gameWinner gs
    end in
  mkGameState (board gs) (players gs) (activeGridSize gs) (currentPhase gs)
    (activePlayerId gs) (startingPlayerId gs) (currentRound gs)
    (turnNumber gs) (Some rw) winner (isGameStarted gs)
    (isReadyCheckActive gs) true true
    (autoAbilitiesEnabled gs) (autoDrawnPlayers gs).

(** The host is the player with id 1. *)
Definition hostAutoDraw (ps : list Player) : bool :=
  match findPlayer (num 1) ps with
  | Some hostPlayer => bool_decide (autoDrawEnabled hostPlayer = Some true)
  | None => false
  end.

Definition shouldDraw (ps : list Player) (p : Player) : bool :=
  if isDummy p then hostAutoDraw ps
  else negb (bool_decide (autoDrawEnabled p = Some false)).

Definition performDrawPhase (gs : GameState) : GameState :=
  if bool_decide (activePlayerId gs = null) then withPhase 0 gs
  else
    match findPlayer (activePlayerId gs) (players gs) with
    | None => withPhase 0 gs
    | Some activePlayer =>
        match deck activePlayer with
        | [] => withPhase 0 gs
        | cardToDraw :: rest =>
            let gs1 :=
              if shouldDraw (players gs) activePlayer then
                withPlayers
                  (updateFound (player_id activePlayer)
                     (λ p, withHandDeck (hand p ++ [cardToDraw]) rest p)
                     (players gs)) gs
              else gs in
            let gs2 := withPhase 0 gs1 in
            if checkRoundEnd gs2 false then endRound gs2 else gs2
        end
    end.

(** *** Handlers.  [getGameState(gameId)] is the first argument; the
    result is the state of the session afterwards and what was sent. *)
Definition Reply : Type := option GameState * list Event.

Definition handleToggleActivePlayer (g : option GameState)
    (playerId : Nullable) : Reply :=
  match g with
  | None => (None, [ERROR "Game not found"])
  | Some gs =>
      let previousActivePlayerId := activePlayerId gs in
      let gs' :=
        if bool_decide (previousActivePlayerId = playerId) then
          let gs1 := withActivePlayerId undefined gs in
          if bool_decide (playerId = startingPlayerId gs1)
             && (currentPhase gs1 =? 0)
          then if checkRoundEnd gs1 true then endRound gs1 else gs1
          else gs1
        else
          performDrawPhase (withPhase (-1) (withActivePlayerId playerId gs)) in
      (Some gs', [Broadcast gs'])
  end.

Definition handleNextPhase (g : option GameState) : Reply :=
  match g with
  | None => (None, [ERROR "Game not found"])
  | Some gs =>
      if negb (isGameStarted gs) then (Some gs, [ERROR "Game has not started"])
      else
        let currentPhase := orZero (currentPhase gs) in
        let nextPhase := Z.rem (currentPhase + 1) 4 in
        let gs' := withPhase nextPhase gs in
        (Some gs', [Broadcast gs'])
  end.

Definition handlePrevPhase (g : option GameState) : Reply :=
  match g with
  | None => (None, [ERROR "Game not found"])
  | Some gs =>
      if negb (isGameStarted gs) then (Some gs, [ERROR "Game has not started"])
      else
        let currentPhase := orZero (currentPhase gs) in
        let prevPhase := Z.rem (currentPhase - 1 + 4) 4 in
        let gs' := withPhase prevPhase gs in
        (Some gs', [Broadcast gs'])
  end.

Definition resetScores (ps : list Player) : list Player := withScore 0 <$> ps.

Definition handleStartNextRound (g : option GameState) : Reply :=
  match g with
  | None => (None, [ERROR "Game not found"])
  | Some gs =>
      if negb (isGameStarted gs) then (Some gs, [ERROR "Game has not started"])
      else
        let gs' :=
          if negb (bool_decide (gameWinner gs = null)) then
            mkGameState (board gs) (resetScores (players gs))
              (activeGridSize gs) (currentPhase gs) (activePlayerId gs)
              (startingPlayerId gs) 1 1 (Some JsObject.empty) null
              (isGameStarted gs) (isReadyCheckActive gs) false false
              (autoAbilitiesEnabled gs) (autoDrawnPlayers gs)
          else
            mkGameState (board gs) (resetScores (players gs))
              (activeGridSize gs) (currentPhase gs) (activePlayerId gs)
              (startingPlayerId gs) (currentRound gs + 1) (turnNumber gs)
              (roundWinners gs) (gameWinner gs)
              (isGameStarted gs) (isReadyCheckActive gs) false
              (roundEndTriggered gs)
              (autoAbilitiesEnabled gs) (autoDrawnPlayers gs) in
        (Some gs', [Broadcast gs'])
  end.

Definition handleStartNewMatch (g : option GameState) : Reply :=
  match g with
  | None => (None, [ERROR "Game not found"])
  | Some gs =>
      let gs' :=
        mkGameState (board gs) (resetScores (players gs))
          (activeGridSize gs) (currentPhase gs) (activePlayerId gs)
          (startingPlayerId gs) 1 1 (Some JsObject.empty) null
          (isGameStarted gs) (isReadyCheckActive gs) false false
          (autoAbilitiesEnabled gs) (autoDrawnPlayers gs) in
      (Some gs', [Broadcast gs'])
  end.

Definition withAutoAbilities (enabled : bool) (gs : GameState) : GameState :=
  mkGameState (board gs) (players gs) (activeGridSize gs) (currentPhase gs)
    (activePlayerId gs) (startingPlayerId gs) (currentRound gs)
    (turnNumber gs) (roundWinners gs) (gameWinner gs) (isGameStarted gs)
    (isReadyCheckActive gs) (isRoundEndModalOpen gs) (roundEndTriggered gs)
    enabled (autoDrawnPlayers gs).

Definition withAutoDraw (enabled : bool) (p : Player) : Player :=
  mkPlayer (player_id p) (teamId p) (hand p) (deck p) (score p) (isReady p)
    (isDummy p) (isDisconnected p) (Some enabled).

(** [typeof enabled !== 'boolean'] lets [true] and [false] through. *)
Definition handleToggleAutoAbilities (g : option GameState)
    (enabled : JsValue.t) : Reply :=
  match g with
  | None => (None, [ERROR "Game not found"])
  | Some gs =>
      match enabled with
      | JsBoolean b =>
          let gs' := withAutoAbilities b gs in
          (Some gs', [Broadcast gs'])
      | _ => (Some gs, [ERROR "Invalid enabled value: must be a boolean"])
      end
  end.

Definition handleToggleAutoDraw (g : option GameState) (playerId : Nullable)
    (enabled : JsValue.t) : Reply :=
  match g with
  | None => (None, [ERROR "Game not found"])
  | Some gs =>
      match enabled with
      | JsBoolean b =>
          match playerId, findPlayer playerId (players gs) with
          | num n, Some _ =>
              let gs' :=
                withPlayers (updateFound n (withAutoDraw b) (players gs)) gs in
              (Some gs', [Broadcast gs'])
          | _, _ => (Some gs, [ERROR "Player not found"])
          end
      | _ => (Some gs, [ERROR "Invalid enabled value: must be a boolean"])
      end
  end.

Section handleSetPhase.
Variable StringToNumber : string → JsNumber.

Definition handleSetPhase (g : option GameState) (phaseIndex : JsValue.t)
    : Reply :=
  match g with
  | None => (None, [ERROR "Game not found"])
  | Some gs =>
      if negb (isGameStarted gs)
      then (Some gs, [ERROR "Game has not started"])
      else
        let numericPhaseIndex := Number StringToNumber phaseIndex in
        if negb (isInteger numericPhaseIndex) || isNaN numericPhaseIndex
        then (Some gs, [ERROR "Invalid phase index; must be an integer"])
        else if lt numericPhaseIndex (-1) || ge numericPhaseIndex 4
        then (Some gs,
              [ERROR "Invalid phase index. Must be between -1 and 3"])
        else
          let gs' := withPhase (toZ numericPhaseIndex) gs in
          (Some gs', [Broadcast gs'])
  end.
End handleSetPhase.

End PhaseManagement.

(** ** readyCheck.ts *)
Module ReadyCheck.
Import PhaseManagement.

Definition withReady (b : bool) (p : Player) : Player :=
  mkPlayer (player_id p) (teamId p) (hand p) (deck p) (score p) b
    (isDummy p) (isDisconnected p) (autoDrawEnabled p).

Definition withReadyCheck (active : bool) (ps : list Player)
    (gs : GameState) : GameState :=
  mkGameState (board gs) ps (activeGridSize gs) (currentPhase gs)
    (activePlayerId gs) (startingPlayerId gs) (currentRound gs)
    (turnNumber gs) (roundWinners gs) (gameWinner gs) (isGameStarted gs)
    active (isRoundEndModalOpen gs) (roundEndTriggered gs)
    (autoAbilitiesEnabled gs) (autoDrawnPlayers gs).

Definition handleStartReadyCheck (g : option GameState) : Reply :=
  match g with
  | None => (None, [ERROR "Game not found"])
  | Some gs =>
      if isGameStarted gs then (Some gs, [ERROR "Game already started"])
      else
        let gs' := withReadyCheck true (withReady false <$> players gs) gs in
        (Some gs', [Broadcast gs'])
  end.

Definition handleCancelReadyCheck (g : option GameState) : Reply :=
  match g with
  | None => (None, [ERROR "Game not found"])
  | Some gs =>
      if negb (isReadyCheckActive gs) then (Some gs, [])
      else
        let gs' := withReadyCheck false (withReady false <$> players gs) gs in
        (Some gs', [Broadcast gs'])
  end.

Definition cardsToDraw : nat := 6.

(** [for (let i = 0; i < cardsToDraw && i < player.deck.length; i++)]
    with [remaining = cardsToDraw - i]; the body moves [deck[0]] to the
    end of the hand, so [player.deck.length] shrinks as [i] grows. *)
Fixpoint drawLoop (remaining i : nat) (player : Player) : Player :=
  match remaining with
  | O => player
  | S remaining' =>
      if (i <? length (deck player))%nat then
        match deck player with
        | drawnCard :: rest =>
            drawLoop remaining' (S i)
              (withHandDeck (hand player ++ [drawnCard]) rest player)
        | [] => player
        end
      else player
  end.

(** Body of [for (const player of gameState.players)] *)
Definition drawStartingHand (hostAutoDrawEnabled : bool) (player : Player)
    : Player :=
  if (0 <? length (hand player))%nat then player
  else
    let shouldDraw :=
      if isDummy player then hostAutoDrawEnabled
      else negb (bool_decide (autoDrawEnabled player = Some false)) in
    if negb shouldDraw then player
    else drawLoop cardsToDraw 0 player.

Definition drawStartingHands (ps : list Player) : list Player :=
  drawStartingHand (hostAutoDraw ps) <$> ps.

(** [!data.playerId] *)
Definition falsy (v : Nullable) : bool :=
  match v with
  | num n => n =? 0
  | _ => true
  end.

Definition idText (v : Nullable) : string :=
  match v with
  | num n => pretty n
  | null => "null"
  | undefined => "undefined"
  end.

(** [random] is the value of [Math.random()]. *)
Definition handlePlayerReady (random : Q) (g : option GameState)
    (playerId : Nullable) : Reply :=
  match g with
  | None => (None, [ERROR "Game not found"])
  | Some gs =>
      if negb (isReadyCheckActive gs)
      then (Some gs, [ERROR "No active ready check"])
      else if isGameStarted gs then (Some gs, [])
      else if falsy playerId
      then (Some gs, [ERROR "Player ID is required"])
      else
        match playerId, findPlayer playerId (players gs) with
        | num n, Some _ =>
            let ps := updateFound n (withReady true) (players gs) in
            let realPlayers :=
              List.filter (λ p, negb (isDummy p) && negb (isDisconnected p))
                ps in
            let allReady := (0 <? length realPlayers)%nat
                            && forallb isReady realPlayers in
            if allReady && (1 <=? length realPlayers)%nat then
              let allPlayers :=
                List.filter (λ p, negb (isDisconnected p)) ps in
              let randomIndex :=
                Qfloor (random * inject_Z (Z.of_nat (length allPlayers))) in
              let started (starting : Nullable) (ps' : list Player)
                  (phase : Z) :=
                mkGameState (board gs) ps' (activeGridSize gs) phase
                  starting starting (currentRound gs)
                  (turnNumber gs) (roundWinners gs) (gameWinner gs) true
                  false (isRoundEndModalOpen gs) (roundEndTriggered gs)
                  (autoAbilitiesEnabled gs) [] in
              match (if randomIndex <? 0 then None
                     else allPlayers !! Z.to_nat randomIndex) with
              | Some first =>
                  let gs' :=
                    performDrawPhase
                      (started (num (player_id first))
                         (drawStartingHands ps) (-1)) in
                  (Some gs', [Broadcast gs'])
              | None =>
(* [allPlayers[randomIndex]] is undefined: the
   [TypeError] is caught by the handler *)
(Some (mkGameState (board gs) ps (activeGridSize gs)
         (currentPhase gs) (activePlayerId gs)
         (startingPlayerId gs) (currentRound gs)
         (turnNumber gs) (roundWinners gs) (gameWinner gs)
         true false (isRoundEndModalOpen gs)
         (roundEndTriggered gs) (autoAbilitiesEnabled gs)
         []),
 [ERROR "Failed to mark player as ready"])
end
else
let gs' := withPlayers ps gs in
(Some gs', [Broadcast gs'])
| _, _ =>
(Some gs,
[ERROR ("Player with ID " +:+ idText playerId
   +:+ " not found in game")])
end
end.

End ReadyCheck.

(** ** The requests of a session

    The handlers of phaseManagement.ts and readyCheck.ts, each named by
    the message its doc comment says it handles, with the payload fields
    it reads.  [handle] calls the handler of a request on what
    [getGameState] returned; [after] is the game state of the session
    once the handler is done, and [run] serves requests one after the
    other. *)
Module Session.
Import JsValue PhaseManagement ReadyCheck.

Inductive Request :=
| TOGGLE_AUTO_ABILITIES (enabled : JsValue.t)
| TOGGLE_AUTO_DRAW (playerId : Nullable) (enabled : JsValue.t)
| TOGGLE_ACTIVE_PLAYER (playerId : Nullable)
| NEXT_PHASE
| PREV_PHASE
| SET_PHASE (phaseIndex : JsValue.t)
| START_NEXT_ROUND
| START_NEW_MATCH
| START_READY_CHECK
| CANCEL_READY_CHECK
| PLAYER_READY (random : Q) (playerId : Nullable).

(** The requests that start a round or a match anew. *)
Definition restarts (req : Request) : bool :=
  match req with
  | START_NEXT_ROUND | START_NEW_MATCH => true
  | _ => false
  end.

Section handle.
Variable StringToNumber : string → JsNumber.

Definition handle (req : Request) (g : option GameState) : Reply :=
  match req with
  | TOGGLE_AUTO_ABILITIES enabled => handleToggleAutoAbilities g enabled
  | TOGGLE_AUTO_DRAW playerId enabled => handleToggleAutoDraw g playerId enabled
  | TOGGLE_ACTIVE_PLAYER playerId => handleToggleActivePlayer g playerId
  | NEXT_PHASE => handleNextPhase g
  | PREV_PHASE => handlePrevPhase g
  | SET_PHASE phaseIndex => handleSetPhase StringToNumber g phaseIndex
  | START_NEXT_ROUND => handleStartNextRound g
  | START_NEW_MATCH => handleStartNewMatch g
  | START_READY_CHECK => handleStartReadyCheck g
  | CANCEL_READY_CHECK => handleCancelReadyCheck g
  | PLAYER_READY random playerId => handlePlayerReady random g playerId
  end.

Definition after (req : Request) (gs : GameState) : GameState :=
  default gs (handle req (Some gs)).1.

Definition run (reqs : list Request) (gs : GameState) : GameState :=
  foldl (λ gs req, after req gs) gs reqs.

End handle.

End Session.

(** * Properties of the object model *)
Module JsObjectFacts.
Import JsObject.

Section facts.
Context {V : Type}.
Implicit Types (o : list (Z * V)) (k : Z) (v : V).

Lemma keys_update k v o : keys (update k v o) = keys o.
Proof.
  induction o as [|[k' v'] o IH]; simpl; [done|].
  destruct (k' =? k); simpl; [done|]. by f_equal.
Qed.

Lemma elem_of_keys_insertNew k v o k' :
  k' ∈ keys (insertNew k v o) ↔ k' = k ∨ k' ∈ keys o.
Proof.
  induction o as [|[k1 v1] o IH]; simpl.
  - rewrite list_elem_of_singleton, elem_of_nil. tauto.
  - destruct (_ && _); simpl; rewrite !elem_of_cons; [done|].
    unfold keys in IH. rewrite IH. tauto.
Qed.

Lemma get_Some_elem o k v : get o k = Some v → (k, v) ∈ o.
Proof.
  induction o as [|[k' v'] o IH]; simpl; [done|].
  destruct (Z.eqb_spec k' k) as [->|].
  - intros [= ->]. apply list_elem_of_here.
  - intros H. apply list_elem_of_further. auto.
Qed.

Lemma get_Some_key o k v : get o k = Some v → k ∈ keys o.
Proof.
  intros H%get_Some_elem. unfold keys.
  apply list_elem_of_fmap. by exists (k, v).
Qed.

Lemma elem_of_keys_set k v o k' :
  k' ∈ keys (set k v o) ↔ k' = k ∨ k' ∈ keys o.
Proof.
  unfold set. destruct (get o k) as [v0|] eqn:Hg.
  - rewrite keys_update. apply get_Some_key in Hg.
    split; [tauto|]. by intros [->|].
  - apply elem_of_keys_insertNew.
Qed.

Lemma get_update k v o k' :
  get (update k v o) k'
  = if decide (k = k') then (λ _, v) <$> get o k else get o k'.
Proof.
  induction o as [|[k1 v1] o IH]; simpl; [by case_decide|].
  destruct (Z.eqb_spec k1 k) as [->|Hne]; simpl.
  - destruct (Z.eqb_spec k k') as [->|Hne'].
    + by rewrite decide_True.
    + by rewrite decide_False.
  - rewrite IH. destruct (Z.eqb_spec k1 k') as [->|Hne'].
    + by rewrite decide_False.
    + done.
Qed.

Lemma get_insertNew k v o k' :
  get o k = None →
  get (insertNew k v o) k' = if decide (k = k') then Some v else get o k'.
Proof.
  induction o as [|[k1 v1] o IH]; simpl.
  - intros _. destruct (Z.eqb_spec k k'); case_decide; done.
  - destruct (Z.eqb_spec k1 k) as [->|Hne]; [done|]. intros Hg.
    destruct (_ && _); simpl.
    + destruct (Z.eqb_spec k k') as [->|Hne'].
      * by rewrite decide_True.
      * by rewrite decide_False.
    + rewrite (IH Hg). destruct (Z.eqb_spec k1 k') as [->|Hne'].
      * by rewrite decide_False.
      * done.
Qed.

Lemma get_set k v o k' :
  get (set k v o) k' = if decide (k = k') then Some v else get o k'.
Proof.
  unfold set. destruct (get o k) as [v0|] eqn:Hg.
  - rewrite get_update. case_decide; [|done]. by rewrite Hg.
  - by apply get_insertNew.
Qed.

Lemma Forall_set (P : Z * V → Prop) k v o :
  P (k, v) → Forall P o → Forall P (set k v o).
Proof.
  intros Hkv Ho. unfold set. destruct (get o k) as [v0|].
  - induction Ho as [|[k1 v1] o H1 Ho IH]; simpl; [done|].
    destruct (Z.eqb_spec k1 k) as [->|]; constructor; done.
  - induction Ho as [|[k1 v1] o H1 Ho IH]; simpl; [by repeat constructor|].
    destruct (_ && _); repeat constructor; done.
Qed.

(** When every key is an array index, the first enumerated key is the
    smallest one. *)
Definition minHead o : Prop :=
  ∀ h, head (keys o) = Some h → ∀ k, k ∈ keys o → h ≤ k.

Lemma minHead_empty : minHead (@empty V).
Proof. intros h [=]. Qed.

Lemma minHead_set k v o :
  isArrayIndex k = true →
  Forall (λ k', isArrayIndex k' = true) (keys o) →
  minHead o → minHead (set k v o).
Proof.
  intros Hk Hidx Hmin. unfold set. destruct (get o k) as [v0|] eqn:Hg.
  { intros h. rewrite keys_update. apply Hmin. }
  destruct o as [|[k1 v1] o]; simpl.
  { intros h Hh k'. simpl in *. injection Hh as <-.
    intros ->%list_elem_of_singleton. lia. }
  apply Forall_cons in Hidx as [Hk1 Hidx]. simpl in Hk1.
  rewrite Hk, Hk1. simpl.
  assert (Hk1min : ∀ k', k' ∈ keys o → k1 ≤ k').
  { intros k' Hin. apply (Hmin k1); [done|]. simpl.
    by apply list_elem_of_further. }
  destruct (Z.ltb_spec k k1) as [Hlt|Hge]; simpl.
  - intros h Hh k'. simpl in *. injection Hh as <-.
    rewrite !elem_of_cons.
    intros [->|[->|Hin]]; [lia|lia|]. specialize (Hk1min _ Hin). lia.
  - intros h Hh k'. simpl in *. injection Hh as <-.
    rewrite elem_of_cons.
    fold (keys (insertNew k v o)). rewrite elem_of_keys_insertNew.
    intros [->|[->|Hin]]; [lia|lia|]. by apply Hk1min.
Qed.

End facts.
End JsObjectFacts.

(** * Properties of the board status engine *)
Module BoardFacts.
Import BoardUtils.

(** ** Reading a board after an in-place update *)

Definition shape (b : Board) : list nat := length <$> b.

Lemma cellAt_updCard f r c b r' c' :
  cellAt (updCard f r c b) r' c'
  = if decide ((r', c') = (r, c))
    then (λ cell, mkCell (f <$> card cell)) <$> cellAt b r c
    else cellAt b r' c'.
Proof.
  unfold cellAt, updCard.
  destruct (decide (r' = r)) as [->|Hr].
  - rewrite list_lookup_alter_eq.
    destruct (b !! r) as [row|] eqn:Hrow; simpl.
    + destruct (decide (c' = c)) as [->|Hc].
      * rewrite list_lookup_alter_eq, decide_True by done.
        by destruct (row !! c).
      * rewrite list_lookup_alter_ne by done.
        rewrite decide_False by congruence. done.
    + case_decide; done.
  - rewrite list_lookup_alter_ne by done.
    rewrite decide_False by congruence. done.
Qed.

Lemma cardAt_updCard f r c b r' c' :
  cardAt (updCard f r c b) r' c'
  = if decide ((r', c') = (r, c)) then f <$> cardAt b r c else cardAt b r' c'.
Proof.
  unfold cardAt. rewrite cellAt_updCard. case_decide; [|done].
  destruct (cellAt b r c) as [[[cd|]]|]; done.
Qed.

Lemma shape_updCard f r c b : shape (updCard f r c b) = shape b.
Proof.
  unfold shape, updCard. apply list_eq. intros i.
  rewrite !list_lookup_fmap.
  destruct (decide (i = r)) as [->|Hi].
  - rewrite list_lookup_alter_eq.
    destruct (b !! r); simpl; [|done]. by rewrite length_alter.
  - by rewrite list_lookup_alter_ne.
Qed.

Lemma shape_length b b' : shape b = shape b' → length b = length b'.
Proof.
  unfold shape. intros H.
  rewrite <- (length_fmap length b), H. apply length_fmap.
Qed.

Lemma cellAt_is_Some b r c :
  is_Some (cellAt b r c) ↔ ∃ k, shape b !! r = Some k ∧ Nat.lt c k.
Proof.
  unfold cellAt, shape. rewrite list_lookup_fmap.
  destruct (b !! r) as [row|]; simpl.
  - rewrite lookup_lt_is_Some. split.
    + intros H. eauto.
    + intros (k & [= <-] & H). done.
  - split; [intros [? [=]] | intros (? & [=] & _)].
Qed.

(** A board is determined by its shape and the cards it holds. *)
Lemma board_ext b b' :
  shape b = shape b' →
  (∀ r c, cardAt b r c = cardAt b' r c) →
  b = b'.
Proof.
  intros Hs Hc. apply list_eq. intros r.
  assert (Hr : length <$> (b !! r) = length <$> (b' !! r)).
  { rewrite <- !list_lookup_fmap. by fold (shape b) (shape b'); rewrite Hs. }
  destruct (b !! r) as [row|] eqn:E1, (b' !! r) as [row'|] eqn:E2;
    simpl in Hr; try done.
  f_equal. apply list_eq. intros c.
  specialize (Hc r c). unfold cardAt, cellAt in Hc. rewrite E1, E2 in Hc.
  simpl in Hc. injection Hr as Hr.
  destruct (row !! c) as [[x]|] eqn:F1, (row' !! c) as [[y]|] eqn:F2;
    simpl in Hc; try done.
  - by subst.
  - apply lookup_lt_Some in F1. apply lookup_ge_None in F2. lia.
  - apply lookup_lt_Some in F2. apply lookup_ge_None in F1. lia.
Qed.

(** ** What a pass reads of the cards it does not update *)

Definition view (cd : Card) : option string * option Z * bool * bool :=
  (baseId cd, ownerId cd, isFaceDown cd, someStatus "Stun" cd).

Definition sameView (b b' : Board) : Prop :=
  ∀ r c, view <$> cardAt b r c = view <$> cardAt b' r c.

Lemma sameView_refl b : sameView b b.
Proof. done. Qed.

Lemma sameView_sym b b' : sameView b b' → sameView b' b.
Proof. intros H r c. by rewrite H. Qed.

Lemma sameView_trans b1 b2 b3 :
  sameView b1 b2 → sameView b2 b3 → sameView b1 b3.
Proof. intros H1 H2 r c. by rewrite H1. Qed.

Lemma existsb_Stun_filter l :
  existsb (hasType "Stun") (List.filter (λ s, negb (isAuto s)) l)
  = existsb (hasType "Stun") l.
Proof.
  induction l as [|s l IH]; [done|]. simpl.
  destruct (isAuto s) eqn:Ha; simpl; rewrite IH; [|done].
  unfold isAuto, hasType in *. destruct s as [ty w]; simpl in *.
  destruct (String.eqb_spec ty "Support") as [->|];
    [done|destruct (String.eqb_spec ty "Threat") as [->|]; done].
Qed.

Lemma view_resetCard cd : view (resetCard cd) = view cd.
Proof.
  unfold view, resetCard, someStatus. simpl.
  destruct (statuses cd); simpl; [|done]. by rewrite existsb_Stun_filter.
Qed.

Lemma view_pushStatus ty w cd :
  String.eqb ty "Stun" = false → view (pushStatus ty w cd) = view cd.
Proof.
  intros Hty. unfold view, pushStatus, someStatus. simpl. f_equal.
  destruct (statuses cd) as [l|]; simpl.
  - destruct (existsb (hasType ty) l); [done|].
    rewrite existsb_app. simpl. unfold hasType at 2. simpl.
    rewrite Hty. by rewrite !orb_false_r.
  - unfold hasType. simpl. by rewrite Hty.
Qed.

Lemma view_grantSupport o cd : view (grantSupport o cd) = view cd.
Proof.
  unfold grantSupport. destruct (_ && _); [|done]. by apply view_pushStatus.
Qed.

Lemma view_bumpPower o cd : view (bumpPower o cd) = view cd.
Proof. unfold bumpPower. by destruct (_ && _). Qed.

Lemma sameView_updCard f r c b :
  (∀ cd, view (f cd) = view cd) → sameView (updCard f r c b) b.
Proof.
  intros Hf r' c'. rewrite cardAt_updCard. case_decide as E; [|done].
  injection E as -> ->. destruct (cardAt b r c); simpl; [|done].
  by rewrite Hf.
Qed.

(** ** A pass over all cells, cell by cell *)

Lemma elem_of_positions n r c :
  (r, c) ∈ positions n ↔ (r < n ∧ c < n)%nat.
Proof.
  unfold positions. rewrite list_elem_of_bind. split.
  - intros (r' & Hc & Hr). apply list_elem_of_fmap in Hc as (c' & [= -> ->] & Hc).
    apply elem_of_seq in Hr, Hc. lia.
  - intros [Hr Hc]. exists r. split.
    + apply list_elem_of_fmap. exists c. split; [done|]. apply elem_of_seq. lia.
    + apply elem_of_seq. lia.
Qed.

Lemma NoDup_positions n : NoDup (positions n).
Proof.
  unfold positions. apply NoDup_bind.
  - intros r1 r2 p _ _ H1 H2.
    apply list_elem_of_fmap in H1 as (? & -> & _).
    apply list_elem_of_fmap in H2 as (? & [= -> _] & _). done.
  - intros r _. apply NoDup_fmap_2; [|apply NoDup_seq].
    intros ?? [=]. done.
  - apply NoDup_seq.
Qed.

Section pass.
Variable step : Board → nat → nat → Board.
Variable g : Board → nat → nat → Card → Card.
Hypothesis step_cardAt : ∀ b r c r' c',
  cardAt (step b r c) r' c'
  = if decide ((r', c') = (r, c)) then g b r c <$> cardAt b r c
    else cardAt b r' c'.
Hypothesis step_shape : ∀ b r c, shape (step b r c) = shape b.
Hypothesis g_view : ∀ b r c cd, view (g b r c cd) = view cd.
Hypothesis g_ext : ∀ b b' r c cd, sameView b b' → g b r c cd = g b' r c cd.

Lemma step_sameView b r c : sameView (step b r c) b.
Proof.
  intros r' c'. rewrite step_cardAt. case_decide as E; [|done].
  injection E as -> ->. destruct (cardAt b r c); simpl; [|done].
  by rewrite g_view.
Qed.

Lemma foldl_step_cardAt ps b0 b r c :
  NoDup ps → sameView b b0 →
  cardAt (foldl (λ b rc, step b rc.1 rc.2) b ps) r c
  = if decide ((r, c) ∈ ps) then g b0 r c <$> cardAt b r c
    else cardAt b r c.
Proof.
  revert b. induction ps as [|[r1 c1] ps IH]; intros b Hnd Hv; simpl.
  { done. }
  apply NoDup_cons in Hnd as [Hnotin Hnd].
  rewrite IH; [|done|].
  2:{ eapply sameView_trans; [apply step_sameView|done]. }
  rewrite step_cardAt.
  destruct (decide ((r, c) = (r1, c1))) as [E|E].
  - rewrite decide_False by (by rewrite E).
    rewrite decide_True by (rewrite E; apply list_elem_of_here).
    injection E as -> ->.
    destruct (cardAt b r1 c1); simpl; [|done]. f_equal. by apply g_ext.
  - destruct (decide ((r, c) ∈ ps)) as [Hin|Hin].
    + rewrite decide_True by (by apply list_elem_of_further). done.
    + rewrite decide_False; [done|].
      intros [?|?]%elem_of_cons; done.
Qed.

Lemma foldl_step_shape ps b :
  shape (foldl (λ b rc, step b rc.1 rc.2) b ps) = shape b.
Proof.
  revert b. induction ps as [|p ps IH]; intros b; simpl; [done|].
  by rewrite IH, step_shape.
Qed.

Lemma forCells_cardAt n b r c :
  cardAt (forCells n step b) r c
  = if decide (r < n ∧ c < n)%nat then g b r c <$> cardAt b r c
    else cardAt b r c.
Proof.
  unfold forCells.
  rewrite (foldl_step_cardAt _ b); [|apply NoDup_positions|done].
  destruct (decide ((r, c) ∈ positions n)) as [H|H];
    rewrite elem_of_positions in H.
  - by rewrite decide_True.
  - by rewrite decide_False.
Qed.

Lemma forCells_shape n b : shape (forCells n step b) = shape b.
Proof. apply foldl_step_shape. Qed.

Lemma forCells_sameView n b : sameView (forCells n step b) b.
Proof.
  intros r c. rewrite forCells_cardAt. case_decide; [|done].
  destruct (cardAt b r c); simpl; [|done]. by rewrite g_view.
Qed.
End pass.

(** ** Pass 1 and pass 2, per card *)

(** What pass 2 does to the card of cell [(r, c)], the neighbors read
    from board [b]. *)
Definition deriveStatus (n : nat) (a : Z) (m : gmap Z (option Z))
    (b : Board) (r c : nat) (cd : Card) : Card :=
  match ownerId cd with
  | None => cd
  | Some owner =>
      if isFaceDown cd then cd
      else
        let sc := scanNeighbors n m b owner r c in
        let cd1 := if hasFriendlyNeighbor sc
                   then pushStatus "Support" owner cd else cd in
        match threateningPlayerId n a (enemyNeighborsByPlayer sc) r c with
        | Some t => pushStatus "Threat" t cd1
        | None => cd1
        end
  end.

Lemma statusStep_cardAt n a m b r c r' c' :
  cardAt (statusStep n a m b r c) r' c'
  = if decide ((r', c') = (r, c))
    then deriveStatus n a m b r c <$> cardAt b r c
    else cardAt b r' c'.
Proof.
  unfold statusStep, deriveStatus.
  destruct (cardAt b r c) as [cd|] eqn:Hcd; simpl.
  2:{ case_decide as E; [|done]. by injection E as -> ->. }
  destruct (ownerId cd) as [owner|].
  2:{ case_decide as E; [|done]. by injection E as -> ->. }
  destruct (isFaceDown cd).
  { case_decide as E; [|done]. by injection E as -> ->. }
  destruct (hasFriendlyNeighbor _), (threateningPlayerId _ _ _ _ _);
    rewrite ?cardAt_updCard; case_decide as E;
    try (injection E as -> ->); rewrite ?decide_True, ?Hcd by done;
    try done; rewrite ?decide_False, ?Hcd by done; done.
Qed.

Lemma statusStep_shape n a m b r c : shape (statusStep n a m b r c) = shape b.
Proof.
  unfold statusStep.
  destruct (cardAt b r c) as [cd|]; [|done].
  destruct (ownerId cd); [|done]. destruct (isFaceDown cd); [done|].
  destruct (hasFriendlyNeighbor _), (threateningPlayerId _ _ _ _ _);
    by rewrite ?shape_updCard.
Qed.

Lemma view_deriveStatus n a m b r c cd :
  view (deriveStatus n a m b r c cd) = view cd.
Proof.
  unfold deriveStatus.
  destruct (ownerId cd) eqn:Ho; [|done]. destruct (isFaceDown cd) eqn:Hf; [done|].
  destruct (hasFriendlyNeighbor _), (threateningPlayerId _ _ _ _ _);
    by rewrite ?view_pushStatus.
Qed.

Lemma scanNeighbor_ext n m b b' owner acc pos :
  sameView b b' →
  scanNeighbor n m b owner acc pos = scanNeighbor n m b' owner acc pos.
Proof.
  intros Hv. unfold scanNeighbor. destruct pos as [nr nc].
  destruct (_ && _); [|done].
  specialize (Hv (Z.to_nat nr) (Z.to_nat nc)).
  destruct (cardAt b _ _) as [x|], (cardAt b' _ _) as [y|];
    simpl in Hv; try done.
  injection Hv as _ Ho Hf Hs. by rewrite Ho, Hf, Hs.
Qed.

Lemma scanNeighbors_ext n m b b' owner r c :
  sameView b b' →
  scanNeighbors n m b owner r c = scanNeighbors n m b' owner r c.
Proof.
  intros Hv. unfold scanNeighbors. generalize (mkScan JsObject.empty false).
  induction (neighborsPos r c) as [|p ps IH]; intros acc; simpl; [done|].
  by rewrite (scanNeighbor_ext _ _ b b'), IH.
Qed.

Lemma deriveStatus_ext n a m b b' r c cd :
  sameView b b' → deriveStatus n a m b r c cd = deriveStatus n a m b' r c cd.
Proof.
  intros Hv. unfold deriveStatus.
  destruct (ownerId cd); [|done].
  by rewrite (scanNeighbors_ext _ _ b b').
Qed.

Lemma resetStep_cardAt b r c r' c' :
  cardAt (resetStep b r c) r' c'
  = if decide ((r', c') = (r, c)) then resetCard <$> cardAt b r c
    else cardAt b r' c'.
Proof. apply cardAt_updCard. Qed.

(** ** The hero loops, per card *)

Lemma applyLine_cardAt f cells b r c :
  NoDup cells →
  cardAt (applyLine f cells b) r c
  = if decide ((r, c) ∈ cells) then f <$> cardAt b r c else cardAt b r c.
Proof.
  unfold applyLine. revert b.
  induction cells as [|[r1 c1] cells IH]; intros b Hnd; simpl; [done|].
  apply NoDup_cons in Hnd as [Hnotin Hnd].
  rewrite IH by done. rewrite cardAt_updCard.
  destruct (decide ((r, c) = (r1, c1))) as [E|E].
  - rewrite decide_False by (by rewrite E).
    rewrite decide_True by (rewrite E; apply list_elem_of_here).
    by injection E as -> ->.
  - destruct (decide ((r, c) ∈ cells)) as [Hin|Hin].
    + by rewrite decide_True by (by apply list_elem_of_further).
    + rewrite decide_False; [done|]. intros [?|?]%elem_of_cons; done.
Qed.

Lemma applyLine_shape f cells b : shape (applyLine f cells b) = shape b.
Proof.
  unfold applyLine. revert b.
  induction cells as [|p cells IH]; intros b; simpl; [done|].
  by rewrite IH, shape_updCard.
Qed.

Lemma elem_of_rowCells n r r' c :
  (r', c) ∈ rowCells n r ↔ (r' = r ∧ c < n)%nat.
Proof.
  unfold rowCells. rewrite list_elem_of_fmap. split.
  - intros (i & [= -> ->] & Hi). apply elem_of_seq in Hi. lia.
  - intros [-> Hc]. exists c. split; [done|]. apply elem_of_seq. lia.
Qed.

Lemma elem_of_colCells n c r c' :
  (r, c') ∈ colCells n c ↔ (c' = c ∧ r < n)%nat.
Proof.
  unfold colCells. rewrite list_elem_of_fmap. split.
  - intros (i & [= -> ->] & Hi). apply elem_of_seq in Hi. lia.
  - intros [-> Hc]. exists r. split; [done|]. apply elem_of_seq. lia.
Qed.

Lemma NoDup_rowCells n r : NoDup (rowCells n r).
Proof. apply NoDup_fmap_2; [by intros ?? [=]|apply NoDup_seq]. Qed.

Lemma NoDup_colCells n c : NoDup (colCells n c).
Proof. apply NoDup_fmap_2; [by intros ?? [=]|apply NoDup_seq]. Qed.

Definition rowKeys (hs : list HeroPosition) : gset (nat * Z) :=
  list_to_set ((λ h, (hero_r h, hero_ownerId h)) <$> hs).
Definition colKeys (hs : list HeroPosition) : gset (nat * Z) :=
  list_to_set ((λ h, (hero_c h, hero_ownerId h)) <$> hs).

Definition hit (P : Prop) `{!Decision P} : nat :=
  if decide P then 1%nat else 0%nat.

Lemma hit_ext (P Q : Prop) `{!Decision P, !Decision Q} :
  (P ↔ Q) → hit P = hit Q.
Proof. unfold hit. intros H. repeat case_decide; tauto. Qed.

Lemma hit_split (P Q R : Prop) `{!Decision P, !Decision Q, !Decision R} :
  (P ↔ Q ∨ R) → ¬ (Q ∧ R) → hit P = (hit Q + hit R)%nat.
Proof. unfold hit. intros H1 H2. repeat case_decide; tauto. Qed.

Lemma hit_False (P : Prop) `{!Decision P} : ¬ P → hit P = 0%nat.
Proof. unfold hit. intros H. by rewrite decide_False. Qed.

Lemma hit_True (P : Prop) `{!Decision P} : P → hit P = 1%nat.
Proof. unfold hit. intros H. by rewrite decide_True. Qed.

(** How many times the loop over [hs] applies the effect of owner [o] to
    cell [(r, c)]: once for the row and once for the column, when the
    line has a hero of [o] and was not processed before. *)
Definition rowHits (n : nat) (pr : gset (nat * Z))
    (hs : list HeroPosition) (r c : nat) (o : Z) : nat :=
  hit (c < n ∧ ((r, o) ∉ pr) ∧ (r, o) ∈ rowKeys hs)%nat.
Definition colHits (n : nat) (pc : gset (nat * Z))
    (hs : list HeroPosition) (r c : nat) (o : Z) : nat :=
  hit (r < n ∧ ((c, o) ∉ pc) ∧ (c, o) ∈ colKeys hs)%nat.
Definition lineHits (n : nat) (pr pc : gset (nat * Z))
    (hs : list HeroPosition) (r c : nat) (o : Z) : nat :=
  (rowHits n pr hs r c o + colHits n pc hs r c o)%nat.

Definition applyHits (hits : Z → nat) (effect : Z → Card → Card)
    (cd : Card) : Card :=
  match ownerId cd with
  | Some o => Nat.iter (hits o) (effect o) cd
  | None => cd
  end.

Lemma applyHits_ext h1 h2 effect cd :
  (∀ o, ownerId cd = Some o → h1 o = h2 o) →
  applyHits h1 effect cd = applyHits h2 effect cd.
Proof.
  unfold applyHits. intros H. destruct (ownerId cd) as [o|]; [|done].
  by rewrite (H o).
Qed.

Lemma applyHits_zero hits effect cd :
  (∀ o, hits o = 0%nat) → applyHits hits effect cd = cd.
Proof.
  intros H. unfold applyHits. destruct (ownerId cd) as [o|]; [|done].
  by rewrite H.
Qed.

Section heroLoop.
Variable n : nat.
Variable effect : Z → Card → Card.
Hypothesis effect_other :
  ∀ o cd, ownerId cd ≠ Some o → effect o cd = cd.
Hypothesis effect_owner : ∀ o cd, ownerId (effect o cd) = ownerId cd.

Lemma iter_effect_owner k o cd :
  ownerId (Nat.iter k (effect o) cd) = ownerId cd.
Proof. induction k; simpl; [done|]. by rewrite effect_owner. Qed.

Lemma applyHits_add h1 h2 cd :
  applyHits h2 effect (applyHits h1 effect cd)
  = applyHits (λ o, (h1 o + h2 o)%nat) effect cd.
Proof.
  unfold applyHits. destruct (ownerId cd) as [o|] eqn:Ho.
  - rewrite iter_effect_owner, Ho.
    by rewrite (Nat.add_comm (h1 o)), Nat.iter_add.
  - by rewrite Ho.
Qed.

(** One line of one hero: the cards of the line take the effect once,
    unless the line was processed before. *)
Lemma line_applyHits (cells : list (nat * nat)) (k : nat * Z)
    (p : gset (nat * Z)) (hits : Z → nat) oh b r c :
  NoDup cells →
  (∀ o, hits o = hit ((r, c) ∈ cells ∧ (k ∉ p) ∧ o = oh)) →
  cardAt (if decide (k ∈ p) then b else applyLine (effect oh) cells b) r c
  = applyHits hits effect <$> cardAt b r c.
Proof.
  intros Hnd Hhits.
  assert (Hid : ∀ cd, (∀ o, ownerId cd = Some o → hits o = 0%nat) →
                      applyHits hits effect cd = cd).
  { intros cd H0. unfold applyHits.
    destruct (ownerId cd) as [o|]; [|done]. by rewrite H0. }
  destruct (decide (k ∈ p)) as [Hk|Hk].
  { destruct (cardAt b r c) as [cd|]; simpl; [|done]. rewrite Hid; [done|].
    intros o _. rewrite Hhits. unfold hit. rewrite decide_False; tauto. }
  rewrite applyLine_cardAt by done.
  destruct (decide ((r, c) ∈ cells)) as [Hin|Hin].
  - destruct (cardAt b r c) as [cd|]; simpl; [|done]. f_equal.
    unfold applyHits. destruct (ownerId cd) as [o|] eqn:Ho.
    + rewrite Hhits. unfold hit.
      destruct (decide (o = oh)) as [->|Hne].
      * by rewrite decide_True.
      * rewrite decide_False by tauto. simpl.
        apply effect_other. congruence.
    + apply effect_other. congruence.
  - destruct (cardAt b r c) as [cd|]; simpl; [|done]. rewrite Hid; [done|].
    intros o _. rewrite Hhits. unfold hit. rewrite decide_False; tauto.
Qed.

Lemma heroStep_cardAt st h r c :
  cardAt (loopBoard (heroStep n effect st h)) r c
  = applyHits (lineHits n (processedRows st) (processedCols st) [h] r c)
      effect
    <$> cardAt (loopBoard st) r c.
Proof.
  unfold heroStep. destruct st as [b pr pc]. simpl.
  set (oh := hero_ownerId h).
  set (b1 := if decide ((hero_r h, oh) ∈ pr) then b
             else applyLine (effect oh) (rowCells n (hero_r h)) b).
  transitivity
    (cardAt (if decide ((hero_c h, oh) ∈ pc) then b1
             else applyLine (effect oh) (colCells n (hero_c h)) b1) r c).
  { unfold b1. by repeat case_decide. }
  rewrite (line_applyHits _ _ _ (colHits n pc [h] r c));
    [|apply NoDup_colCells|].
  2:{ intros o. apply hit_ext. unfold colKeys. simpl.
      rewrite elem_of_colCells. clear. set_solver. }
  unfold b1.
  rewrite (line_applyHits _ _ _ (rowHits n pr [h] r c));
    [|apply NoDup_rowCells|].
  2:{ intros o. apply hit_ext. unfold rowKeys. simpl.
      rewrite elem_of_rowCells. clear. set_solver. }
  rewrite <- option_fmap_compose. apply option_fmap_ext.
  intros cd. simpl. by rewrite applyHits_add.
Qed.

Lemma heroStep_rows st h :
  processedRows (heroStep n effect st h)
  = {[ (hero_r h, hero_ownerId h) ]} ∪ processedRows st.
Proof.
  unfold heroStep. clear. repeat case_decide; simpl; try done; set_solver.
Qed.

Lemma heroStep_cols st h :
  processedCols (heroStep n effect st h)
  = {[ (hero_c h, hero_ownerId h) ]} ∪ processedCols st.
Proof.
  unfold heroStep. clear. repeat case_decide; simpl; try done; set_solver.
Qed.

Lemma heroStep_shape st h :
  shape (loopBoard (heroStep n effect st h)) = shape (loopBoard st).
Proof.
  unfold heroStep. repeat case_decide; simpl; by rewrite ?applyLine_shape.
Qed.

Lemma lineHits_cons pr pc h hs r c o :
  lineHits n pr pc (h :: hs) r c o
  = (lineHits n pr pc [h] r c o
     + lineHits n ({[ (hero_r h, hero_ownerId h) ]} ∪ pr)
         ({[ (hero_c h, hero_ownerId h) ]} ∪ pc) hs r c o)%nat.
Proof.
  unfold lineHits, rowHits, colHits, rowKeys, colKeys.
  rewrite !fmap_cons, !list_to_set_cons, !fmap_nil, !list_to_set_nil.
  destruct (decide ((r, o) = (hero_r h, hero_ownerId h))) as [Er|Er];
    destruct (decide ((c, o) = (hero_c h, hero_ownerId h))) as [Ec|Ec];
    match goal with
    | |- (hit ?P + hit ?Q = hit ?P1 + hit ?Q1 + (hit ?P2 + hit ?Q2))%nat =>
        rewrite (hit_split P P1 P2), (hit_split Q Q1 Q2); [lia|..]
    end;
    clear -Er Ec;
    set_unfold; tauto.
Qed.

Lemma heroLoop_cardAt hs st r c :
  cardAt (loopBoard (foldl (heroStep n effect) st hs)) r c
  = applyHits (lineHits n (processedRows st) (processedCols st) hs r c)
      effect
    <$> cardAt (loopBoard st) r c.
Proof.
  revert st. induction hs as [|h hs IH]; intros st; simpl.
  - destruct (cardAt _ r c) as [cd|]; simpl; [|done]. f_equal.
    unfold applyHits. destruct (ownerId cd) as [o|]; [|done].
    unfold lineHits, rowHits, colHits, rowKeys, colKeys. simpl.
    rewrite !hit_False by (clear; set_solver). done.
  - rewrite IH, heroStep_cardAt, heroStep_rows, heroStep_cols.
    rewrite <- option_fmap_compose. apply option_fmap_ext.
    intros cd. simpl. rewrite applyHits_add. apply applyHits_ext.
    intros o _. symmetry. apply lineHits_cons.
Qed.

Lemma heroLoop_shape hs st :
  shape (loopBoard (foldl (heroStep n effect) st hs)) = shape (loopBoard st).
Proof.
  revert st. induction hs as [|h hs IH]; intros st; simpl; [done|].
  by rewrite IH, heroStep_shape.
Qed.

Lemma applyHeroes_cardAt hs b r c :
  cardAt (applyHeroes n effect hs b) r c
  = applyHits (lineHits n ∅ ∅ hs r c) effect <$> cardAt b r c.
Proof. unfold applyHeroes. by rewrite heroLoop_cardAt. Qed.

Lemma applyHeroes_shape hs b : shape (applyHeroes n effect hs b) = shape b.
Proof. unfold applyHeroes. by rewrite heroLoop_shape. Qed.

End heroLoop.

Lemma grantSupport_other o cd : ownerId cd ≠ Some o → grantSupport o cd = cd.
Proof.
  intros H. unfold grantSupport. by rewrite bool_decide_eq_false_2.
Qed.

Lemma grantSupport_owner o cd : ownerId (grantSupport o cd) = ownerId cd.
Proof. unfold grantSupport. by destruct (_ && _). Qed.

Lemma bumpPower_other o cd : ownerId cd ≠ Some o → bumpPower o cd = cd.
Proof.
  intros H. unfold bumpPower. by rewrite bool_decide_eq_false_2.
Qed.

Lemma bumpPower_owner o cd : ownerId (bumpPower o cd) = ownerId cd.
Proof. unfold bumpPower. by destruct (_ && _). Qed.

Lemma view_applyHits hits effect cd :
  (∀ o x, view (effect o x) = view x) →
  view (applyHits hits effect cd) = view cd.
Proof.
  intros H. unfold applyHits. destruct (ownerId cd) as [o|]; [|done].
  induction (hits o) as [|k IH]; simpl; [done|]. by rewrite H.
Qed.

(** ** The heroes collected from a board *)

Lemma heroAt_ext hid b b' rc :
  sameView b b' → heroAt hid b rc = heroAt hid b' rc.
Proof.
  intros Hv. unfold heroAt. specialize (Hv rc.1 rc.2).
  destruct (cardAt b _ _) as [x|], (cardAt b' _ _) as [y|];
    simpl in Hv; try done.
  injection Hv as Hb Ho Hf Hs. by rewrite Hb, Ho, Hf, Hs.
Qed.

Lemma collectHeroes_ext hid n b b' :
  sameView b b' → collectHeroes hid n b = collectHeroes hid n b'.
Proof.
  intros Hv. unfold collectHeroes.
  apply list_omap_ext, Forall2_same_length_lookup_2; [done|].
  intros i x y Hx Hy. rewrite Hx in Hy. injection Hy as <-.
  by apply heroAt_ext.
Qed.

Lemma heroAt_Some hid b rc h :
  heroAt hid b rc = Some h →
  hero_r h = rc.1 ∧ hero_c h = rc.2 ∧ hero_baseId h = hid ∧
  ∃ cd, cardAt b rc.1 rc.2 = Some cd ∧ baseId cd = Some hid
        ∧ ownerId cd = Some (hero_ownerId h) ∧ isFaceDown cd = false
        ∧ someStatus "Stun" cd = false.
Proof.
  unfold heroAt. destruct (cardAt b _ _) as [cd|]; [|done].
  destruct (baseId cd) as [bid|] eqn:Hb; [|done].
  destruct (ownerId cd) as [o|] eqn:Ho; [|done].
  destruct (negb (String.eqb bid "")) eqn:H1; [|done].
  destruct (isFaceDown cd) eqn:H2; [done|].
  destruct (someStatus "Stun" cd) eqn:H3; [done|]. simpl.
  destruct (String.eqb_spec bid hid) as [->|]; [|done].
  intros [= <-]. simpl. eauto 10.
Qed.

Lemma elem_of_collectHeroes hid n b h :
  h ∈ collectHeroes hid n b →
  (hero_r h < n)%nat ∧ (hero_c h < n)%nat
  ∧ heroAt hid b (hero_r h, hero_c h) = Some h.
Proof.
  unfold collectHeroes. rewrite list_elem_of_omap.
  intros ([r c] & Hin & Hh). apply elem_of_positions in Hin.
  destruct (heroAt_Some _ _ _ _ Hh) as (Hr & Hc & _). simpl in *.
  rewrite Hr, Hc. tauto.
Qed.

Lemma collectHeroes_intro hid n b r c cd :
  (r < n)%nat → (c < n)%nat →
  cardAt b r c = Some cd → baseId cd = Some hid → hid ≠ ""%string →
  isFaceDown cd = false → someStatus "Stun" cd = false →
  ∀ o, ownerId cd = Some o → mkHero r c o hid ∈ collectHeroes hid n b.
Proof.
  intros Hr Hc Hcd Hb Hne Hf Hs o Ho. unfold collectHeroes.
  apply list_elem_of_omap. exists (r, c). split.
  - by apply elem_of_positions.
  - unfold heroAt. simpl. rewrite Hcd, Hb, Ho, Hf, Hs. simpl.
    rewrite String.eqb_refl.
    by destruct (String.eqb_spec hid "").
Qed.

Lemma lineHits_outside hid n b r c o :
  ¬ (r < n ∧ c < n)%nat →
  lineHits n ∅ ∅ (collectHeroes hid n b) r c o = 0%nat.
Proof.
  intros Hout. unfold lineHits, rowHits, colHits.
  rewrite !hit_False; [done| |].
  - intros (Hr & _ & Hin). unfold colKeys in Hin.
    apply elem_of_list_to_set, list_elem_of_fmap in Hin as (h & [= -> _] & Hh).
    apply elem_of_collectHeroes in Hh. lia.
  - intros (Hc & _ & Hin). unfold rowKeys in Hin.
    apply elem_of_list_to_set, list_elem_of_fmap in Hin as (h & [= -> _] & Hh).
    apply elem_of_collectHeroes in Hh. lia.
Qed.

(** ** The recomputed board, card by card *)

Definition finalCard (gs : GameState) (r c : nat) (cd : Card) : Card :=
  let b := board gs in
  let n := length b in
  if decide (r < n ∧ c < n)%nat then
    let m := playerTeamMap (players gs) in
    let cd2 := deriveStatus n (activeGridSize gs) m b r c (resetCard cd) in
    let cd3 := applyHits
                 (lineHits n ∅ ∅ (collectHeroes HERO_REVEREND_ID n b) r c)
                 grantSupport cd2 in
    applyHits (lineHits n ∅ ∅ (collectHeroes HERO_MR_PEARL_ID n b) r c)
      bumpPower cd3
  else cd.

Lemma recalculateBoardStatuses_Some gs :
  rowsCoverGrid (board gs) = true → is_Some (recalculateBoardStatuses gs).
Proof. intros H. unfold recalculateBoardStatuses, cloneBoard. by rewrite H. Qed.

Lemma recalculateBoardStatuses_shape gs b' :
  recalculateBoardStatuses gs = Some b' → shape b' = shape (board gs).
Proof.
  unfold recalculateBoardStatuses, cloneBoard.
  destruct (rowsCoverGrid (board gs)); [|done]. intros [= <-].
  unfold heroPasses.
  rewrite !applyHeroes_shape.
  rewrite forCells_shape by (intros; apply statusStep_shape).
  by rewrite forCells_shape by (intros; apply shape_updCard).
Qed.

Lemma recalculateBoardStatuses_cardAt gs b' r c :
  recalculateBoardStatuses gs = Some b' →
  cardAt b' r c = finalCard gs r c <$> cardAt (board gs) r c.
Proof.
  unfold recalculateBoardStatuses, cloneBoard.
  destruct (rowsCoverGrid (board gs)); [|done]. intros [= <-].
  set (b0 := board gs). set (n := length b0).
  set (m := playerTeamMap (players gs)).
  set (b1 := forCells n resetStep b0).
  set (b2 := forCells n (statusStep n (activeGridSize gs) m) b1).
  assert (Hc1 : ∀ r c, cardAt b1 r c
            = if decide (r < n ∧ c < n)%nat then resetCard <$> cardAt b0 r c
              else cardAt b0 r c).
  { intros r' c'. unfold b1.
    apply (forCells_cardAt resetStep (λ _ _ _, resetCard)).
    - apply resetStep_cardAt.
    - intros; apply view_resetCard.
    - done. }
  assert (Hv1 : sameView b1 b0).
  { unfold b1.
    apply (forCells_sameView resetStep (λ _ _ _, resetCard)).
    - apply resetStep_cardAt.
    - intros; apply view_resetCard.
    - done. }
  assert (Hc2 : ∀ r c, cardAt b2 r c
            = if decide (r < n ∧ c < n)%nat
              then deriveStatus n (activeGridSize gs) m b0 r c
                   <$> cardAt b1 r c
              else cardAt b1 r c).
  { intros r' c'. unfold b2.
    rewrite (forCells_cardAt _ (deriveStatus n (activeGridSize gs) m)).
    - case_decide; [|done]. apply option_fmap_ext. intros cd.
      by apply deriveStatus_ext.
    - apply statusStep_cardAt.
    - intros; apply view_deriveStatus.
    - intros; by apply deriveStatus_ext. }
  assert (Hv2 : sameView b2 b0).
  { eapply sameView_trans; [|exact Hv1]. unfold b2.
    apply (forCells_sameView _ (deriveStatus n (activeGridSize gs) m)).
    - apply statusStep_cardAt.
    - intros; apply view_deriveStatus.
    - intros; by apply deriveStatus_ext. }
  unfold heroPasses.
  rewrite (applyHeroes_cardAt _ _ bumpPower_other bumpPower_owner).
  rewrite (applyHeroes_cardAt _ _ grantSupport_other grantSupport_owner).
  rewrite !(collectHeroes_ext _ _ b2 b0) by done.
  rewrite Hc2, Hc1. unfold finalCard. fold b0 n m.
  destruct (decide (r < n ∧ c < n)%nat) as [Hin|Hout].
  - by destruct (cardAt b0 r c).
  - destruct (cardAt b0 r c) as [cd|]; simpl; [|done]. f_equal.
    rewrite !applyHits_zero; [done|intros o; by apply lineHits_outside..].
Qed.

(** ** The derived part of a card *)

Definition setDerived (bp : option Z) (st : option (list Status))
    (cd : Card) : Card :=
  mkCard (card_id cd) (baseId cd) (ownerId cd) (isFaceDown cd) (power cd)
    bp st.

Definition pushSt (ty : string) (w : Z) (st : option (list Status))
    : option (list Status) :=
  let l := default [] st in
  Some (if existsb (hasType ty) l then l else l ++ [mkStatus ty w]).

Definition pushAllSt (ops : list (string * Z)) (st : option (list Status))
    : option (list Status) :=
  foldl (λ st op, pushSt op.1 op.2 st) st ops.

Definition pushAcc (acc : list Status) (op : string * Z) : list Status :=
  if existsb (hasType op.1) acc then acc else acc ++ [mkStatus op.1 op.2].

Definition isAutoTy (ty : string) : bool :=
  String.eqb ty "Support" || String.eqb ty "Threat".

Definition notAuto (s : Status) : bool := negb (isAuto s).

Lemma card_eta cd : setDerived (bonusPower cd) (statuses cd) cd = cd.
Proof. by destruct cd. Qed.

Lemma setDerived_setDerived bp st bp' st' cd :
  setDerived bp st (setDerived bp' st' cd) = setDerived bp st cd.
Proof. done. Qed.

Lemma pushStatus_setDerived ty w cd :
  pushStatus ty w cd
  = setDerived (bonusPower cd) (pushSt ty w (statuses cd)) cd.
Proof. done. Qed.

Lemma resetCard_setDerived cd :
  resetCard cd = setDerived None (List.filter notAuto <$> statuses cd) cd.
Proof. done. Qed.

Lemma pushAllSt_app ops1 ops2 st :
  pushAllSt (ops1 ++ ops2) st = pushAllSt ops2 (pushAllSt ops1 st).
Proof. apply foldl_app. Qed.

Lemma hasType_auto_clean ty l :
  isAutoTy ty = true →
  existsb (hasType ty) (List.filter notAuto l) = false.
Proof.
  intros Hty. induction l as [|s l IH]; [done|]. simpl.
  destruct (notAuto s) eqn:Hs; [|done]. simpl. rewrite IH, orb_false_r.
  unfold notAuto, isAuto, isAutoTy, hasType in *.
  destruct (String.eqb_spec ty "Support") as [->|];
    [by destruct (String.eqb (type s) "Support")|].
  destruct (String.eqb_spec ty "Threat") as [->|]; [|done].
  by destruct (String.eqb (type s) "Threat"), (String.eqb (type s) "Support").
Qed.

Lemma filter_notAuto_idem l :
  List.filter notAuto (List.filter notAuto l) = List.filter notAuto l.
Proof.
  induction l as [|s l IH]; [done|]. simpl.
  destruct (notAuto s) eqn:Hs; [|done]. simpl. by rewrite Hs, IH.
Qed.

Lemma filter_notAuto_pushAcc acc op :
  isAutoTy op.1 = true →
  List.filter notAuto (pushAcc acc op) = List.filter notAuto acc.
Proof.
  intros Hty. unfold pushAcc. destruct (existsb _ acc); [done|].
  rewrite List.filter_app. simpl.
  unfold notAuto at 2, isAuto, hasType. simpl.
  unfold isAutoTy in Hty. rewrite Hty. simpl. by rewrite app_nil_r.
Qed.

Lemma filter_notAuto_foldl acc ops :
  Forall (λ op, isAutoTy op.1 = true) ops →
  List.filter notAuto (foldl pushAcc acc ops) = List.filter notAuto acc.
Proof.
  intros Hops. revert acc.
  induction Hops as [|op ops Hop _ IH]; intros acc; simpl; [done|].
  by rewrite IH, filter_notAuto_pushAcc.
Qed.

(** On a list without derived statuses the pushes only see what was
    pushed before. *)
Lemma pushAllSt_clean l acc ops :
  Forall (λ op, isAutoTy op.1 = true) ops →
  pushAllSt ops (Some (List.filter notAuto l ++ acc))
  = Some (List.filter notAuto l ++ foldl pushAcc acc ops).
Proof.
  intros Hops. revert acc.
  induction Hops as [|op ops Hop _ IH]; intros acc; simpl; [done|].
  unfold pushSt. simpl.
  rewrite existsb_app, hasType_auto_clean by done. simpl.
  replace (if existsb (hasType op.1) acc
           then List.filter notAuto l ++ acc
           else (List.filter notAuto l ++ acc) ++ [mkStatus op.1 op.2])
    with (List.filter notAuto l ++ pushAcc acc op).
  - apply IH.
  - unfold pushAcc. destruct (existsb _ acc); [done|]. by rewrite app_assoc.
Qed.

Lemma pushAllSt_idem ops st :
  Forall (λ op, isAutoTy op.1 = true) ops →
  pushAllSt ops
    (List.filter notAuto <$> pushAllSt ops (List.filter notAuto <$> st))
  = pushAllSt ops (List.filter notAuto <$> st).
Proof.
  intros Hops. destruct ops as [|op ops].
  { simpl. destruct st as [l|]; simpl; [|done]. by rewrite filter_notAuto_idem. }
  set (l := default [] st).
  assert (Hstart : pushAllSt (op :: ops) (List.filter notAuto <$> st)
                   = pushAllSt (op :: ops) (Some (List.filter notAuto l ++ []))).
  { rewrite app_nil_r. unfold l. by destruct st. }
  rewrite Hstart, pushAllSt_clean by done.
  cbn [fmap option_fmap option_map].
  rewrite List.filter_app, filter_notAuto_idem, filter_notAuto_foldl by done.
  cbn [List.filter]. by rewrite pushAllSt_clean.
Qed.

(** The statuses pass 2 tries to push on a card, in order. *)
Definition opsD (n : nat) (a : Z) (m : gmap Z (option Z)) (b : Board)
    (r c : nat) (cd : Card) : list (string * Z) :=
  match ownerId cd with
  | None => []
  | Some owner =>
      if isFaceDown cd then []
      else
        let sc := scanNeighbors n m b owner r c in
        (if hasFriendlyNeighbor sc then [("Support"%string, owner)] else [])
        ++ match threateningPlayerId n a (enemyNeighborsByPlayer sc) r c with
           | Some t => [("Threat"%string, t)]
           | None => []
           end
  end.

(** The statuses the Reverend loop tries to push on a card. *)
Definition opsR (hits : Z → nat) (cd : Card) : list (string * Z) :=
  match ownerId cd with
  | Some o =>
      if isFaceDown cd then [] else replicate (hits o) ("Support"%string, o)
  | None => []
  end.

(** How often the Mr. Pearl loop bumps the bonus power of a card. *)
Definition bonusHits (hits : Z → nat) (cd : Card) : nat :=
  match ownerId cd with
  | Some o =>
      if negb (isFaceDown cd)
         && negb (bool_decide (baseId cd = Some HERO_MR_PEARL_ID))
      then hits o else 0%nat
  | None => 0%nat
  end.

Definition bumpBonus (k : nat) (bp : option Z) : option Z :=
  Nat.iter k (λ bp, Some (default 0 bp + 1)) bp.

Lemma deriveStatus_setDerived n a m b r c cd :
  deriveStatus n a m b r c cd
  = setDerived (bonusPower cd)
      (pushAllSt (opsD n a m b r c cd) (statuses cd)) cd.
Proof.
  unfold deriveStatus, opsD.
  destruct (ownerId cd) as [o|]; [|by rewrite card_eta].
  destruct (isFaceDown cd); [by rewrite card_eta|].
  destruct (hasFriendlyNeighbor _), (threateningPlayerId _ _ _ _ _);
    simpl; by rewrite ?card_eta.
Qed.

Lemma applyHits_grantSupport hits cd :
  applyHits hits grantSupport cd
  = setDerived (bonusPower cd) (pushAllSt (opsR hits cd) (statuses cd)) cd.
Proof.
  unfold applyHits, opsR.
  destruct (ownerId cd) as [o|] eqn:Ho; [|by rewrite card_eta].
  destruct (isFaceDown cd) eqn:Hf.
  - simpl. rewrite card_eta.
    induction (hits o) as [|k IH]; simpl; [done|]. rewrite IH.
    unfold grantSupport. by rewrite Hf, andb_false_r.
  - induction (hits o) as [|k IH]; [by rewrite card_eta|].
    rewrite replicate_S_end, pushAllSt_app. cbn [Nat.iter nat_rect].
    unfold Nat.iter in IH. rewrite IH. unfold grantSupport. simpl.
    by rewrite (bool_decide_eq_true_2 _ Ho), Hf.
Qed.

Lemma applyHits_bumpPower hits cd :
  applyHits hits bumpPower cd
  = setDerived (bumpBonus (bonusHits hits cd) (bonusPower cd))
      (statuses cd) cd.
Proof.
  unfold applyHits, bonusHits, bumpBonus.
  destruct (ownerId cd) as [o|] eqn:Ho; [|simpl; by rewrite card_eta].
  destruct (negb (isFaceDown cd) && negb (bool_decide _)) eqn:Hc.
  - induction (hits o) as [|k IH]; simpl; [by rewrite card_eta|].
    rewrite IH. unfold bumpPower. simpl.
    by rewrite (bool_decide_eq_true_2 _ Ho), andb_true_l, Hc.
  - simpl. rewrite card_eta.
    induction (hits o) as [|k IH]; simpl; [done|]. rewrite IH.
    unfold bumpPower.
    by rewrite (bool_decide_eq_true_2 _ Ho), andb_true_l, Hc.
Qed.

Definition finalOps (gs : GameState) (r c : nat) (cd : Card)
    : list (string * Z) :=
  let b := board gs in
  let n := length b in
  opsD n (activeGridSize gs) (playerTeamMap (players gs)) b r c cd
  ++ opsR (lineHits n ∅ ∅ (collectHeroes HERO_REVEREND_ID n b) r c) cd.

Definition finalBonus (gs : GameState) (r c : nat) (cd : Card) : option Z :=
  let b := board gs in
  let n := length b in
  bumpBonus
    (bonusHits (lineHits n ∅ ∅ (collectHeroes HERO_MR_PEARL_ID n b) r c) cd)
    None.

Lemma finalCard_inside gs r c cd :
  (r < length (board gs))%nat → (c < length (board gs))%nat →
  finalCard gs r c cd
  = setDerived (finalBonus gs r c cd)
      (pushAllSt (finalOps gs r c cd) (List.filter notAuto <$> statuses cd))
      cd.
Proof.
  intros Hr Hc. unfold finalCard, finalBonus, finalOps.
  rewrite decide_True by done. cbv zeta.
  rewrite applyHits_bumpPower, applyHits_grantSupport.
  rewrite deriveStatus_setDerived, resetCard_setDerived.
  by rewrite pushAllSt_app.
Qed.

Lemma finalCard_outside gs r c cd :
  ¬ (r < length (board gs) ∧ c < length (board gs))%nat →
  finalCard gs r c cd = cd.
Proof. intros H. unfold finalCard. by rewrite decide_False. Qed.

Lemma finalOps_auto gs r c cd :
  Forall (λ op, isAutoTy op.1 = true) (finalOps gs r c cd).
Proof.
  unfold finalOps, opsD, opsR. apply Forall_app. split.
  - destruct (ownerId cd); [|done]. destruct (isFaceDown cd); [done|].
    apply Forall_app. split.
    + destruct (hasFriendlyNeighbor _); by repeat constructor.
    + destruct (threateningPlayerId _ _ _ _ _); by repeat constructor.
  - destruct (ownerId cd); [|done]. destruct (isFaceDown cd); [done|].
    by apply Forall_replicate.
Qed.

Lemma view_finalCard gs r c cd : view (finalCard gs r c cd) = view cd.
Proof.
  unfold finalCard. case_decide; [|done]. cbv zeta.
  rewrite !view_applyHits, view_deriveStatus, view_resetCard;
    [done|apply view_grantSupport|apply view_bumpPower].
Qed.

(** Recomputing a recomputed card changes nothing. *)
Lemma finalCard_idem gs r c cd :
  finalCard gs r c (finalCard gs r c cd) = finalCard gs r c cd.
Proof.
  destruct (decide (r < length (board gs) ∧ c < length (board gs))%nat)
    as [[Hr Hc]|Hout].
  - rewrite !finalCard_inside by done.
    rewrite setDerived_setDerived. cbn [statuses setDerived].
    change (finalOps gs r c (setDerived ?bp ?st cd)) with (finalOps gs r c cd).
    change (finalBonus gs r c (setDerived ?bp ?st cd))
      with (finalBonus gs r c cd).
    by rewrite pushAllSt_idem by apply finalOps_auto.
  - by rewrite !finalCard_outside.
Qed.

(** ** Which derived statuses a recomputed card carries *)

Lemma hasType_true ty s : hasType ty s = true ↔ type s = ty.
Proof. unfold hasType. by rewrite String.eqb_eq. Qed.

Lemma notAuto_type ty s : isAutoTy ty = true → notAuto s = true → type s ≠ ty.
Proof.
  unfold isAutoTy, notAuto, isAuto, hasType. intros Hty Hs <-.
  by rewrite Hty in Hs.
Qed.

Section pushed.
Variables (ty : string) (w : Z).

Definition onlyBy (l : list Status) : Prop :=
  ∀ s, s ∈ l → type s = ty → addedByPlayerId s = w.

Lemma pushAcc_onlyBy acc op :
  (op.1 = ty → op.2 = w) → onlyBy acc → onlyBy (pushAcc acc op).
Proof.
  intros Hop Hacc. unfold pushAcc. destruct (existsb _ acc); [done|].
  intros s [Hs| ->%list_elem_of_singleton]%elem_of_app; simpl; auto.
Qed.

Lemma pushAcc_mono acc op s : s ∈ acc → s ∈ pushAcc acc op.
Proof.
  intros Hs. unfold pushAcc. destruct (existsb _ acc); [done|].
  apply elem_of_app. by left.
Qed.

Lemma pushAcc_here acc : onlyBy acc → mkStatus ty w ∈ pushAcc acc (ty, w).
Proof.
  intros Hacc. unfold pushAcc. simpl.
  destruct (existsb (hasType ty) acc) eqn:He.
  - apply existsb_exists in He as (s & Hin & Hs).
    apply list_elem_of_In in Hin. apply hasType_true in Hs.
    pose proof (Hacc s Hin Hs) as Hw.
    destruct s as [ty' w']; simpl in *. by subst.
  - apply elem_of_app. right. apply list_elem_of_here.
Qed.

Lemma foldl_pushAcc_onlyBy ops acc :
  (∀ op, op ∈ ops → op.1 = ty → op.2 = w) → onlyBy acc →
  onlyBy (foldl pushAcc acc ops).
Proof.
  revert acc. induction ops as [|op ops IH]; intros acc Hops Hacc; [done|].
  simpl. apply IH.
  - intros op' Hin. apply Hops. by apply list_elem_of_further.
  - apply pushAcc_onlyBy; [|done]. apply Hops, list_elem_of_here.
Qed.

Lemma foldl_pushAcc_mono ops acc s :
  s ∈ acc → s ∈ foldl pushAcc acc ops.
Proof.
  revert acc. induction ops as [|op ops IH]; intros acc Hs; [done|].
  simpl. by apply IH, pushAcc_mono.
Qed.

Lemma foldl_pushAcc_elem ops acc :
  (∀ op, op ∈ ops → op.1 = ty → op.2 = w) → onlyBy acc →
  (ty, w) ∈ ops → mkStatus ty w ∈ foldl pushAcc acc ops.
Proof.
  revert acc. induction ops as [|op ops IH]; intros acc Hops Hacc Hin.
  { by apply elem_of_nil in Hin. }
  simpl. apply elem_of_cons in Hin as [<-|Hin].
  - by apply foldl_pushAcc_mono, pushAcc_here.
  - apply IH; [|apply pushAcc_onlyBy|]; try done.
    + intros op' Hin'. apply Hops. by apply list_elem_of_further.
    + apply Hops, list_elem_of_here.
Qed.

(** After the pushes [ops] on a reset card: every pushed type is
    present, attributed to the player it was pushed for. *)
Lemma pushAllSt_elem ops st :
  Forall (λ op, isAutoTy op.1 = true) ops →
  (∀ op, op ∈ ops → op.1 = ty → op.2 = w) →
  (ty, w) ∈ ops →
  ∃ l, pushAllSt ops (List.filter notAuto <$> st) = Some l
       ∧ mkStatus ty w ∈ l ∧ onlyBy l.
Proof.
  intros Hauto Hops Hin.
  assert (Hty : isAutoTy ty = true).
  { rewrite Forall_forall in Hauto. apply (Hauto _ Hin). }
  exists (List.filter notAuto (default [] st) ++ foldl pushAcc [] ops).
  split; [|split].
  - rewrite <- pushAllSt_clean by done. rewrite app_nil_r.
    destruct ops as [|op ops]; [by apply elem_of_nil in Hin|].
    by destruct st.
  - apply elem_of_app. right. apply foldl_pushAcc_elem; try done.
    intros s Hs. by apply elem_of_nil in Hs.
  - intros s [Hs|Hs]%elem_of_app.
    + apply list_elem_of_In, List.filter_In in Hs as [_ Hs].
      intros E. by destruct (notAuto_type ty s).
    + revert s Hs. apply foldl_pushAcc_onlyBy; [done|].
      intros s Hs. by apply elem_of_nil in Hs.
Qed.
End pushed.

(** ** The enemy neighbors of a cell *)

(** The owner of the card at [pos] when that card counts as an enemy
    neighbor of a card of [owner]: inside the grid, owned, face-up, not
    stunned, and not friendly. *)
Definition enemyAt (n : nat) (m : gmap Z (option Z)) (b : Board)
    (owner : Z) (pos : Z * Z) : option Z :=
  if (0 <=? pos.1) && (pos.1 <? Z.of_nat n)
     && (0 <=? pos.2) && (pos.2 <? Z.of_nat n)
  then
    cd ← cardAt b (Z.to_nat pos.1) (Z.to_nat pos.2);
    q ← ownerId cd;
    if negb (isFaceDown cd) && negb (someStatus "Stun" cd)
       && negb (isFriendly m owner q)
    then Some q else None
  else None.

(** The owners of the enemy neighbors of cell [(r, c)], in the order the
    neighbors are scanned: up, down, left, right. *)
Definition enemyOwners (n : nat) (m : gmap Z (option Z)) (b : Board)
    (owner : Z) (r c : nat) : list Z :=
  omap (enemyAt n m b owner) (neighborsPos r c).

Definition addEnemy (n : nat) (m : gmap Z (option Z)) (b : Board)
    (owner : Z) (e : JsObject.t (list (Z * Z))) (pos : Z * Z)
    : JsObject.t (list (Z * Z)) :=
  match enemyAt n m b owner pos with
  | Some q => pushEnemy q pos e
  | None => e
  end.

Lemma scanNeighbor_enemies n m b owner acc pos :
  enemyNeighborsByPlayer (scanNeighbor n m b owner acc pos)
  = addEnemy n m b owner (enemyNeighborsByPlayer acc) pos.
Proof.
  unfold scanNeighbor, addEnemy, enemyAt. destruct pos as [nr nc]. simpl.
  destruct (_ && _); [|done].
  destruct (cardAt b _ _) as [cd|]; simpl; [|done].
  destruct (ownerId cd) as [q|]; simpl; [|done].
  destruct (negb (isFaceDown cd) && negb (someStatus "Stun" cd)); simpl;
    [|done].
  by destruct (isFriendly m owner q).
Qed.

Lemma scanNeighbors_enemies n m b owner r c :
  enemyNeighborsByPlayer (scanNeighbors n m b owner r c)
  = foldl (addEnemy n m b owner) JsObject.empty (neighborsPos r c).
Proof.
  unfold scanNeighbors.
  change JsObject.empty
    with (enemyNeighborsByPlayer (mkScan JsObject.empty false)) at 2.
  generalize (mkScan JsObject.empty false).
  induction (neighborsPos r c) as [|p ps IH]; intros acc; simpl; [done|].
  by rewrite IH, scanNeighbor_enemies.
Qed.

Section enemies.
Import JsObject JsObjectFacts.
Implicit Types (e : list (Z * list (Z * Z))).

Lemma elem_of_keys_pushEnemy q pos e k :
  k ∈ keys (pushEnemy q pos e) ↔ k = q ∨ k ∈ keys e.
Proof.
  unfold pushEnemy. rewrite elem_of_keys_set.
  destruct (get e q); [done|]. rewrite elem_of_keys_set. tauto.
Qed.

Lemma minHead_pushEnemy q pos e :
  isArrayIndex q = true →
  Forall (λ k, isArrayIndex k = true) (keys e) →
  minHead e → minHead (pushEnemy q pos e).
Proof.
  intros Hq Hidx Hmin. unfold pushEnemy.
  destruct (get e q); [by apply minHead_set|].
  apply minHead_set; [done| |by apply minHead_set].
  apply Forall_forall. intros k [->|Hk]%elem_of_keys_set; [done|].
  rewrite Forall_forall in Hidx. by apply Hidx.
Qed.

Definition occurrences (q : Z) (l : list Z) : nat :=
  length (List.filter (Z.eqb q) l).

Lemma Forall_pushEnemy (seen : list Z) q pos e :
  Forall (λ kv, (length kv.2 ≤ occurrences kv.1 seen)%nat) e →
  Forall (λ kv, (length kv.2 ≤ occurrences kv.1 (seen ++ [q]))%nat)
    (pushEnemy q pos e).
Proof.
  intros He.
  assert (Hmono : ∀ k, (occurrences k seen ≤ occurrences k (seen ++ [q]))%nat).
  { intros k. unfold occurrences. rewrite List.filter_app, length_app. lia. }
  assert (Hq : occurrences q (seen ++ [q]) = S (occurrences q seen)).
  { unfold occurrences. rewrite List.filter_app, length_app. simpl.
    rewrite Z.eqb_refl. simpl. lia. }
  assert (He' : Forall (λ kv, (length kv.2
                               ≤ occurrences kv.1 (seen ++ [q]))%nat) e).
  { eapply Forall_impl; [exact He|]. intros [k l] H. simpl in *.
    specialize (Hmono k). lia. }
  unfold pushEnemy. destruct (get e q) as [l|] eqn:Hg.
  - rewrite Hg. simpl. apply Forall_set; [|done]. simpl.
    apply get_Some_elem in Hg. rewrite Forall_forall in He.
    specialize (He _ Hg). simpl in He. rewrite length_app. simpl. lia.
  - rewrite get_set, decide_True by done. simpl.
    apply Forall_set; [simpl; lia|]. apply Forall_set; [simpl; lia|done].
Qed.

Lemma enemies_invariant n m b owner ps :
  let e := foldl (addEnemy n m b owner) empty ps in
  let seen := omap (enemyAt n m b owner) ps in
  (∀ k, k ∈ keys e ↔ k ∈ seen)
  ∧ (Forall (λ k, isArrayIndex k = true) seen → minHead e)
  ∧ Forall (λ kv, (length kv.2 ≤ occurrences kv.1 seen)%nat) e.
Proof.
  induction ps as [|p ps IH] using rev_ind; simpl.
  { split; [|split]; [done|intros _; apply minHead_empty|constructor]. }
  rewrite foldl_app, omap_app. simpl.
  destruct IH as (Hkeys & Hmin & Hall).
  assert (Hadd : ∀ e, addEnemy n m b owner e p
            = match enemyAt n m b owner p with
              | Some q => pushEnemy q p e
              | None => e
              end) by done.
  rewrite !Hadd. clear Hadd.
  destruct (enemyAt n m b owner p) as [q|]; simpl.
  - split; [|split].
    + intros k. rewrite elem_of_keys_pushEnemy, elem_of_app, Hkeys.
      rewrite list_elem_of_singleton. tauto.
    + intros [Hidx Hq]%Forall_app. apply Forall_cons in Hq as [Hq _].
      apply minHead_pushEnemy; [done| |by apply Hmin].
      apply Forall_forall. intros k Hk%Hkeys.
      rewrite Forall_forall in Hidx. by apply Hidx.
    + by apply Forall_pushEnemy.
  - by rewrite app_nil_r.
Qed.

Lemma occurrences_NoDup q (l : list Z) :
  NoDup l → (occurrences q l ≤ 1)%nat.
Proof.
  unfold occurrences. induction 1 as [|x l Hx Hl IH]; simpl; [lia|].
  destruct (Z.eqb_spec q x) as [->|]; [|done]. simpl.
  cut (List.filter (Z.eqb x) l = []); [intros ->; simpl; lia|].
  clear -Hx. induction l as [|y l IH]; simpl; [done|].
  destruct (Z.eqb_spec x y) as [->|].
  - destruct Hx. apply list_elem_of_here.
  - apply IH. intros H. apply Hx. by apply list_elem_of_further.
Qed.

Lemma pinnedBy_None e (seen : list Z) :
  NoDup seen →
  Forall (λ kv, (length kv.2 ≤ occurrences kv.1 seen)%nat) e →
  pinnedBy e = None.
Proof.
  intros Hnd He. unfold pinnedBy, entries.
  induction He as [|[k l] e Hk He IH]; [done|].
  pose proof (occurrences_NoDup k seen Hnd). simpl in Hk.
  cbn [List.find snd].
  destruct (Nat.leb_spec 2 (length l)); [lia|]. apply IH.
Qed.
End enemies.

(** ** Recomputing twice *)

(** The game state whose board was replaced by [b]. *)
Definition withBoard (gs : GameState) (b : Board) : GameState :=
  mkGameState b (players gs) (activeGridSize gs) (currentPhase gs)
    (activePlayerId gs) (startingPlayerId gs) (currentRound gs)
    (turnNumber gs) (roundWinners gs) (gameWinner gs) (isGameStarted gs)
    (isReadyCheckActive gs) (isRoundEndModalOpen gs) (roundEndTriggered gs)
    (autoAbilitiesEnabled gs) (autoDrawnPlayers gs).

Lemma forallb_rows_shape n (b : Board) :
  forallb (λ row, (n <=? length row)%nat) b
  = forallb (λ k, (n <=? k)%nat) (shape b).
Proof. induction b as [|row b IH]; simpl; [done|]. by rewrite IH. Qed.

Lemma rowsCoverGrid_shape b b' :
  shape b = shape b' → rowsCoverGrid b = rowsCoverGrid b'.
Proof.
  intros Hs. unfold rowsCoverGrid.
  by rewrite !forallb_rows_shape, (shape_length _ _ Hs), Hs.
Qed.

Lemma finalCard_ext gs b' r c cd :
  length b' = length (board gs) → sameView b' (board gs) →
  finalCard (withBoard gs b') r c cd = finalCard gs r c cd.
Proof.
  intros Hlen Hv. unfold finalCard. simpl. rewrite Hlen.
  case_decide; [|done].
  rewrite !(collectHeroes_ext _ _ b' (board gs)) by done.
  by rewrite (deriveStatus_ext _ _ _ b' (board gs)).
Qed.

Lemma recalculateBoardStatuses_sameView gs b' :
  recalculateBoardStatuses gs = Some b' → sameView b' (board gs).
Proof.
  intros H r c. rewrite (recalculateBoardStatuses_cardAt _ _ _ _ H).
  destruct (cardAt (board gs) r c); simpl; [|done].
  by rewrite view_finalCard.
Qed.

End BoardFacts.

(** * Properties of the turn machine *)
Module SessionFacts.
Import JsValue PhaseManagement ReadyCheck Session.

(** ** Finding and updating a player *)

Lemma updateFound_fmap {A} (g : Player → A) n f ps :
  (∀ p, g (f p) = g p) → g <$> updateFound n f ps = g <$> ps.
Proof.
  intros Hf. induction ps as [|p ps IH]; [done|]. cbn [updateFound].
  destruct (player_id p =? n); rewrite !fmap_cons; [by rewrite Hf|by rewrite IH].
Qed.

Lemma updateFound_length n f ps : length (updateFound n f ps) = length ps.
Proof.
  induction ps as [|p ps IH]; simpl; [done|].
  destruct (player_id p =? n); simpl; by rewrite ?IH.
Qed.

Lemma findPlayer_Some pid ps p :
  findPlayer pid ps = Some p → pid = num (player_id p) ∧ p ∈ ps.
Proof.
  destruct pid as [| |n]; simpl; try done.
  intros H. apply List.find_some in H as [Hin Hid].
  apply Z.eqb_eq in Hid. subst n. split; [done|]. by apply list_elem_of_In.
Qed.

Lemma findPlayer_updateFound n f ps :
  (∀ p, player_id (f p) = player_id p) →
  findPlayer (num n) (updateFound n f ps) = f <$> findPlayer (num n) ps.
Proof.
  intros Hf. induction ps as [|p ps IH]; simpl; [done|].
  destruct (player_id p =? n) eqn:E; simpl.
  - by rewrite Hf, E.
  - by rewrite E.
Qed.

Lemma findPlayer_updateFound_ne n k f ps :
  (∀ p, player_id (f p) = player_id p) → n ≠ k →
  findPlayer (num k) (updateFound n f ps) = findPlayer (num k) ps.
Proof.
  intros Hf Hne. induction ps as [|p ps IH]; simpl; [done|].
  destruct (Z.eqb_spec (player_id p) n) as [E|E]; simpl.
  - rewrite Hf. destruct (Z.eqb_spec (player_id p) k); [lia|done].
  - destruct (player_id p =? k); [done|apply IH].
Qed.

Lemma updateFound_lookup_ne n f ps i q :
  ps !! i = Some q → player_id q ≠ n → updateFound n f ps !! i = Some q.
Proof.
  revert i. induction ps as [|p ps IH]; intros i; simpl; [done|].
  destruct (Z.eqb_spec (player_id p) n) as [E|E].
  - destruct i as [|i]; simpl; [|done]. intros [= ->]. done.
  - destruct i as [|i]; simpl; [done|]. apply IH.
Qed.

Lemma updateFound_elem n f ps q :
  q ∈ ps → player_id q ≠ n → q ∈ updateFound n f ps.
Proof.
  intros (i & Hi)%list_elem_of_lookup_1 Hne.
  eapply list_elem_of_lookup_2. by apply updateFound_lookup_ne.
Qed.

(** ** What a player holds *)

(** The cards of a player, in order: the hand followed by the deck. *)
Definition holding (p : Player) : Z * list Card :=
  (player_id p, hand p ++ deck p).

Definition holdings (gs : GameState) : list (Z * list Card) :=
  holding <$> players gs.

Lemma holdings_fmap f gs gs' :
  players gs' = f <$> players gs → (∀ p, holding (f p) = holding p) →
  holdings gs' = holdings gs.
Proof.
  intros Hps Hf. unfold holdings. rewrite Hps, <- list_fmap_compose.
  apply list_fmap_ext. intros _ p _. apply Hf.
Qed.

Lemma drawLoop_holding remaining i p :
  holding (drawLoop remaining i p) = holding p.
Proof.
  revert i p. induction remaining as [|rem IH]; intros i p; simpl; [done|].
  destruct (i <? length (deck p))%nat; [|done].
  destruct (deck p) as [|c rest] eqn:Hd; [done|].
  rewrite IH. unfold holding. simpl. by rewrite Hd, <- app_assoc.
Qed.

Lemma drawStartingHand_holding h p : holding (drawStartingHand h p) = holding p.
Proof.
  unfold drawStartingHand. destruct (_ <? _)%nat; [done|].
  destruct (negb _); [done|]. apply drawLoop_holding.
Qed.

Lemma drawStartingHands_holding ps :
  holding <$> drawStartingHands ps = holding <$> ps.
Proof.
  unfold drawStartingHands. rewrite <- list_fmap_compose.
  apply list_fmap_ext. intros _ p _. apply drawStartingHand_holding.
Qed.

Lemma performDrawPhase_holdings gs :
  holdings (performDrawPhase gs) = holdings gs.
Proof.
  unfold performDrawPhase. case_bool_decide; [done|].
  destruct (findPlayer _ _) as [p|] eqn:Hp; [|done].
  destruct (deck p) as [|c rest] eqn:Hd; [done|]. cbv zeta.
  assert (Hdraw : holdings
                (withPlayers
                   (updateFound (player_id p)
                      (λ q, withHandDeck (hand q ++ [c]) rest q) (players gs))
                   gs) = holdings gs).
  { unfold holdings. cbn [players withPlayers].
    destruct (activePlayerId gs) as [| |n]; try done. cbn [findPlayer] in Hp.
    assert (Hn : player_id p = n).
    { apply List.find_some in Hp as [_ Hn]. by apply Z.eqb_eq. }
    rewrite Hn. clear -Hp Hd. induction (players gs) as [|q ps IH]; [done|].
    cbn [List.find] in Hp. cbn [updateFound].
    destruct (Z.eqb_spec (player_id q) n) as [E|E]; rewrite !fmap_cons.
    - injection Hp as ->. f_equal.
      unfold holding. cbn [player_id hand deck withHandDeck].
      by rewrite Hd, <- app_assoc.
    - f_equal. by apply IH. }
  destruct (shouldDraw _ _), (checkRoundEnd _ _); done.
Qed.

(** ** The shape of the state after the Draw procedure *)

Lemma withPlayers_eta gs : withPlayers (players gs) gs = gs.
Proof. by destruct gs. Qed.

Lemma withPhase_eta gs : withPhase (currentPhase gs) gs = gs.
Proof. by destruct gs. Qed.

(** The Draw procedure changes the players (a card is drawn) and the
    phase, and may end the round; nothing else. *)
Lemma performDrawPhase_eq gs :
  let gs1 := withPhase 0 (withPlayers (players (performDrawPhase gs)) gs) in
  performDrawPhase gs = gs1
  ∨ (checkRoundEnd gs1 false = true ∧ performDrawPhase gs = endRound gs1).
Proof.
  unfold performDrawPhase. case_bool_decide.
  { left. cbn [players withPhase]. by rewrite withPlayers_eta. }
  destruct (findPlayer _ _) as [p|].
  2:{ left. cbn [players withPhase]. by rewrite withPlayers_eta. }
  destruct (deck p) as [|c rest].
  { left. cbn [players withPhase]. by rewrite withPlayers_eta. }
  cbv zeta.
  destruct (shouldDraw _ _).
  - destruct (checkRoundEnd _ _) eqn:Hend; [right|left]; done.
  - destruct (checkRoundEnd _ _) eqn:Hend; [right|left];
      cbn [players withPhase endRound]; rewrite withPlayers_eta; done.
Qed.

Lemma performDrawPhase_players_fmap {A} (g : Player → A) gs :
  (∀ h d p, g (withHandDeck h d p) = g p) →
  g <$> players (performDrawPhase gs) = g <$> players gs.
Proof.
  intros Hg. unfold performDrawPhase. case_bool_decide; [done|].
  destruct (findPlayer _ _) as [p|]; [|done].
  destruct (deck p) as [|c rest]; [done|]. cbv zeta.
  assert (Hdraw : g <$> updateFound (player_id p)
                      (λ q, withHandDeck (hand q ++ [c]) rest q) (players gs)
                  = g <$> players gs).
  { apply updateFound_fmap. intros q. apply Hg. }
  destruct (shouldDraw _ _), (checkRoundEnd _ _); done.
Qed.

(** What the Draw procedure leaves as it was. *)
Lemma performDrawPhase_frame gs :
  board (performDrawPhase gs) = board gs
  ∧ activePlayerId (performDrawPhase gs) = activePlayerId gs
  ∧ startingPlayerId (performDrawPhase gs) = startingPlayerId gs
  ∧ currentRound (performDrawPhase gs) = currentRound gs
  ∧ isGameStarted (performDrawPhase gs) = isGameStarted gs
  ∧ isReadyCheckActive (performDrawPhase gs) = isReadyCheckActive gs
  ∧ autoAbilitiesEnabled (performDrawPhase gs) = autoAbilitiesEnabled gs.
Proof.
  destruct (performDrawPhase_eq gs) as [H|[_ H]]; rewrite H; done.
Qed.

Lemma performDrawPhase_Setup gs : currentPhase (performDrawPhase gs) = 0.
Proof.
  destruct (performDrawPhase_eq gs) as [H|[_ H]]; rewrite H; done.
Qed.

(** With the round-end modal open the Draw procedure ends no round. *)
Lemma performDrawPhase_modal_open gs :
  isRoundEndModalOpen gs = true →
  performDrawPhase gs
  = withPhase 0 (withPlayers (players (performDrawPhase gs)) gs).
Proof.
  intros Hopen. destruct (performDrawPhase_eq gs) as [H|[Hend _]]; [done|].
  unfold checkRoundEnd in Hend. cbn [isGameStarted isRoundEndModalOpen
    withPhase withPlayers] in Hend. rewrite Hopen in Hend.
  by destruct (negb (isGameStarted gs)).
Qed.

(** The players after the Draw procedure. *)
Lemma performDrawPhase_players gs :
  players (performDrawPhase gs)
  = match findPlayer (activePlayerId gs) (players gs) with
    | Some p =>
        match deck p with
        | c :: rest =>
            if shouldDraw (players gs) p
            then updateFound (player_id p)
                   (λ q, withHandDeck (hand q ++ [c]) rest q) (players gs)
            else players gs
        | [] => players gs
        end
    | None => players gs
    end.
Proof.
  unfold performDrawPhase. case_bool_decide as Hnull.
  { by rewrite Hnull. }
  destruct (findPlayer _ _) as [p|]; [|done].
  destruct (deck p) as [|c rest]; [done|]. cbv zeta.
  destruct (shouldDraw _ _), (checkRoundEnd _ _); done.
Qed.

(** ** The outcomes of [handlePlayerReady] *)

(** The players once player [n] is marked ready. *)
Definition readied (n : Z) (gs : GameState) : list Player :=
  updateFound n (withReady true) (players gs).

Definition realPlayers (ps : list Player) : list Player :=
  List.filter (λ p, negb (isDummy p) && negb (isDisconnected p)) ps.

Definition connected (ps : list Player) : list Player :=
  List.filter (λ p, negb (isDisconnected p)) ps.

Definition allReady (ps : list Player) : bool :=
  (0 <? length (realPlayers ps))%nat && forallb isReady (realPlayers ps)
  && (1 <=? length (realPlayers ps))%nat.

(** [allPlayers[randomIndex]] *)
Definition pick (random : Q) (ps : list Player) : option Player :=
  let randomIndex :=
    Qfloor (random * inject_Z (Z.of_nat (length (connected ps)))) in
  if randomIndex <? 0 then None else connected ps !! Z.to_nat randomIndex.

(** The state in which the Draw procedure is called at the start. *)
Definition kickoff (gs : GameState) (n : Z) (first : Player) : GameState :=
  mkGameState (board gs) (drawStartingHands (readied n gs))
    (activeGridSize gs) (-1)
    (num (player_id first)) (num (player_id first)) (currentRound gs)
    (turnNumber gs) (roundWinners gs) (gameWinner gs) true
    false (isRoundEndModalOpen gs) (roundEndTriggered gs)
    (autoAbilitiesEnabled gs) [].

(** The state left behind when the choice of the starting player throws. *)
Definition stalled (gs : GameState) (n : Z) : GameState :=
  mkGameState (board gs) (readied n gs) (activeGridSize gs)
    (currentPhase gs) (activePlayerId gs)
    (startingPlayerId gs) (currentRound gs)
    (turnNumber gs) (roundWinners gs) (gameWinner gs)
    true false (isRoundEndModalOpen gs)
    (roundEndTriggered gs) (autoAbilitiesEnabled gs)
    [].

Lemma handlePlayerReady_found random gs n me :
  isReadyCheckActive gs = true → isGameStarted gs = false → n ≠ 0 →
  findPlayer (num n) (players gs) = Some me →
  handlePlayerReady random (Some gs) (num n)
  = if allReady (readied n gs) then
      match pick random (readied n gs) with
      | Some first =>
          (Some (performDrawPhase (kickoff gs n first)),
           [Broadcast (performDrawPhase (kickoff gs n first))])
      | None => (Some (stalled gs n), [ERROR "Failed to mark player as ready"])
      end
    else (Some (withPlayers (readied n gs) gs),
          [Broadcast (withPlayers (readied n gs) gs)]).
Proof.
  intros Hact Hst Hn Hme. unfold handlePlayerReady.
  rewrite Hact, Hst. cbn [negb falsy].
  destruct (Z.eqb_spec n 0) as [|_]; [done|].
  rewrite Hme. reflexivity.
Qed.

(** Whatever holds of the four outcomes holds of the state the handler
    leaves behind. *)
Lemma handlePlayerReady_outcome (P : GameState → Prop) random gs playerId :
  P gs →
  (∀ n me,
     isReadyCheckActive gs = true → isGameStarted gs = false →
     playerId = num n → findPlayer (num n) (players gs) = Some me →
     (allReady (readied n gs) = false → P (withPlayers (readied n gs) gs))
     ∧ (allReady (readied n gs) = true →
        (pick random (readied n gs) = None → P (stalled gs n))
        ∧ ∀ first, pick random (readied n gs) = Some first →
                   P (performDrawPhase (kickoff gs n first)))) →
  ∀ gs' evs, handlePlayerReady random (Some gs) playerId = (Some gs', evs) →
  P gs'.
Proof.
  intros Hgs Hfound gs' evs.
  destruct (isReadyCheckActive gs) eqn:Hact.
  2:{ unfold handlePlayerReady. rewrite Hact. by intros [= <- _]. }
  destruct (isGameStarted gs) eqn:Hst.
  { unfold handlePlayerReady. rewrite Hact, Hst. by intros [= <- _]. }
  destruct (falsy playerId) eqn:Hf.
  { unfold handlePlayerReady. rewrite Hact, Hst, Hf. by intros [= <- _]. }
  destruct playerId as [| |n]; try done.
  destruct (findPlayer (num n) (players gs)) as [me|] eqn:Hme.
  2:{ unfold handlePlayerReady. rewrite Hact, Hst, Hf, Hme. by intros [= <- _]. }
  assert (Hn : n ≠ 0).
  { intros ->. done. }
  rewrite (handlePlayerReady_found _ _ _ _ Hact Hst Hn Hme).
  destruct (Hfound n me eq_refl eq_refl eq_refl Hme) as [Hno Hyes].
  destruct (allReady _).
  - destruct (Hyes eq_refl) as [Hnone Hsome].
    destruct (pick _ _) as [first|].
    + intros [= <- _]. by apply Hsome.
    + intros [= <- _]. by apply Hnone.
  - intros [= <- _]. by apply Hno.
Qed.

End SessionFacts.

(** * Properties of the round-end resolution *)
Module RoundFacts.
Import JsObject JsObjectFacts PhaseManagement.

(** ** Objects whose keys are player ids *)

Section objects.
Context {V : Type}.
Implicit Types (o : list (Z * V)) (k : Z) (v : V).

Lemma get_None_keys o k : get o k = None ↔ k ∉ keys o.
Proof.
  induction o as [|[k' v'] o IH]; simpl.
  - split; [intros _; apply not_elem_of_nil|done].
  - destruct (Z.eqb_spec k' k) as [->|Hne].
    + split; [done|]. intros H. destruct H. apply list_elem_of_here.
    + rewrite IH, not_elem_of_cons. naive_solver.
Qed.

Lemma elem_of_get o k v : NoDup (keys o) → (k, v) ∈ o → get o k = Some v.
Proof.
  induction o as [|[k' v'] o IH]; simpl; intros Hnd Hin.
  { by apply elem_of_nil in Hin. }
  apply NoDup_cons in Hnd as [Hk' Hnd].
  apply elem_of_cons in Hin as [[= -> ->]|Hin].
  - by rewrite Z.eqb_refl.
  - destruct (Z.eqb_spec k' k) as [->|Hne]; [|by apply IH].
    destruct Hk'. unfold keys. apply list_elem_of_fmap. by exists (k, v).
Qed.

(** Keys that are array indices and enumerated in ascending order. *)
Definition ascending o : Prop :=
  Forall (λ k, isArrayIndex k = true) (keys o)
  ∧ StronglySorted Z.lt (keys o).

Lemma ascending_NoDup o : ascending o → NoDup (keys o).
Proof.
  intros [_ Hs]. induction Hs as [|k ks Hs IH Hk]; constructor; [|done].
  intros Hin. rewrite Forall_forall in Hk. specialize (Hk _ Hin). lia.
Qed.

Lemma ascending_update k v o : ascending o → ascending (update k v o).
Proof. unfold ascending. by rewrite keys_update. Qed.

Lemma ascending_insertNew k v o :
  isArrayIndex k = true → k ∉ keys o →
  ascending o → ascending (insertNew k v o).
Proof.
  intros Hk. induction o as [|[k' v'] o IH]; intros Hnotin [Hidx Hs].
  { split; simpl; repeat constructor. done. }
  simpl in *. apply Forall_cons in Hidx as [Hk' Hidx].
  apply StronglySorted_inv in Hs as [Hs Hlt].
  apply not_elem_of_cons in Hnotin as [Hne Hnotin].
  rewrite Hk, Hk'. simpl.
  destruct (Z.ltb_spec k k') as [Hlt'|Hge]; simpl.
  - split; [by repeat constructor|].
    constructor; [by constructor|]. constructor; [done|].
    eapply Forall_impl; [exact Hlt|]. simpl. lia.
  - destruct (IH Hnotin (conj Hidx Hs)) as [Hidx' Hs'].
    split; [by constructor|]. constructor; [done|].
    change (Forall (Z.lt k') (keys (insertNew k v o))).
    apply Forall_forall. intros x [->|Hx]%elem_of_keys_insertNew; [lia|].
    rewrite Forall_forall in Hlt. by apply Hlt.
Qed.

Lemma ascending_set k v o :
  isArrayIndex k = true → ascending o → ascending (set k v o).
Proof.
  intros Hk Ho. unfold set. destruct (get o k) eqn:Hg.
  - by apply ascending_update.
  - apply ascending_insertNew; [done| |done]. by apply get_None_keys.
Qed.

Lemma NoDup_keys_insertNew k v o :
  k ∉ keys o → NoDup (keys o) → NoDup (keys (insertNew k v o)).
Proof.
  induction o as [|[k' v'] o IH]; intros Hnotin Hnd; simpl.
  { apply NoDup_singleton. }
  simpl in *. apply not_elem_of_cons in Hnotin as [Hne Hnotin].
  apply NoDup_cons in Hnd as [Hk' Hnd].
  destruct (_ && _); simpl.
  - constructor; [|by constructor].
    rewrite not_elem_of_cons. done.
  - constructor; [|by apply IH].
    rewrite elem_of_keys_insertNew. intros [?|?]; congruence.
Qed.

Lemma NoDup_keys_set k v o : NoDup (keys o) → NoDup (keys (set k v o)).
Proof.
  intros Hnd. unfold set. destruct (get o k) eqn:Hg.
  - by rewrite keys_update.
  - apply NoDup_keys_insertNew; [|done]. by apply get_None_keys.
Qed.

(** The first entry that passes a test, in an ascending object: no entry
    with a smaller key passes. *)
Lemma find_ascending (f : Z * V → bool) o k v :
  StronglySorted Z.lt (keys o) →
  List.find f o = Some (k, v) →
  (k, v) ∈ o ∧ f (k, v) = true
  ∧ ∀ k' v', (k', v') ∈ o → f (k', v') = true → k ≤ k'.
Proof.
  induction o as [|[k1 v1] o IH]; simpl; [done|]. intros Hs.
  apply StronglySorted_inv in Hs as [Hs Hlt].
  destruct (f (k1, v1)) eqn:Hf.
  - intros [= -> ->]. split; [apply list_elem_of_here|]. split; [done|].
    intros k' v' [[= -> ->]|Hin]%elem_of_cons _; [lia|].
    rewrite Forall_forall in Hlt.
    assert (k' ∈ keys o).
    { unfold keys. apply list_elem_of_fmap. by exists (k', v'). }
    specialize (Hlt k' H). lia.
  - intros Hfind. destruct (IH Hs Hfind) as (Hin & Hfk & Hmin).
    split; [by apply list_elem_of_further|]. split; [done|].
    intros k' v' [[= -> ->]|Hin']%elem_of_cons Hf'; [congruence|].
    by eapply Hmin.
Qed.

End objects.

(** ** Counting the round wins *)

(** The number of rounds recorded in [rw] that list player [k] as a
    winner (a list that names the player twice counts twice). *)
Definition roundWins (rw : JsObject.t (list Z)) (k : Z) : Z :=
  Z.of_nat (length (List.filter (Z.eqb k) (concat (values rw)))).

(** [totalWins[winnerId] = (totalWins[winnerId] || 0) + 1] *)
Definition addWin (totalWins : JsObject.t Z) (winnerId : Z) : JsObject.t Z :=
  set winnerId (orZero (default 0 (get totalWins winnerId)) + 1) totalWins.

Lemma countWins_concat rw :
  countWins rw = foldl addWin empty (concat (values rw)).
Proof.
  unfold countWins. generalize (@empty Z).
  induction (values rw) as [|ws wss IH]; intros acc; simpl; [done|].
  by rewrite foldl_app, IH.
Qed.

Definition tally (ws : list Z) (k : Z) : Z :=
  Z.of_nat (length (List.filter (Z.eqb k) ws)).

Lemma tally_snoc ws w k :
  tally (ws ++ [w]) k = tally ws k + (if decide (w = k) then 1 else 0).
Proof.
  unfold tally. rewrite List.filter_app, length_app. simpl.
  destruct (Z.eqb_spec k w) as [->|Hne].
  - rewrite decide_True by done. simpl. lia.
  - rewrite decide_False by done. simpl. lia.
Qed.

Lemma foldl_addWin ws :
  let t := foldl addWin empty ws in
  (∀ k, get t k = if tally ws k =? 0 then None else Some (tally ws k))
  ∧ NoDup (keys t)
  ∧ (Forall (λ w, isArrayIndex w = true) ws → ascending t).
Proof.
  induction ws as [|w ws IH] using rev_ind.
  { simpl. split; [done|]. split; [constructor|].
    intros _. split; constructor. }
  cbv zeta in *. rewrite foldl_app. simpl.
  destruct IH as (Hget & Hnd & Hasc). split; [|split].
  - intros k. unfold addWin. rewrite get_set, tally_snoc.
    assert (Hpos : 0 ≤ tally ws k) by (unfold tally; lia).
    destruct (decide (w = k)) as [->|Hne].
    + rewrite Hget. destruct (Z.eqb_spec (tally ws k) 0) as [E|E].
      * rewrite E. done.
      * simpl. unfold orZero.
        destruct (Z.eqb_spec (tally ws k) 0); [done|].
        destruct (Z.eqb_spec (tally ws k + 1) 0); [lia|done].
    + rewrite Z.add_0_r. apply Hget.
  - by apply NoDup_keys_set.
  - intros [Hws Hw]%Forall_app. apply Forall_cons in Hw as [Hw _].
    apply ascending_set; [done|]. by apply Hasc.
Qed.

Lemma countWins_spec rw :
  (∀ k, get (countWins rw) k
        = if roundWins rw k =? 0 then None else Some (roundWins rw k))
  ∧ NoDup (keys (countWins rw))
  ∧ (Forall (λ w, isArrayIndex w = true) (concat (values rw)) →
     StronglySorted Z.lt (keys (countWins rw))).
Proof.
  rewrite countWins_concat.
  destruct (foldl_addWin (concat (values rw))) as (Hget & Hnd & Hasc).
  split; [exact Hget|]. split; [exact Hnd|].
  intros Hidx. by destruct (Hasc Hidx).
Qed.

(** ** The highest score *)

(** [m] is the highest score among the players: some player has exactly
    [m] points and no player has more. *)
Definition highestScore (gs : GameState) (m : Z) : Prop :=
  (∃ p, p ∈ players gs ∧ score p = m) ∧ ∀ p, p ∈ players gs → score p ≤ m.

(** ** The record of a match *)




End RoundFacts.

(** * The statuses and the bonus of a recomputed card *)
Module StatusFacts.
Import BoardUtils BoardFacts.

(** ** The derived statuses, as a list *)

Lemma pushAllSt_closed ops st :
  Forall (λ op, isAutoTy op.1 = true) ops →
  default [] (pushAllSt ops (List.filter notAuto <$> st))
  = List.filter notAuto (default [] st) ++ foldl pushAcc [] ops.
Proof.
  intros Hops. destruct ops as [|op ops].
  { simpl. rewrite app_nil_r. by destruct st. }
  assert (pushAllSt (op :: ops) (List.filter notAuto <$> st)
          = Some (List.filter notAuto (default [] st)
                  ++ foldl pushAcc [] (op :: ops))) as ->; [|done].
  rewrite <- pushAllSt_clean by done. rewrite app_nil_r. by destruct st.
Qed.

Lemma finalCard_statuses gs r c cd :
  (r < length (board gs))%nat → (c < length (board gs))%nat →
  default [] (statuses (finalCard gs r c cd))
  = List.filter notAuto (default [] (statuses cd))
    ++ foldl pushAcc [] (finalOps gs r c cd).
Proof.
  intros Hr Hc. rewrite finalCard_inside by done. cbn [statuses setDerived].
  apply pushAllSt_closed, finalOps_auto.
Qed.

Lemma elem_of_pushAcc acc op s :
  s ∈ pushAcc acc op → s ∈ acc ∨ s = mkStatus op.1 op.2.
Proof.
  unfold pushAcc. destruct (existsb _ acc); [by left|].
  intros [?| ->%list_elem_of_singleton]%elem_of_app; [by left|by right].
Qed.

Lemma elem_of_foldl_pushAcc ops acc s :
  s ∈ foldl pushAcc acc ops →
  s ∈ acc ∨ (type s, addedByPlayerId s) ∈ ops.
Proof.
  revert acc. induction ops as [|op ops IH]; intros acc; simpl; [by left|].
  intros [[Hs| ->]%elem_of_pushAcc|Hs]%IH.
  - by left.
  - right. destruct op. apply list_elem_of_here.
  - right. by apply list_elem_of_further.
Qed.

Lemma hasType_pushAcc ty acc op :
  existsb (hasType ty) (pushAcc acc op)
  = existsb (hasType ty) acc || String.eqb op.1 ty.
Proof.
  unfold pushAcc. destruct (existsb (hasType op.1) acc) eqn:He.
  - destruct (String.eqb_spec op.1 ty) as [<-|]; [|by rewrite orb_false_r].
    by rewrite He.
  - rewrite existsb_app. simpl. unfold hasType at 2. simpl.
    by rewrite orb_false_r.
Qed.

Lemma hasType_foldl_pushAcc ty ops acc :
  existsb (hasType ty) (foldl pushAcc acc ops)
  = existsb (hasType ty) acc || existsb (λ op, String.eqb op.1 ty) ops.
Proof.
  revert acc. induction ops as [|op ops IH]; intros acc; simpl.
  { by rewrite orb_false_r. }
  by rewrite IH, hasType_pushAcc, orb_assoc.
Qed.

(** How many statuses of type [ty] a list holds. *)
Definition countType (ty : string) (l : list Status) : nat :=
  length (List.filter (hasType ty) l).

Lemma countType_app ty l1 l2 :
  countType ty (l1 ++ l2) = (countType ty l1 + countType ty l2)%nat.
Proof. unfold countType. by rewrite List.filter_app, length_app. Qed.

Lemma countType_zero ty l : existsb (hasType ty) l = false → countType ty l = 0%nat.
Proof.
  unfold countType. induction l as [|s l IH]; simpl; [done|].
  destruct (hasType ty s); simpl; [done|]. apply IH.
Qed.

Lemma countType_pushAcc ty acc op :
  (countType ty acc ≤ 1)%nat → (countType ty (pushAcc acc op) ≤ 1)%nat.
Proof.
  intros Hacc. unfold pushAcc. destruct (existsb (hasType op.1) acc) eqn:He.
  { done. }
  rewrite countType_app. unfold countType at 2. simpl.
  unfold hasType. cbn [type].
  destruct (String.eqb_spec op.1 ty) as [<-|]; simpl; [|lia].
  rewrite countType_zero by done. lia.
Qed.

Lemma countType_foldl_pushAcc ty ops acc :
  (countType ty acc ≤ 1)%nat → (countType ty (foldl pushAcc acc ops) ≤ 1)%nat.
Proof.
  revert acc. induction ops as [|op ops IH]; intros acc Hacc; simpl; [done|].
  by apply IH, countType_pushAcc.
Qed.

(** ** The neighbors that count as friends *)

(** Whether the card at [pos] counts as a friendly neighbor of a card of
    [owner]: inside the grid, owned, face-up, not stunned, and of the
    same player or the same team. *)
Definition friendAt (n : nat) (m : gmap Z (option Z)) (b : Board)
    (owner : Z) (pos : Z * Z) : bool :=
  (0 <=? pos.1) && (pos.1 <? Z.of_nat n)
  && (0 <=? pos.2) && (pos.2 <? Z.of_nat n)
  && match cardAt b (Z.to_nat pos.1) (Z.to_nat pos.2) with
     | Some cd =>
         match ownerId cd with
         | Some q =>
             negb (isFaceDown cd) && negb (someStatus "Stun" cd)
             && isFriendly m owner q
         | None => false
         end
     | None => false
     end.

Lemma scanNeighbor_friendly n m b owner acc pos :
  hasFriendlyNeighbor (scanNeighbor n m b owner acc pos)
  = hasFriendlyNeighbor acc || friendAt n m b owner pos.
Proof.
  unfold scanNeighbor, friendAt. destruct pos as [nr nc]. simpl.
  destruct (_ && _); simpl; [|by rewrite orb_false_r].
  destruct (cardAt b _ _) as [cd|]; [|by rewrite orb_false_r].
  destruct (ownerId cd) as [q|]; [|by rewrite orb_false_r].
  destruct (negb (isFaceDown cd) && negb (someStatus "Stun" cd)); simpl;
    [|by rewrite orb_false_r].
  destruct (isFriendly m owner q); simpl;
    [by rewrite orb_true_r|by rewrite orb_false_r].
Qed.

Lemma scanNeighbors_friendly n m b owner r c :
  hasFriendlyNeighbor (scanNeighbors n m b owner r c)
  = existsb (friendAt n m b owner) (neighborsPos r c).
Proof.
  unfold scanNeighbors.
  transitivity (hasFriendlyNeighbor (mkScan JsObject.empty false)
                || existsb (friendAt n m b owner) (neighborsPos r c));
    [|done].
  generalize (mkScan JsObject.empty false).
  induction (neighborsPos r c) as [|p ps IH]; intros acc; simpl.
  { by rewrite orb_false_r. }
  by rewrite IH, scanNeighbor_friendly, orb_assoc.
Qed.

(** ** The heroes of a line *)

(** A card that acts as the hero [hid] of player [o]: face-up, owned by
    [o] and not stunned. *)
Definition isHero (hid : string) (o : Z) (cd : Card) : Prop :=
  baseId cd = Some hid ∧ ownerId cd = Some o ∧ isFaceDown cd = false
  ∧ someStatus "Stun" cd = false.

Definition heroInRow (hid : string) (n : nat) (b : Board) (r : nat) (o : Z)
    : Prop :=
  ∃ c0 hero, (c0 < n)%nat ∧ cardAt b r c0 = Some hero ∧ isHero hid o hero.

Definition heroInCol (hid : string) (n : nat) (b : Board) (c : nat) (o : Z)
    : Prop :=
  ∃ r0 hero, (r0 < n)%nat ∧ cardAt b r0 c = Some hero ∧ isHero hid o hero.

Lemma rowKeys_collectHeroes hid n b r o :
  hid ≠ ""%string → (r < n)%nat →
  (r, o) ∈ rowKeys (collectHeroes hid n b) ↔ heroInRow hid n b r o.
Proof.
  intros Hne Hr. unfold rowKeys.
  rewrite elem_of_list_to_set, list_elem_of_fmap. split.
  - intros (h & [= -> ->] & Hh).
    apply elem_of_collectHeroes in Hh as (_ & Hc & Hh).
    apply heroAt_Some in Hh as (_ & _ & _ & cd & Hcd & Hb & Ho & Hf & Hs).
    simpl in Hcd. by exists (hero_c h), cd.
  - intros (c0 & cd & Hc & Hcd & Hb & Ho & Hf & Hs).
    exists (mkHero r c0 o hid). split; [done|].
    by eapply collectHeroes_intro.
Qed.

Lemma colKeys_collectHeroes hid n b c o :
  hid ≠ ""%string → (c < n)%nat →
  (c, o) ∈ colKeys (collectHeroes hid n b) ↔ heroInCol hid n b c o.
Proof.
  intros Hne Hc. unfold colKeys.
  rewrite elem_of_list_to_set, list_elem_of_fmap. split.
  - intros (h & [= -> ->] & Hh).
    apply elem_of_collectHeroes in Hh as (Hr & _ & Hh).
    apply heroAt_Some in Hh as (_ & _ & _ & cd & Hcd & Hb & Ho & Hf & Hs).
    simpl in Hcd. by exists (hero_r h), cd.
  - intros (r0 & cd & Hr & Hcd & Hb & Ho & Hf & Hs).
    exists (mkHero r0 c o hid). split; [done|].
    by eapply collectHeroes_intro.
Qed.

Lemma rowHits_spec hid n b r c o :
  hid ≠ ""%string → (r < n)%nat → (c < n)%nat →
  (rowHits n ∅ (collectHeroes hid n b) r c o = 1%nat
   ∧ heroInRow hid n b r o)
  ∨ (rowHits n ∅ (collectHeroes hid n b) r c o = 0%nat
     ∧ ¬ heroInRow hid n b r o).
Proof.
  intros Hne Hr Hc. unfold rowHits.
  destruct (decide ((r, o) ∈ rowKeys (collectHeroes hid n b))) as [Hin|Hout].
  - left. split; [|by apply rowKeys_collectHeroes].
    apply hit_True. split; [done|]. split; [set_solver|done].
  - right. split; [|by rewrite <- rowKeys_collectHeroes].
    apply hit_False. tauto.
Qed.

Lemma colHits_spec hid n b r c o :
  hid ≠ ""%string → (r < n)%nat → (c < n)%nat →
  (colHits n ∅ (collectHeroes hid n b) r c o = 1%nat
   ∧ heroInCol hid n b c o)
  ∨ (colHits n ∅ (collectHeroes hid n b) r c o = 0%nat
     ∧ ¬ heroInCol hid n b c o).
Proof.
  intros Hne Hr Hc. unfold colHits.
  destruct (decide ((c, o) ∈ colKeys (collectHeroes hid n b))) as [Hin|Hout].
  - left. split; [|by apply colKeys_collectHeroes].
    apply hit_True. split; [done|]. split; [set_solver|done].
  - right. split; [|by rewrite <- colKeys_collectHeroes].
    apply hit_False. tauto.
Qed.

(** ** The enemies that threaten *)

Section threats.
Import JsObject JsObjectFacts.
Implicit Types (e : list (Z * list (Z * Z))).

Lemma pinnedBy_Some e t :
  pinnedBy e = Some t → ∃ l, (t, l) ∈ e ∧ (2 ≤ length l)%nat.
Proof.
  unfold pinnedBy, entries.
  destruct (List.find _ e) as [[k l]|] eqn:Hfind; [|done].
  intros [= <-]. apply List.find_some in Hfind as [Hin Hl].
  exists l. split; [by apply list_elem_of_In|]. by apply Nat.leb_le.
Qed.

Lemma pinnedBy_is_Some e q l :
  (q, l) ∈ e → (2 ≤ length l)%nat → is_Some (pinnedBy e).
Proof.
  intros Hin Hl. unfold pinnedBy, entries.
  destruct (List.find _ e) as [kv|] eqn:Hfind; [by eexists|].
  apply list_elem_of_In in Hin.
  pose proof (List.find_none _ _ Hfind _ Hin) as Hno. cbn [snd] in Hno.
  apply Nat.leb_gt in Hno. lia.
Qed.

Lemma elem_of_keys e k l : (k, l) ∈ e → k ∈ keys e.
Proof. intros H. unfold keys. apply list_elem_of_fmap. by exists (k, l). Qed.

Lemma threateningPlayerId_Some n a e r c t :
  threateningPlayerId n a e r c = Some t → t ∈ keys e.
Proof.
  unfold threateningPlayerId.
  destruct (pinnedBy e) as [p|] eqn:Hpin.
  - intros [= <-]. apply pinnedBy_Some in Hpin as (l & Hin & _).
    by eapply elem_of_keys.
  - unfold borderThreat. destruct (isActiveCell _ _ _ _); [|done].
    destruct (_ && _); [|done]. destruct (keys e) as [|k ks]; [done|].
    intros [= <-]. apply list_elem_of_here.
Qed.

Lemma get_pushEnemy q pos e k :
  get (pushEnemy q pos e) k
  = if decide (q = k) then Some (default [] (get e q) ++ [pos])
    else get e k.
Proof.
  unfold pushEnemy. rewrite get_set.
  destruct (decide (q = k)) as [->|Hne].
  - f_equal. f_equal. destruct (get e k) eqn:Hg; [by rewrite Hg|].
    by rewrite get_set, decide_True.
  - destruct (get e q); [done|]. by rewrite get_set, decide_False.
Qed.

Lemma enemies_count n m b owner ps k :
  length (default [] (get (foldl (addEnemy n m b owner) empty ps) k))
  = occurrences k (omap (enemyAt n m b owner) ps).
Proof.
  induction ps as [|p ps IH] using rev_ind; [done|].
  rewrite foldl_app, omap_app. simpl. unfold addEnemy at 1.
  unfold occurrences in *. rewrite List.filter_app, length_app, <- IH.
  destruct (enemyAt n m b owner p) as [q|]; simpl; [|lia].
  rewrite get_pushEnemy.
  destruct (Z.eqb_spec k q) as [->|Hne].
  - rewrite decide_True by done. simpl. by rewrite length_app.
  - rewrite decide_False by done. simpl. lia.
Qed.

(** The owners of the enemy neighbors are the keys of the object the
    scan fills. *)
Lemma scan_keys n m b owner r c k :
  k ∈ keys (enemyNeighborsByPlayer (scanNeighbors n m b owner r c))
  ↔ k ∈ enemyOwners n m b owner r c.
Proof.
  rewrite scanNeighbors_enemies.
  by destruct (enemies_invariant n m b owner (neighborsPos r c)) as (H & _).
Qed.

End threats.

(** ** The bonus power *)

Lemma bumpBonus_values k :
  bumpBonus k None = match k with
                     | O => None
                     | S k' => Some (Z.of_nat (S k'))
                     end.
Proof.
  unfold bumpBonus. induction k as [|k IH]; [done|].
  cbn [Nat.iter nat_rect]. unfold Nat.iter in IH. rewrite IH.
  destruct k; simpl; f_equal; lia.
Qed.

End StatusFacts.

(** * Concrete game states *)
Module Examples.
Import BoardUtils.

Definition unit_ (cid : string) (bid : string) (owner : Z) : Card :=
  mkCard cid (Some bid) (Some owner) false 2 None None.

(** The board with card [cd] put on cell [(r, c)]. *)
Definition place (r c : nat) (cd : Card) (b : Board) : Board :=
  alter (<[c := mkCell (Some cd)]>) r b.

Definition seat (pid : Z) (deck : list Card) (score : Z) : Player :=
  mkPlayer pid None [] deck score false false false None.

(** A started three-player match on the full 7x7 grid. *)
Definition skirmish (b : Board) : GameState :=
  mkGameState b [seat 1 [] 0; seat 2 [] 0; seat 3 [] 0]
    7 0 (num 1) (num 1) 1 1 None null true false false false true [].

(** A single Reverend of player 1 in the corner, nothing else. *)
Definition loneReverend : GameState :=
  skirmish (place 0 0 (unit_ "rev" HERO_REVEREND_ID 1) createInitialBoard).

(** A unit of player 1 on the left border, a unit of player 3 above it
    and a unit of player 2 below it. *)
Definition twoEnemies : GameState :=
  skirmish (place 0 0 (unit_ "up" "riotAgent" 3)
           (place 1 0 (unit_ "mid" "riotAgent" 1)
           (place 2 0 (unit_ "down" "riotAgent" 2) createInitialBoard))).

(** *** States of the turn machine *)

Definition inDeck (cid : string) : Card :=
  mkCard cid (Some "riotAgent"%string) None false 2 None None.

Definition match_ (started : bool) (ps : list Player) (phase : Z)
    (active starting : Nullable) (round : Z)
    (rw : option (JsObject.t (list Z))) (winner : Nullable) : GameState :=
  mkGameState createInitialBoard ps 7 phase active starting round 1 rw
    winner started false false false true [].

(** Before the match starts: nobody is active, player 1 has a deck. *)
Definition lobby : GameState :=
  match_ false [seat 1 [inDeck "a"; inDeck "b"] 0; seat 2 [inDeck "c"] 0]
    0 null null 1 None null.

(** Round 1, the Draw phase of the starting player, who has reached the
    threshold of 20 and has no card left in the deck. *)
Definition emptyDeckLeader : GameState :=
  match_ true [seat 1 [] 20; seat 2 [inDeck "c"] 5]
    (-1) (num 1) (num 1) 1 None null.

(** Round 2 ends: round 1 was a tie of both players, and player 2 has the
    highest score. *)
Definition secondRound : GameState :=
  match_ true [seat 1 [] 10; seat 2 [] 30]
    0 (num 1) (num 1) 2
    (Some (JsObject.set 1 [1; 2] JsObject.empty))
    null.

(** Round 3 ends: rounds 1 and 2 made player 2 the match winner (round 1
    was a tie of both players), and player 1 has the highest score. *)
Definition thirdRound : GameState :=
  match_ true [seat 1 [] 40; seat 2 [] 10]
    0 (num 1) (num 1) 3
    (Some (JsObject.set 2 [2] (JsObject.set 1 [1; 2] JsObject.empty)))
    (num 2).

(** A started match in the Scoring slot of the cycle. *)
Definition midTurn : GameState :=
  match_ true [seat 1 [inDeck "a"] 0; seat 2 [inDeck "c"] 0]
    2 (num 1) (num 1) 1 None null.

(** A started match in the transient Draw phase. *)
Definition drawing : GameState :=
  match_ true [seat 1 [inDeck "a"] 0; seat 2 [inDeck "c"] 0]
    (-1) (num 1) (num 1) 1 None null.

(** Ready check: player 2 is ready, player 1 is about to be; player 2
    holds a deck of six cards. *)
Definition readyCheck : GameState :=
  mkGameState createInitialBoard
    [mkPlayer 1 None []
       [inDeck "a1"; inDeck "a2"; inDeck "a3"; inDeck "a4"; inDeck "a5";
        inDeck "a6"; inDeck "a7"; inDeck "a8"; inDeck "a9"; inDeck "a10";
        inDeck "a11"; inDeck "a12"]
       0 false false false None;
     mkPlayer 2 None []
       [inDeck "b1"; inDeck "b2"; inDeck "b3"; inDeck "b4"; inDeck "b5";
        inDeck "b6"]
       0 true false false None]
    7 0 null null 1 1 None null false true false false true [].

(** A reading of numeric strings under which no string is a number. *)
Definition noNumericString (s : string) : JsValue.JsNumber := JsValue.NaN.


(** *** More boards and players *)

(** A face-down card of player 1 that still holds a Support, a Stun and
    a bonus, next to a unit of player 1. *)
Definition staleCard : Card :=
  mkCard "x" None (Some 1) true 2 (Some 3)
    (Some [mkStatus "Support" 1; mkStatus "Stun" 2]).

Definition hiddenCard : GameState :=
  skirmish (place 1 1 staleCard
           (place 1 2 (unit_ "y" "riotAgent" 1) createInitialBoard)).

(** A unit of player 1 inside the grid between two units of player 2. *)
Definition pincer : GameState :=
  skirmish (place 0 3 (unit_ "up" "riotAgent" 2)
           (place 1 3 (unit_ "mid" "riotAgent" 1)
           (place 2 3 (unit_ "down" "riotAgent" 2) createInitialBoard))).

(** A unit of player 1 in the middle of the grid, below a unit of
    player 2. *)
Definition innerEnemy : GameState :=
  skirmish (place 2 3 (unit_ "up" "riotAgent" 2)
           (place 3 3 (unit_ "mid" "riotAgent" 1) createInitialBoard)).

(** Mr. Pearl of player 1 and a unit of player 1 in its row. *)
Definition pearlRow : GameState :=
  skirmish (place 3 3 (unit_ "pearl" HERO_MR_PEARL_ID 1)
           (place 3 5 (unit_ "a" "riotAgent" 1) createInitialBoard)).

(** Player 1 of [readyCheck]. *)
Definition twelveCards : Player :=
  mkPlayer 1 None []
    [inDeck "a1"; inDeck "a2"; inDeck "a3"; inDeck "a4"; inDeck "a5";
     inDeck "a6"; inDeck "a7"; inDeck "a8"; inDeck "a9"; inDeck "a10";
     inDeck "a11"; inDeck "a12"]
    0 false false false None.

(** A real player with default settings and a deck of five cards. *)
Definition fiveCards : Player :=
  seat 2 [inDeck "b1"; inDeck "b2"; inDeck "b3"; inDeck "b4"; inDeck "b5"] 0.

End Examples.

(** * The engine on small boards *)
Module RecomputeExamples.
Import BoardUtils Examples.

Definition stunned (cd : Card) : Card :=
  mkCard (card_id cd) (baseId cd) (ownerId cd) (isFaceDown cd) (power cd)
    (bonusPower cd) (Some [mkStatus "Stun" 2]).

(** What the recomputation leaves on cell [(r, c)]: the statuses and the
    bonus power of its card. *)
Definition derived (gs : GameState) (r c : nat)
    : option (option (list Status) * option Z) :=
  b' ← recalculateBoardStatuses gs;
  cd ← cardAt b' r c;
  Some (statuses cd, bonusPower cd).

(** Mr. Pearl of player 1 in the middle: the other units of player 1 in
    its row and column get [+1], Mr. Pearl itself and the enemy unit of
    the row get nothing. *)
Example mr_pearl_lines :
  let gs := skirmish (place 3 3 (unit_ "pearl" HERO_MR_PEARL_ID 1)
                     (place 3 5 (unit_ "a" "riotAgent" 1)
                     (place 0 3 (unit_ "b" "riotAgent" 1)
                     (place 3 0 (unit_ "c" "riotAgent" 2)
                        createInitialBoard)))) in
  derived gs 3 3 = Some (None, None)
  ∧ derived gs 3 5 = Some (None, Some 1)
  ∧ derived gs 0 3 = Some (None, Some 1)
  ∧ derived gs 3 0 = Some (None, None).
Proof. by vm_compute. Qed.

(** Condition A: two neighbors of the same enemy player threaten a card
    that is not on the border; the enemy cards get Support from nobody
    and, being inside, no Threat from the single enemy next to them. *)
Example pincer_threat :
  let gs := skirmish (place 2 3 (unit_ "up" "riotAgent" 2)
                     (place 3 3 (unit_ "mid" "riotAgent" 1)
                     (place 4 3 (unit_ "down" "riotAgent" 2)
                        createInitialBoard))) in
  derived gs 3 3 = Some (Some [mkStatus "Threat" 2], None)
  ∧ derived gs 2 3 = Some (None, None)
  ∧ derived gs 4 3 = Some (None, None).
Proof. by vm_compute. Qed.

(** A friendly neighbor grants Support; a stunned one does not, but still
    receives it. *)
Example stunned_neighbor :
  let gs := skirmish (place 3 3 (unit_ "a" "riotAgent" 1)
                     (place 3 4 (stunned (unit_ "b" "riotAgent" 1))
                        createInitialBoard)) in
  derived gs 3 3 = Some (None, None)
  ∧ derived gs 3 4
    = Some (Some [mkStatus "Stun" 2; mkStatus "Support" 1], None).
Proof. by vm_compute. Qed.

(** A board whose second row is too short makes the engine throw. *)
Example short_row_throws :
  recalculateBoardStatuses (skirmish [[mkCell None; mkCell None]; [mkCell None]])
  = None.
Proof. by vm_compute. Qed.

End RecomputeExamples.

(** * Theorems on recompute *)
Module RecomputeTheorems.
Import BoardUtils BoardFacts Examples.

Lemma lineHits_hero hid n b r0 c0 r c hero o :
  (r0 < n)%nat → (c0 < n)%nat → (r < n)%nat → (c < n)%nat →
  cardAt b r0 c0 = Some hero → baseId hero = Some hid → hid ≠ ""%string →
  ownerId hero = Some o → isFaceDown hero = false →
  someStatus "Stun" hero = false →
  r = r0 ∨ c = c0 →
  (1 ≤ lineHits n ∅ ∅ (collectHeroes hid n b) r c o)%nat.
Proof.
  intros Hr0 Hc0 Hr Hc Hcd Hb Hne Ho Hf Hs Hline.
  pose proof (collectHeroes_intro hid n b r0 c0 hero Hr0 Hc0 Hcd Hb Hne Hf Hs
                o Ho) as Hin.
  unfold lineHits, rowHits, colHits.
  destruct Hline as [->| ->].
  - rewrite (hit_True (_ ∧ _ ∧ (r0, o) ∈ _)); [lia|].
    split; [done|]. split; [set_solver|].
    unfold rowKeys. apply elem_of_list_to_set, list_elem_of_fmap.
    eexists. split; [|exact Hin]. done.
  - rewrite (hit_True (_ ∧ _ ∧ (c0, o) ∈ _)); [lia|].
    split; [done|]. split; [set_solver|].
    unfold colKeys. apply elem_of_list_to_set, list_elem_of_fmap.
    eexists. split; [|exact Hin]. done.
Qed.

(** C3 (amended).  When condition A does not fire (no enemy player
    owns two of the neighbors), the cell is inside the active grid and on
    its border, and there is an enemy neighbor, the card gets exactly one
    kind of Threat: attributed to the enemy neighbor owner with the
    smallest player id, the ids being array-index keys (integers in
    [0, 2^32 - 2]) of the object that groups the neighbors. *)
Theorem border_threat_by_smallest_enemy_id (gs : GameState) (b' : Board)
    (r c : nat) (cd : Card) (o : Z) :
  recalculateBoardStatuses gs = Some b' →
  (r < length (board gs))%nat → (c < length (board gs))%nat →
  cardAt (board gs) r c = Some cd →
  ownerId cd = Some o → isFaceDown cd = false →
  NoDup (enemyOwners (length (board gs)) (playerTeamMap (players gs))
           (board gs) o r c) →
  isActiveCell (length (board gs)) (activeGridSize gs) r c = true →
  isCardOnEdge (length (board gs)) (activeGridSize gs) r c = true →
  enemyOwners (length (board gs)) (playerTeamMap (players gs))
    (board gs) o r c ≠ [] →
  Forall (λ q, JsObject.isArrayIndex q = true)
    (enemyOwners (length (board gs)) (playerTeamMap (players gs))
       (board gs) o r c) →
  ∃ t cd' l,
    cardAt b' r c = Some cd' ∧ statuses cd' = Some l
    ∧ t ∈ enemyOwners (length (board gs)) (playerTeamMap (players gs))
            (board gs) o r c
    ∧ (∀ q, q ∈ enemyOwners (length (board gs))
                  (playerTeamMap (players gs)) (board gs) o r c → t ≤ q)
    ∧ mkStatus "Threat" t ∈ l
    ∧ (∀ s, s ∈ l → type s = "Threat"%string → addedByPlayerId s = t).
Proof.
  set (n := length (board gs)). set (m := playerTeamMap (players gs)).
  set (owners := enemyOwners n m (board gs) o r c).
  intros Hre Hr Hc Hcd Ho Hf Hnd Hact Hedge Hne Hidx.
  set (e := enemyNeighborsByPlayer (scanNeighbors n m (board gs) o r c)).
  destruct (enemies_invariant n m (board gs) o (neighborsPos r c))
    as (Hkeys & Hmin & Hall).
  fold (enemyOwners n m (board gs) o r c) in Hkeys, Hmin, Hall.
  fold owners in Hkeys, Hmin, Hall.
  rewrite <- scanNeighbors_enemies in Hkeys, Hmin, Hall.
  fold e in Hkeys, Hmin, Hall.
  specialize (Hmin Hidx).
  assert (Hpin : pinnedBy e = None) by (by eapply pinnedBy_None).
  destruct (JsObject.keys e) as [|t ks] eqn:Hks.
  { destruct owners as [|q qs]; [done|].
    destruct (Hkeys q) as [_ Hq]. specialize (Hq (list_elem_of_here _ _)).
    by apply elem_of_nil in Hq. }
  assert (Hthreat : threateningPlayerId n (activeGridSize gs) e r c = Some t).
  { unfold threateningPlayerId, borderThreat.
    by rewrite Hpin, Hact, Hedge, Hks. }
  rewrite (recalculateBoardStatuses_cardAt _ _ _ _ Hre), Hcd. simpl.
  rewrite finalCard_inside by done.
  destruct (pushAllSt_elem "Threat" t (finalOps gs r c cd) (statuses cd))
    as (l & Hl & Hin & Honly).
  - apply finalOps_auto.
  - intros [ty w]. unfold finalOps, opsD, opsR. rewrite Ho, Hf.
    fold n m e. rewrite Hthreat, !elem_of_app. simpl.
    intros [[Hop|Hop]|Hop] E.
    + destruct (hasFriendlyNeighbor _); [|by apply elem_of_nil in Hop].
      apply list_elem_of_singleton in Hop. injection Hop as -> _. done.
    + apply list_elem_of_singleton in Hop. by injection Hop as _ ->.
    + apply elem_of_replicate in Hop as [Hop _]. injection Hop as -> _. done.
  - unfold finalOps, opsD. rewrite Ho, Hf. fold n m e. rewrite Hthreat.
    rewrite !elem_of_app. left. right. apply list_elem_of_here.
  - exists t, (setDerived (finalBonus gs r c cd) (Some l) cd), l.
    rewrite Hl. split; [done|]. split; [done|].
    split; [apply Hkeys, list_elem_of_here|]. split; [|done].
    intros q Hq%Hkeys. apply (Hmin t); by rewrite Hks.
Qed.

(** On [twoEnemies] the card between the two enemies is threatened by
    player 2, the smaller id. *)
Lemma border_threat_by_smallest_enemy_id_witness :
  ∃ b', recalculateBoardStatuses twoEnemies = Some b' ∧
  ∃ t cd' l,
    cardAt b' 1 0 = Some cd' ∧ statuses cd' = Some l
    ∧ t ∈ enemyOwners 7 (playerTeamMap (players twoEnemies))
            (board twoEnemies) 1 1 0
    ∧ (∀ q, q ∈ enemyOwners 7 (playerTeamMap (players twoEnemies))
                  (board twoEnemies) 1 1 0 → t ≤ q)
    ∧ mkStatus "Threat" t ∈ l
    ∧ (∀ s, s ∈ l → type s = "Threat"%string → addedByPlayerId s = t).
Proof.
  eexists. split; [vm_compute; reflexivity|].
  apply (border_threat_by_smallest_enemy_id twoEnemies _ 1 0
           (unit_ "mid" "riotAgent" 1) 1).
  - vm_compute; reflexivity.
  - simpl; lia.
  - simpl; lia.
  - vm_compute; reflexivity.
  - reflexivity.
  - reflexivity.
  - vm_compute. repeat constructor; rewrite ?elem_of_cons, ?elem_of_nil;
      intuition congruence.
  - vm_compute; reflexivity.
  - vm_compute; reflexivity.
  - by vm_compute.
  - repeat (apply Forall_cons_2; [vm_compute; reflexivity|]).
    apply Forall_nil_2.
Defined.

(** C3 as stated fails: on [twoEnemies] the first enemy neighbor in scan
    order (up) belongs to player 3, condition A does not fire, the cell
    is on the border of the active grid, and the Threat is attributed to
    player 2. *)
Lemma border_threat_not_first_scanned :
  enemyOwners 7 (playerTeamMap (players twoEnemies)) (board twoEnemies)
    1 1 0 = [3; 2]
  ∧ pinnedBy (enemyNeighborsByPlayer
                (scanNeighbors 7 (playerTeamMap (players twoEnemies))
                   (board twoEnemies) 1 1 0)) = None
  ∧ isActiveCell 7 (activeGridSize twoEnemies) 1 0 = true
  ∧ isCardOnEdge 7 (activeGridSize twoEnemies) 1 0 = true
  ∧ (recalculateBoardStatuses twoEnemies ≫= λ b', cardAt b' 1 0)
    = Some (mkCard "mid" (Some "riotAgent"%string) (Some 1) false 2 None
              (Some [mkStatus "Threat" 2])).
Proof. by vm_compute. Qed.

(** C1 (amended).  For every Reverend that is face-up, owned and not
    stunned, every face-up card of the same owner in the Reverend's row
    and in its column carries Support, attributed to that owner, after
    the recomputation -- the Reverend card itself included: the aura
    loops do not skip the hero. *)
Theorem reverend_supports_whole_line (gs : GameState) (b' : Board)
    (r0 c0 r c : nat) (hero target : Card) (o : Z) :
  recalculateBoardStatuses gs = Some b' →
  (r0 < length (board gs))%nat → (c0 < length (board gs))%nat →
  cardAt (board gs) r0 c0 = Some hero →
  baseId hero = Some HERO_REVEREND_ID → ownerId hero = Some o →
  isFaceDown hero = false → someStatus "Stun" hero = false →
  (r < length (board gs))%nat → (c < length (board gs))%nat →
  r = r0 ∨ c = c0 →
  cardAt (board gs) r c = Some target →
  ownerId target = Some o → isFaceDown target = false →
  ∃ target' l,
    cardAt b' r c = Some target' ∧ statuses target' = Some l
    ∧ mkStatus "Support" o ∈ l.
Proof.
  intros Hre Hr0 Hc0 Hhero Hb Ho Hf Hs Hr Hc Hline Htarget Hto Htf.
  rewrite (recalculateBoardStatuses_cardAt _ _ _ _ Hre), Htarget. simpl.
  rewrite finalCard_inside by done.
  destruct (pushAllSt_elem "Support" o (finalOps gs r c target)
              (statuses target)) as (l & Hl & Hin & _).
  - apply finalOps_auto.
  - intros [ty w]. unfold finalOps, opsD, opsR. rewrite Hto, Htf.
    rewrite !elem_of_app. simpl.
    intros [[Hop|Hop]|Hop] E.
    + destruct (hasFriendlyNeighbor _); [|by apply elem_of_nil in Hop].
      apply list_elem_of_singleton in Hop. by injection Hop as _ ->.
    + destruct (threateningPlayerId _ _ _ _ _);
        [|by apply elem_of_nil in Hop].
      apply list_elem_of_singleton in Hop. injection Hop as -> _. done.
    + apply elem_of_replicate in Hop as [Hop _]. by injection Hop as _ ->.
  - unfold finalOps, opsR. rewrite Hto, Htf. apply elem_of_app. right.
    apply elem_of_replicate. split; [done|].
    pose proof (lineHits_hero HERO_REVEREND_ID (length (board gs)) (board gs)
                  r0 c0 r c hero o) as H1.
    cut (1 ≤ lineHits (length (board gs)) ∅ ∅
               (collectHeroes HERO_REVEREND_ID (length (board gs)) (board gs))
               r c o)%nat; [lia|].
    by apply H1.
  - eexists _, l. split; [done|]. split; [exact Hl|exact Hin].
Qed.

(** On [loneReverend] the theorem applies to the Reverend itself. *)
Lemma reverend_supports_whole_line_witness :
  ∃ b', recalculateBoardStatuses loneReverend = Some b' ∧
  ∃ target' l,
    cardAt b' 0 0 = Some target' ∧ statuses target' = Some l
    ∧ mkStatus "Support" 1 ∈ l.
Proof.
  eexists. split; [vm_compute; reflexivity|].
  apply (reverend_supports_whole_line loneReverend _ 0 0 0 0
           (unit_ "rev" HERO_REVEREND_ID 1) (unit_ "rev" HERO_REVEREND_ID 1) 1).
  - vm_compute; reflexivity.
  - simpl; lia.
  - simpl; lia.
  - vm_compute; reflexivity.
  - reflexivity.
  - reflexivity.
  - reflexivity.
  - reflexivity.
  - simpl; lia.
  - simpl; lia.
  - by left.
  - vm_compute; reflexivity.
  - reflexivity.
  - reflexivity.
Defined.

(** C1 as stated fails: the only card of [loneReverend] is a Reverend
    without any neighbor, and the recomputation gives it Support. *)
Lemma reverend_supports_itself :
  (recalculateBoardStatuses loneReverend ≫= λ b', cardAt b' 0 0)
  = Some (mkCard "rev" (Some HERO_REVEREND_ID) (Some 1) false 2 None
            (Some [mkStatus "Support" 1]))
  ∧ enemyNeighborsByPlayer
      (scanNeighbors 7 (playerTeamMap (players loneReverend))
         (board loneReverend) 1 0 0) = []
  ∧ hasFriendlyNeighbor
      (scanNeighbors 7 (playerTeamMap (players loneReverend))
         (board loneReverend) 1 0 0) = false.
Proof. by vm_compute. Qed.

(** C7.  Recompute is idempotent: when [recalculateBoardStatuses]
    returns the board [b1] for a game state, running it again on the
    state whose board is [b1] returns [b1] again. *)
Theorem recalculateBoardStatuses_idempotent (gs : GameState) (b1 : Board) :
  recalculateBoardStatuses gs = Some b1 →
  recalculateBoardStatuses (withBoard gs b1) = Some b1.
Proof.
  intros H1.
  pose proof (recalculateBoardStatuses_shape _ _ H1) as Hs1.
  pose proof (recalculateBoardStatuses_sameView _ _ H1) as Hv1.
  assert (Hcover : rowsCoverGrid (board (withBoard gs b1)) = true).
  { simpl. rewrite (rowsCoverGrid_shape _ _ Hs1).
    revert H1. unfold recalculateBoardStatuses, cloneBoard.
    by destruct (rowsCoverGrid (board gs)). }
  destruct (recalculateBoardStatuses_Some _ Hcover) as [b2 H2].
  rewrite H2. f_equal. apply board_ext.
  - by rewrite (recalculateBoardStatuses_shape _ _ H2).
  - intros r c.
    rewrite (recalculateBoardStatuses_cardAt _ _ _ _ H2). simpl.
    rewrite (recalculateBoardStatuses_cardAt _ _ _ _ H1).
    destruct (cardAt (board gs) r c) as [cd|]; simpl; [|done]. f_equal.
    rewrite finalCard_ext; [apply finalCard_idem| |done].
    by apply shape_length.
Qed.

(** On [twoEnemies] the first run returns a board and the second run
    returns the same board. *)
Lemma recalculateBoardStatuses_idempotent_witness :
  ∃ b1, recalculateBoardStatuses twoEnemies = Some b1
        ∧ recalculateBoardStatuses (withBoard twoEnemies b1) = Some b1.
Proof.
  eexists. split; [vm_compute; reflexivity|].
  apply recalculateBoardStatuses_idempotent. vm_compute; reflexivity.
Defined.

End RecomputeTheorems.

(** * Theorems on the turn machine *)
Module PhaseTheorems.
Import JsValue PhaseManagement SessionFacts RoundFacts Examples.

(** ** [Math.max] *)

Lemma foldl_max_spec l y s :
  foldl (λ acc x, match acc with
                  | NegInfinity => Max x
                  | Max y => Max (Z.max y x)
                  end) (Max y) l = Max s →
  (s = y ∨ s ∈ l) ∧ y ≤ s ∧ Forall (λ x, x ≤ s) l.
Proof.
  revert y. induction l as [|x l IH]; intros y; simpl.
  - intros [= ->]. split; [by left|]. split; [lia|constructor].
  - intros H. apply IH in H as (Hin & Hle & Hall).
    split; [|split].
    + destruct Hin as [->|Hin]; [|right; by apply list_elem_of_further].
      destruct (Z.max_spec y x) as [[_ ->]|[_ ->]];
        [right; apply list_elem_of_here|by left].
    + lia.
    + constructor; [lia|done].
Qed.

(** The maximum is one of the numbers and bounds them all; without any
    number it is [-Infinity]. *)
Lemma Math_max_spec l s :
  Math_max l = Max s → s ∈ l ∧ Forall (λ x, x ≤ s) l.
Proof.
  destruct l as [|x l]; [done|]. unfold Math_max. simpl.
  intros H. apply foldl_max_spec in H as (Hin & Hle & Hall). split.
  - destruct Hin as [->|Hin];
      [apply list_elem_of_here|by apply list_elem_of_further].
  - by constructor.
Qed.

Lemma Math_max_nil : Math_max [] = NegInfinity.
Proof. done. Qed.

(** ** Round-end evaluation *)

Lemma orZero_id x : orZero x = x.
Proof. unfold orZero. by destruct (Z.eqb_spec x 0). Qed.

(** The maximum score is the score of a player, and no player has more. *)
Lemma maxScoreOf_spec gs s :
  maxScoreOf gs = Max s →
  (∃ p, p ∈ players gs ∧ score p = s)
  ∧ ∀ p, p ∈ players gs → score p ≤ s.
Proof.
  unfold maxScoreOf. intros [Hin Hall]%Math_max_spec. split.
  - apply list_elem_of_fmap in Hin as (p & -> & Hp). exists p.
    by rewrite orZero_id.
  - intros p Hp. rewrite Forall_forall in Hall.
    rewrite <- (orZero_id (score p)). apply Hall.
    apply list_elem_of_fmap. by exists p.
Qed.

Lemma foldl_max_is_Max l y :
  ∃ s, foldl (λ acc x, match acc with
                       | NegInfinity => Max x
                       | Max y => Max (Z.max y x)
                       end) (Max y) l = Max s.
Proof.
  revert y. induction l as [|x l IH]; intros y; simpl; [by exists y|].
  apply IH.
Qed.

(** [Math.max] over the scores is the highest score among the players. *)
Lemma maxScoreOf_highestScore gs m :
  maxScoreOf gs = Max m ↔ highestScore gs m.
Proof.
  split; [apply maxScoreOf_spec|].
  intros [(p & Hp & Hm) Hle].
  assert (∃ s, maxScoreOf gs = Max s) as [s Hs].
  { unfold maxScoreOf, Math_max.
    destruct (players gs) as [|q ps]; [by apply elem_of_nil in Hp|].
    rewrite fmap_cons. cbn [foldl]. apply foldl_max_is_Max. }
  destruct (maxScoreOf_spec _ _ Hs) as [(p' & Hp' & Hm') Hle'].
  specialize (Hle p' Hp'). specialize (Hle' p Hp).
  rewrite Hs. f_equal. lia.
Qed.

(** The comparison of [checkRoundEnd] in terms of the players' scores. *)
Lemma reaches_highestScore gs t :
  reaches (maxScoreOf gs) t = true ↔ ∃ m, highestScore gs m ∧ t ≤ m.
Proof.
  split.
  - destruct (maxScoreOf gs) as [|s] eqn:Hmax; [done|]. cbn [reaches].
    intros Hle%Z.leb_le. exists s. split; [|done].
    by apply maxScoreOf_highestScore.
  - intros (m & Hm%maxScoreOf_highestScore & Hle). rewrite Hm.
    by apply Z.leb_le.
Qed.

Lemma highestScore_unique gs m m' :
  highestScore gs m → highestScore gs m' → m = m'.
Proof.
  intros [(p & Hp & Hm) Hle] [(p' & Hp' & Hm') Hle'].
  specialize (Hle p' Hp'). specialize (Hle' p Hp). lia.
Qed.

(** C5.  [checkRoundEnd] returns [true] exactly when the match has
    started, the round-end modal is closed, the phase is Setup (0), the
    check is the deselect variant or the active player is the starting
    player, and the highest score among the players reaches
    [10 + 10 * currentRound]; in round 1 the threshold is 20: a highest
    score of 20 ends the round and a highest score of 19 does not. *)
Theorem checkRoundEnd_true_iff (gs : GameState) (isDeselectCheck : bool) :
  (checkRoundEnd gs isDeselectCheck = true ↔
     isGameStarted gs = true
     ∧ isRoundEndModalOpen gs = false
     ∧ currentPhase gs = 0
     ∧ (isDeselectCheck = true ∨ activePlayerId gs = startingPlayerId gs)
     ∧ ∃ m, highestScore gs m ∧ 10 + 10 * currentRound gs ≤ m)
  ∧ (isGameStarted gs = true → isRoundEndModalOpen gs = false →
     currentPhase gs = 0 → activePlayerId gs = startingPlayerId gs →
     currentRound gs = 1 →
     (highestScore gs 20 → checkRoundEnd gs isDeselectCheck = true)
     ∧ (highestScore gs 19 → checkRoundEnd gs isDeselectCheck = false)).
Proof.
  assert (Hiff : checkRoundEnd gs isDeselectCheck = true ↔
     isGameStarted gs = true
     ∧ isRoundEndModalOpen gs = false
     ∧ currentPhase gs = 0
     ∧ (isDeselectCheck = true ∨ activePlayerId gs = startingPlayerId gs)
     ∧ ∃ m, highestScore gs m ∧ 10 + 10 * currentRound gs ≤ m).
  { assert (Hreach : reaches (maxScoreOf gs)
                       (getRoundVictoryThreshold (currentRound gs)) = true
                     ↔ ∃ m, highestScore gs m ∧ 10 + 10 * currentRound gs ≤ m).
    { rewrite reaches_highestScore. unfold getRoundVictoryThreshold.
      split; intros (m & Hm & Hle); exists m; (split; [done|lia]). }
    unfold checkRoundEnd. cbv zeta.
    destruct (isGameStarted gs); simpl; [|naive_solver].
    destruct (isRoundEndModalOpen gs); simpl; [naive_solver|].
    destruct (Z.eqb_spec (currentPhase gs) 0) as [Hph|Hph]; simpl;
      [|naive_solver].
    destruct isDeselectCheck; simpl.
    - rewrite Hreach. naive_solver.
    - destruct (decide (activePlayerId gs = startingPlayerId gs)) as [E|E].
      + rewrite bool_decide_eq_true_2 by done. simpl.
        rewrite Hreach. naive_solver.
      + rewrite bool_decide_eq_false_2 by done. simpl. naive_solver. }
  split; [exact Hiff|].
  intros Hst Hmo Hph Hact Hround. split.
  - intros Hmax. apply Hiff. repeat split; auto.
    exists 20. split; [done|lia].
  - intros Hmax. apply not_true_is_false. intros E.
    apply Hiff in E as (_ & _ & _ & _ & m & Hm & Hle).
    pose proof (highestScore_unique _ _ _ Hmax Hm). lia.
Qed.

(** ** The Draw procedure *)

Lemma endRound_phase gs : currentPhase (endRound gs) = currentPhase gs.
Proof. done. Qed.

(** The Draw procedure always leaves the phase at Setup (0). *)
Lemma performDrawPhase_phase gs : currentPhase (performDrawPhase gs) = 0.
Proof.
  unfold performDrawPhase. case_bool_decide; [done|].
  destruct (findPlayer _ _) as [p|]; [|done].
  destruct (deck p); [done|]. cbv zeta.
  by destruct (checkRoundEnd _ _).
Qed.

(** When the active player exists and has a card to draw, the Draw
    procedure ends with the round-end evaluation. *)
Lemma performDrawPhase_evaluates gs p cd rest :
  activePlayerId gs ≠ null →
  findPlayer (activePlayerId gs) (players gs) = Some p →
  deck p = cd :: rest →
  ∃ gs', currentPhase gs' = 0
         ∧ performDrawPhase gs
           = if checkRoundEnd gs' false then endRound gs' else gs'.
Proof.
  intros Hact Hp Hd. unfold performDrawPhase.
  rewrite bool_decide_eq_false_2, Hp, Hd by done. cbv zeta.
  eexists. split; [|reflexivity]. done.
Qed.

(** C2 at the failing input [emptyDeckLeader]: the starting player is
    active and has 20 points in round 1, but an empty deck.  The Draw
    procedure sets the phase to Setup and returns at once: the round-end
    modal stays closed and no round winner is recorded, although the
    round-end evaluation of the resulting state answers [true]. *)
Theorem performDrawPhase_empty_deck_skips_round_end :
  currentPhase (performDrawPhase emptyDeckLeader) = 0
  ∧ performDrawPhase emptyDeckLeader = withPhase 0 emptyDeckLeader
  ∧ checkRoundEnd (performDrawPhase emptyDeckLeader) false = true
  ∧ isRoundEndModalOpen (performDrawPhase emptyDeckLeader) = false
  ∧ roundWinners (performDrawPhase emptyDeckLeader) = None
  ∧ isRoundEndModalOpen (endRound (withPhase 0 emptyDeckLeader)) = true
  ∧ roundWinners (endRound (withPhase 0 emptyDeckLeader))
    = Some [(1, [1])].
Proof. by vm_compute. Qed.

(** ** Round-end resolution *)

(** [endRound] by itself does not look at the match winner already
    set: on [thirdRound], where player 2 is the match winner while the
    round-end modal is closed, round 3 goes to player 1, whose win count
    reaches 2 as well, and [endRound] makes player 1 the match winner.
    The handlers do not call [endRound] on such a state: the round-end
    evaluation answers [false] while the modal is open, and only the two
    restarts close the modal (see [MatchRecordTheorems]). *)
Lemma endRound_replaces_match_winner :
  gameWinner (endRound secondRound) = num 2
  ∧ roundWinners (endRound secondRound) = roundWinners thirdRound
  ∧ gameWinner thirdRound = num 2
  ∧ roundWinners (endRound thirdRound)
    = Some [(1, [1; 2]); (2, [2]); (3, [1])]
  ∧ countWins [(1, [1; 2]); (2, [2]); (3, [1])] = [(1, 2); (2, 2)]
  ∧ gameWinner (endRound thirdRound) = num 1.
Proof. by vm_compute. Qed.

(** ** Phase changes *)

(** C10.  On a started match in the Draw phase (-1), advancing sets the
    phase to 0 and retreating sets it to 2; both broadcast the new state
    and leave every other field, the players with their hands and decks
    among them, as they were. *)
Theorem draw_phase_advance_and_retreat (gs : GameState) :
  isGameStarted gs = true → currentPhase gs = -1 →
  handleNextPhase (Some gs)
    = (Some (withPhase 0 gs), [Broadcast (withPhase 0 gs)])
  ∧ handlePrevPhase (Some gs)
    = (Some (withPhase 2 gs), [Broadcast (withPhase 2 gs)])
  ∧ currentPhase (withPhase 0 gs) = 0 ∧ currentPhase (withPhase 2 gs) = 2
  ∧ players (withPhase 0 gs) = players gs
  ∧ players (withPhase 2 gs) = players gs.
Proof.
  intros Hst Hph. unfold handleNextPhase, handlePrevPhase.
  by rewrite Hst, Hph.
Qed.

Lemma draw_phase_advance_and_retreat_witness :
  handleNextPhase (Some drawing)
    = (Some (withPhase 0 drawing), [Broadcast (withPhase 0 drawing)])
  ∧ handlePrevPhase (Some drawing)
    = (Some (withPhase 2 drawing), [Broadcast (withPhase 2 drawing)])
  ∧ currentPhase (withPhase 0 drawing) = 0
  ∧ currentPhase (withPhase 2 drawing) = 2
  ∧ players (withPhase 0 drawing) = players drawing
  ∧ players (withPhase 2 drawing) = players drawing.
Proof.
  apply (draw_phase_advance_and_retreat drawing); reflexivity.
Defined.

(** C4 (amended).  On a match that has not started, advance, retreat
    and explicit set are rejected with the error "Game has not started"
    and leave the game state as it was.  The active-player toggle has no
    such check and is carried out, its result being broadcast: naming a
    player other than the active one makes that player the active player
    and runs the Draw procedure -- the phase ends at Setup (0), and when
    the player exists, has a card in the deck and auto-draw applies, the
    top card of the deck goes to the end of the hand; the other players
    and every other field of the state stay as they were, and no round is
    ended.  Naming the active player deselects it. *)
Theorem phase_changes_need_started_match (gs : GameState) :
  isGameStarted gs = false →
  handleNextPhase (Some gs) = (Some gs, [ERROR "Game has not started"])
  ∧ handlePrevPhase (Some gs) = (Some gs, [ERROR "Game has not started"])
  ∧ (∀ stn phaseIndex,
       handleSetPhase stn (Some gs) phaseIndex
       = (Some gs, [ERROR "Game has not started"]))
  ∧ (∀ playerId, activePlayerId gs ≠ playerId →
       ∃ gs',
         handleToggleActivePlayer (Some gs) playerId
         = (Some gs', [Broadcast gs'])
         ∧ gs' = withPhase 0 (withPlayers (players gs')
                                (withActivePlayerId playerId gs))
         ∧ activePlayerId gs' = playerId ∧ currentPhase gs' = 0
         ∧ length (players gs') = length (players gs)
         ∧ (∀ i q, players gs !! i = Some q →
              num (player_id q) ≠ playerId → players gs' !! i = Some q)
         ∧ (findPlayer playerId (players gs) = None →
            players gs' = players gs)
         ∧ (∀ p, findPlayer playerId (players gs) = Some p →
              (deck p = [] ∨ shouldDraw (players gs) p = false →
               players gs' = players gs)
              ∧ (∀ c rest, deck p = c :: rest →
                   shouldDraw (players gs) p = true →
                   findPlayer playerId (players gs')
                   = Some (withHandDeck (hand p ++ [c]) rest p))))
  ∧ handleToggleActivePlayer (Some gs) (activePlayerId gs)
    = (Some (withActivePlayerId undefined gs),
       [Broadcast (withActivePlayerId undefined gs)]).
Proof.
  intros Hst.
  assert (Hcheck : ∀ g d, isGameStarted g = false → checkRoundEnd g d = false).
  { intros g d Hg. unfold checkRoundEnd. by rewrite Hg. }
  split; [|split; [|split; [|split]]].
  - unfold handleNextPhase. by rewrite Hst.
  - unfold handlePrevPhase. by rewrite Hst.
  - intros stn phaseIndex. unfold handleSetPhase. by rewrite Hst.
  - intros playerId Hact. unfold handleToggleActivePlayer.
    rewrite bool_decide_eq_false_2 by done.
    set (g1 := withPhase (-1) (withActivePlayerId playerId gs)).
    eexists. split; [reflexivity|].
    assert (Heq : performDrawPhase g1
                  = withPhase 0 (withPlayers (players (performDrawPhase g1))
                                   (withActivePlayerId playerId gs))).
    { destruct (performDrawPhase_eq g1) as [H|[Hend _]]; [exact H|].
      rewrite Hcheck in Hend; done. }
    split; [exact Heq|].
    split; [by rewrite Heq|]. split; [by rewrite Heq|].
    rewrite performDrawPhase_players.
    change (players g1) with (players gs).
    change (activePlayerId g1) with playerId.
    destruct (findPlayer playerId (players gs)) as [p|] eqn:Hp.
    2:{ repeat split; done. }
    pose proof (findPlayer_Some _ _ _ Hp) as [Hid Hin].
    split; [|split; [|split]].
    + destruct (deck p); [done|]. destruct (shouldDraw _ _); [|done].
      apply updateFound_length.
    + intros i q Hq Hne. destruct (deck p); [done|].
      destruct (shouldDraw _ _); [|done].
      apply updateFound_lookup_ne; [done|]. congruence.
    + done.
    + intros p' [= <-]. split.
      * intros [->|Hno]; [done|]. destruct (deck p); [done|]. by rewrite Hno.
      * intros c rest -> ->. rewrite Hid.
        rewrite findPlayer_updateFound by done. rewrite <- Hid, Hp. done.
  - unfold handleToggleActivePlayer.
    rewrite bool_decide_eq_true_2 by done.
    destruct (bool_decide _ && _); [|done].
    rewrite Hcheck; done.
Qed.

(** On [lobby] the match has not started: the three phase changes are
    rejected and the toggle is carried out. *)
Lemma phase_changes_need_started_match_witness :
  handleNextPhase (Some lobby) = (Some lobby, [ERROR "Game has not started"])
  ∧ handlePrevPhase (Some lobby) = (Some lobby, [ERROR "Game has not started"])
  ∧ (∀ stn phaseIndex,
       handleSetPhase stn (Some lobby) phaseIndex
       = (Some lobby, [ERROR "Game has not started"]))
  ∧ (∀ playerId, activePlayerId lobby ≠ playerId →
       ∃ gs',
         handleToggleActivePlayer (Some lobby) playerId
         = (Some gs', [Broadcast gs'])
         ∧ gs' = withPhase 0 (withPlayers (players gs')
                                (withActivePlayerId playerId lobby))
         ∧ activePlayerId gs' = playerId ∧ currentPhase gs' = 0
         ∧ length (players gs') = length (players lobby)
         ∧ (∀ i q, players lobby !! i = Some q →
              num (player_id q) ≠ playerId → players gs' !! i = Some q)
         ∧ (findPlayer playerId (players lobby) = None →
            players gs' = players lobby)
         ∧ (∀ p, findPlayer playerId (players lobby) = Some p →
              (deck p = [] ∨ shouldDraw (players lobby) p = false →
               players gs' = players lobby)
              ∧ (∀ c rest, deck p = c :: rest →
                   shouldDraw (players lobby) p = true →
                   findPlayer playerId (players gs')
                   = Some (withHandDeck (hand p ++ [c]) rest p))))
  ∧ handleToggleActivePlayer (Some lobby) (activePlayerId lobby)
    = (Some (withActivePlayerId undefined lobby),
       [Broadcast (withActivePlayerId undefined lobby)]).
Proof. apply (phase_changes_need_started_match lobby). reflexivity. Defined.

(** C4 as stated fails: on [lobby], whose match has not started,
    selecting player 1 is not rejected; it makes player 1 active and
    moves the first card of the deck of player 1 to the hand. *)
Lemma toggle_before_start_changes_state :
  isGameStarted lobby = false
  ∧ activePlayerId lobby = null
  ∧ (hand <$> players lobby) = [[]; []]
  ∧ (handleToggleActivePlayer (Some lobby) (num 1)).2
    = [Broadcast (performDrawPhase
                    (withPhase (-1) (withActivePlayerId (num 1) lobby)))]
  ∧ (activePlayerId <$> (handleToggleActivePlayer (Some lobby) (num 1)).1)
    = Some (num 1)
  ∧ ((λ gs, hand <$> players gs)
       <$> (handleToggleActivePlayer (Some lobby) (num 1)).1)
    = Some [[inDeck "a"]; []]
  ∧ ((λ gs, deck <$> players gs)
       <$> (handleToggleActivePlayer (Some lobby) (num 1)).1)
    = Some [[inDeck "b"]; [inDeck "c"]].
Proof. by vm_compute. Qed.

(** ** Explicit set *)

(** The number [x] is the integer [z]. *)
Definition isNumber (x : JsNumber) (z : Z) : Prop :=
  match x with
  | Finite q => Qeq q (inject_Z z)
  | _ => False
  end.

Lemma isInteger_Finite q :
  isInteger (Finite q) = true ↔ Qeq q (inject_Z (Qfloor q)).
Proof.
  destruct q as [n d]. unfold isInteger, Qeq, Qfloor. simpl.
  rewrite Z.eqb_eq, Z.mul_1_r. split.
  - intros H. rewrite Z.mul_comm. by apply Z.div_exact.
  - intros H. rewrite H. by apply Z.mod_mul.
Qed.

Lemma isNumber_floor q z : Qeq q (inject_Z z) → Qfloor q = z.
Proof. intros H. rewrite H. apply Qfloor_Z. Qed.

Lemma Qle_bool_inject x q z :
  Qeq q (inject_Z z) → Qle_bool (inject_Z x) q = (x <=? z).
Proof.
  intros H. apply eq_true_iff_eq.
  rewrite Qle_bool_iff, H, <- Zle_Qle, Z.leb_le. done.
Qed.

(** X11.  On a started match [handleSetPhase] validates
    [Number(phaseIndex)]: when the coerced value is an integer of
    [-1 .. 3] the phase becomes that integer and the state is broadcast;
    in every other case an error is sent and the state stays as it was.
    So a phase index that is a number is handled as documented, while
    [null] and [false], coerced to 0, and [true], coerced to 1, pass the
    validation. *)
Theorem handleSetPhase_coerces_phase_index (stn : string → JsNumber)
    (gs : GameState) (phaseIndex : JsValue.t) :
  isGameStarted gs = true →
  (∀ z, -1 ≤ z ≤ 3 → isNumber (Number stn phaseIndex) z →
     handleSetPhase stn (Some gs) phaseIndex
     = (Some (withPhase z gs), [Broadcast (withPhase z gs)]))
  ∧ ((∀ z, -1 ≤ z ≤ 3 → ¬ isNumber (Number stn phaseIndex) z) →
     ∃ message,
       handleSetPhase stn (Some gs) phaseIndex = (Some gs, [ERROR message]))
  ∧ handleSetPhase stn (Some gs) JsNull
    = (Some (withPhase 0 gs), [Broadcast (withPhase 0 gs)])
  ∧ handleSetPhase stn (Some gs) (JsBoolean true)
    = (Some (withPhase 1 gs), [Broadcast (withPhase 1 gs)])
  ∧ handleSetPhase stn (Some gs) (JsBoolean false)
    = (Some (withPhase 0 gs), [Broadcast (withPhase 0 gs)]).
Proof.
  intros Hst.
  assert (Hacc : ∀ v z, -1 ≤ z ≤ 3 → isNumber (Number stn v) z →
     handleSetPhase stn (Some gs) v
     = (Some (withPhase z gs), [Broadcast (withPhase z gs)])).
  { intros v z Hz Hnum. unfold handleSetPhase. rewrite Hst.
    destruct (Number stn v) as [| |q]; try done. simpl in Hnum.
    pose proof (isNumber_floor _ _ Hnum) as Hfl.
    assert (Hint : isInteger (Finite q) = true).
    { apply isInteger_Finite. by rewrite Hfl. }
    cbn [negb]. rewrite Hint. cbn [negb orb isNaN lt ge toZ].
    change (-1)%Q with (inject_Z (-1)). change 4%Q with (inject_Z 4).
    rewrite !(Qle_bool_inject _ q z) by done.
    destruct (Z.leb_spec (-1) z); [|lia].
    destruct (Z.leb_spec 4 z); [lia|]. simpl. by rewrite Hfl. }
  split; [apply Hacc|]. split.
  - intros Hrej. unfold handleSetPhase. rewrite Hst. cbn [negb].
    destruct (Number stn phaseIndex) as [|neg|q] eqn:Hn.
    + by eexists.
    + by eexists.
    + destruct (isInteger (Finite q)) eqn:Hint; cbn [negb orb isNaN lt ge];
        [|by eexists].
      apply isInteger_Finite in Hint.
      change (-1)%Q with (inject_Z (-1)). change 4%Q with (inject_Z 4).
      rewrite !(Qle_bool_inject _ q (Qfloor q)) by done.
      destruct (Z.leb_spec (-1) (Qfloor q)); simpl; [|by eexists].
      destruct (Z.leb_spec 4 (Qfloor q)); simpl; [by eexists|].
      destruct (Hrej (Qfloor q)); [lia|done].
  - repeat split; apply Hacc; try lia; reflexivity.
Qed.

(** C9 at the failing input [null]: it is not an integer, and on the
    started match [midTurn], whose phase is 2, [handleSetPhase] answers it
    with a broadcast of the state with phase 0, not with an error. *)
Theorem handleSetPhase_accepts_null :
  isGameStarted midTurn = true
  ∧ currentPhase midTurn = 2
  ∧ handleSetPhase noNumericString (Some midTurn) JsNull
    = (Some (withPhase 0 midTurn), [Broadcast (withPhase 0 midTurn)])
  ∧ currentPhase (withPhase 0 midTurn) = 0.
Proof. by vm_compute. Qed.

End PhaseTheorems.

(** * Theorems on the match start *)
Module ReadyCheckTheorems.
Import PhaseManagement ReadyCheck Examples.

(** The loop compares the counter with the length of the deck it is
    emptying: from a deck of [n] cards it moves [min 6 ((n + 1) / 2)]
    cards. *)
Definition drawn (remaining i n : nat) : nat :=
  Nat.min remaining (Nat.div2 (S (n - i))).

Lemma drawn_0 i n : drawn 0 i n = 0%nat.
Proof. done. Qed.

Lemma drawn_step rem i n :
  (S i ≤ n)%nat → drawn (S rem) i (S n) = S (drawn rem (S i) n).
Proof.
  intros H. unfold drawn.
  replace (S n - i)%nat with (S (S (n - S i))) by lia.
  change (Nat.div2 (S (S (S (n - S i))))) with (S (Nat.div2 (S (n - S i)))).
  by rewrite <- Nat.succ_min_distr.
Qed.

Lemma drawn_last rem n : drawn (S rem) n (S n) = 1%nat.
Proof.
  unfold drawn. replace (S n - n)%nat with 1%nat by lia.
  change (Nat.div2 2) with 1%nat. lia.
Qed.

Lemma drawn_end rem n : drawn rem n n = 0%nat.
Proof. unfold drawn. rewrite Nat.sub_diag. simpl. lia. Qed.

Lemma drawLoop_spec remaining i player :
  (i ≤ length (deck player))%nat →
  hand (drawLoop remaining i player)
  = hand player ++ take (drawn remaining i (length (deck player)))
                     (deck player)
  ∧ deck (drawLoop remaining i player)
    = drop (drawn remaining i (length (deck player))) (deck player).
Proof.
  revert i player. induction remaining as [|rem IH]; intros i player Hi.
  { rewrite drawn_0. simpl. by rewrite app_nil_r. }
  cbn [drawLoop].
  destruct (Nat.ltb_spec i (length (deck player))) as [Hlt|Hge].
  - destruct (deck player) as [|cd rest] eqn:Hd; [simpl in Hlt; lia|].
    cbn [length] in *.
    destruct (decide (S i ≤ length rest)%nat) as [Hle|Hgt].
    + specialize (IH (S i) (withHandDeck (hand player ++ [cd]) rest player)).
      cbn [deck hand withHandDeck] in IH. destruct (IH Hle) as [IHh IHd].
      rewrite IHh, IHd, drawn_step by done.
      cbn [take drop]. by rewrite <- app_assoc.
    + assert (length rest = i) as <- by lia.
      rewrite drawn_last. cbn [take drop].
      destruct rem as [|rem']; [done|]. cbn [drawLoop deck hand withHandDeck].
      destruct (Nat.ltb_spec (S (length rest)) (length rest)); [lia|done].
  - assert (length (deck player) = i) as Hlen by lia.
    rewrite Hlen, drawn_end. cbn [take drop]. by rewrite app_nil_r.
Qed.

(** C8 at the failing input: a real player with an empty hand, default
    auto-draw and a deck of six cards keeps three of them in the deck;
    with a deck of twelve cards six are drawn.  In the handler the
    starting player (player 1) then draws a seventh card in the Draw
    phase, and player 2 starts with three cards. *)
Theorem starting_hand_of_short_deck :
  (length <$> (hand <$> drawStartingHands (players readyCheck))) = [6; 3]%nat
  ∧ (length <$> (deck <$> drawStartingHands (players readyCheck)))
    = [6; 3]%nat
  ∧ ((λ gs, hand <$> players gs)
       <$> (handlePlayerReady 0 (Some readyCheck) (num 1)).1)
    = Some [[inDeck "a1"; inDeck "a2"; inDeck "a3"; inDeck "a4";
             inDeck "a5"; inDeck "a6"; inDeck "a7"];
            [inDeck "b1"; inDeck "b2"; inDeck "b3"]]
  ∧ ((λ gs, deck <$> players gs)
       <$> (handlePlayerReady 0 (Some readyCheck) (num 1)).1)
    = Some [[inDeck "a8"; inDeck "a9"; inDeck "a10"; inDeck "a11";
             inDeck "a12"];
            [inDeck "b4"; inDeck "b5"; inDeck "b6"]].
Proof. by vm_compute. Qed.

End ReadyCheckTheorems.

(** * Theorems on the requests of a session *)
Module SessionTheorems.
Import JsValue PhaseManagement ReadyCheck Session SessionFacts Examples.

Section requests.
Variable stn : string → JsNumber.

(** A handler that is given a game state leaves one behind. *)
Lemma handle_after req gs :
  (handle stn req (Some gs)).1 = Some (after stn req gs).
Proof.
  unfold after. destruct req; cbn [handle].
  - unfold handleToggleAutoAbilities. by destruct enabled.
  - unfold handleToggleAutoDraw.
    destruct enabled; try done.
    destruct playerId; try done. by destruct (findPlayer _ _).
  - done.
  - unfold handleNextPhase. by destruct (negb _).
  - unfold handlePrevPhase. by destruct (negb _).
  - unfold handleSetPhase. destruct (negb _); [done|].
    destruct (_ || _); [done|]. by destruct (_ || _).
  - unfold handleStartNextRound. by destruct (negb _).
  - done.
  - unfold handleStartReadyCheck. by destruct (isGameStarted gs).
  - unfold handleCancelReadyCheck. by destruct (negb _).
  - unfold handlePlayerReady.
    destruct (negb _); [done|]. destruct (isGameStarted gs); [done|].
    destruct (falsy _); [done|].
    destruct playerId; try done.
    destruct (findPlayer _ _); [|done]. cbv zeta.
    destruct (_ && _); [|done].
    by destruct (if _ <? 0 then None else _).
Qed.

Lemma after_PLAYER_READY (P : GameState → Prop) random gs playerId :
  P gs →
  (∀ n me,
     isReadyCheckActive gs = true → isGameStarted gs = false →
     playerId = num n → findPlayer (num n) (players gs) = Some me →
     (allReady (readied n gs) = false → P (withPlayers (readied n gs) gs))
     ∧ (allReady (readied n gs) = true →
        (pick random (readied n gs) = None → P (stalled gs n))
        ∧ ∀ first, pick random (readied n gs) = Some first →
                   P (performDrawPhase (kickoff gs n first)))) →
  P (after stn (PLAYER_READY random playerId) gs).
Proof.
  intros Hgs Hfound.
  pose proof (handle_after (PLAYER_READY random playerId) gs) as H.
  cbn [handle] in H.
  destruct (handlePlayerReady random (Some gs) playerId) as [o evs] eqn:E.
  cbn [fst] in H. subst o.
  by eapply handlePlayerReady_outcome.
Qed.

(** ** Cards are neither created nor lost *)

Lemma after_holdings req gs :
  holdings (after stn req gs) = holdings gs
  ∧ board (after stn req gs) = board gs.
Proof.
  destruct req; try (apply after_PLAYER_READY); unfold after; cbn [handle].
  - unfold handleToggleAutoAbilities. by destruct enabled.
  - unfold handleToggleAutoDraw. destruct enabled; try done.
    destruct playerId; try done. destruct (findPlayer _ _); [|done].
    split; [|done]. by apply updateFound_fmap.
  - unfold handleToggleActivePlayer. cbn [fst default from_option id].
    case_bool_decide.
    + destruct (bool_decide _ && _); [|done].
      by destruct (checkRoundEnd _ _).
    + rewrite performDrawPhase_holdings.
      by destruct (performDrawPhase_frame
                     (withPhase (-1) (withActivePlayerId playerId gs)))
        as (-> & _).
  - unfold handleNextPhase. by destruct (negb _).
  - unfold handlePrevPhase. by destruct (negb _).
  - unfold handleSetPhase. destruct (negb _); [done|].
    destruct (_ || _); [done|]. by destruct (_ || _).
  - unfold handleStartNextRound. destruct (negb _); [done|].
    destruct (negb _); (split; [|done]);
      by apply (holdings_fmap (withScore 0)).
  - split; [|done]. by apply (holdings_fmap (withScore 0)).
  - unfold handleStartReadyCheck. destruct (isGameStarted gs); [done|].
    split; [|done]. by apply (holdings_fmap (withReady false)).
  - unfold handleCancelReadyCheck. destruct (negb _); [done|].
    split; [|done]. by apply (holdings_fmap (withReady false)).
  - done.
  - intros n me _ _ _ _.
    assert (Hr : holding <$> readied n gs = holding <$> players gs).
    { by apply updateFound_fmap. }
    split; [done|]. intros _. split; [done|].
    intros first _. rewrite performDrawPhase_holdings.
    destruct (performDrawPhase_frame (kickoff gs n first)) as (-> & _).
    split; [|done]. unfold holdings. cbn [players kickoff].
    by rewrite drawStartingHands_holding.
Qed.

(** ** The phase stays in its range *)

Lemma accepted_phase_index x :
  isInteger x = true → lt x (-1) = false → ge x 4 = false →
  -1 ≤ toZ x ≤ 3.
Proof.
  destruct x as [| |q]; try done. cbn [lt ge toZ]. intros _ Hlo Hhi.
  apply negb_false_iff, Qle_bool_iff in Hlo.
  assert (Hlt : ¬ (4 <= q)%Q).
  { intros H%Qle_bool_iff. by rewrite H in Hhi. }
  apply Qnot_le_lt in Hlt. split.
  - change (-1) with (Qfloor (inject_Z (-1))). by apply Qfloor_resp_le.
  - cut (Qfloor q < 4); [lia|]. rewrite Zlt_Qlt.
    eapply Qle_lt_trans; [apply Qfloor_le|done].
Qed.

Lemma after_phase req gs :
  -1 ≤ currentPhase gs ≤ 3 → -1 ≤ currentPhase (after stn req gs) ≤ 3.
Proof.
  intros Hph.
  destruct req; try (apply after_PLAYER_READY); unfold after; cbn [handle].
  - unfold handleToggleAutoAbilities. by destruct enabled.
  - unfold handleToggleAutoDraw. destruct enabled; try done.
    destruct playerId; try done. by destruct (findPlayer _ _).
  - unfold handleToggleActivePlayer. cbn [fst default from_option id].
    case_bool_decide.
    + destruct (bool_decide _ && _); [|done].
      by destruct (checkRoundEnd _ _).
    + rewrite performDrawPhase_Setup. lia.
  - unfold handleNextPhase. destruct (negb _); [done|].
    cbn [fst default from_option id currentPhase withPhase].
    rewrite PhaseTheorems.orZero_id.
    pose proof (Z.rem_bound_pos (currentPhase gs + 1) 4). lia.
  - unfold handlePrevPhase. destruct (negb _); [done|].
    cbn [fst default from_option id currentPhase withPhase].
    rewrite PhaseTheorems.orZero_id.
    pose proof (Z.rem_bound_pos (currentPhase gs - 1 + 4) 4). lia.
  - unfold handleSetPhase. destruct (negb _); [done|].
    destruct (isInteger _) eqn:Hint; [|done]. cbn [negb orb].
    destruct (isNaN _); [done|].
    destruct (lt _ _) eqn:Hlo; [done|]. destruct (ge _ _) eqn:Hhi; [done|].
    by apply accepted_phase_index.
  - unfold handleStartNextRound. destruct (negb _); [done|].
    by destruct (negb _).
  - done.
  - unfold handleStartReadyCheck. by destruct (isGameStarted gs).
  - unfold handleCancelReadyCheck. by destruct (negb _).
  - done.
  - intros n me _ _ _ _. split; [done|]. intros _. split; [done|].
    intros first _. rewrite performDrawPhase_Setup. lia.
Qed.

(** ** A started match and the ready check *)

Lemma after_started req gs :
  isGameStarted gs && isReadyCheckActive gs = false →
  isGameStarted (after stn req gs) && isReadyCheckActive (after stn req gs)
  = false
  ∧ (isGameStarted gs = true → isGameStarted (after stn req gs) = true).
Proof.
  intros Hex.
  destruct req; try (apply after_PLAYER_READY); unfold after; cbn [handle].
  - unfold handleToggleAutoAbilities. by destruct enabled.
  - unfold handleToggleAutoDraw. destruct enabled; try done.
    destruct playerId; try done. by destruct (findPlayer _ _).
  - unfold handleToggleActivePlayer. cbn [fst default from_option id].
    case_bool_decide.
    + destruct (bool_decide _ && _); [|done].
      by destruct (checkRoundEnd _ _).
    + destruct (performDrawPhase_frame
                  (withPhase (-1) (withActivePlayerId playerId gs)))
        as (_ & _ & _ & _ & -> & -> & _). done.
  - unfold handleNextPhase. by destruct (negb _).
  - unfold handlePrevPhase. by destruct (negb _).
  - unfold handleSetPhase. destruct (negb _); [done|].
    destruct (_ || _); [done|]. by destruct (_ || _).
  - unfold handleStartNextRound. destruct (negb _); [done|].
    by destruct (negb _).
  - done.
  - unfold handleStartReadyCheck.
    destruct (isGameStarted gs) eqn:Hst;
      cbn [fst default from_option id isGameStarted isReadyCheckActive
           withReadyCheck];
      by rewrite Hst.
  - unfold handleCancelReadyCheck. destruct (negb _); [done|].
    cbn [fst default from_option id isGameStarted isReadyCheckActive
         withReadyCheck].
    by rewrite andb_false_r.
  - done.
  - intros n me _ _ _ _. split; [done|]. intros _. split; [done|].
    intros first _.
    destruct (performDrawPhase_frame (kickoff gs n first))
      as (_ & _ & _ & _ & -> & -> & _). done.
Qed.

(** ** Scores *)

Lemma after_scores req gs :
  score <$> players (after stn req gs) = score <$> players gs
  ∨ Forall (λ p, score p = 0) (players (after stn req gs)).
Proof.
  assert (Hreset : ∀ ps, Forall (λ p, score p = 0) (resetScores ps)).
  { intros ps. unfold resetScores. apply Forall_fmap, Forall_true. done. }
  destruct req; try (apply after_PLAYER_READY); unfold after; cbn [handle].
  - left. unfold handleToggleAutoAbilities. by destruct enabled.
  - left. unfold handleToggleAutoDraw. destruct enabled; try done.
    destruct playerId; try done. destruct (findPlayer _ _); [|done].
    by apply updateFound_fmap.
  - left. unfold handleToggleActivePlayer. cbn [fst default from_option id].
    case_bool_decide.
    + destruct (bool_decide _ && _); [|done].
      by destruct (checkRoundEnd _ _).
    + by rewrite performDrawPhase_players_fmap.
  - left. unfold handleNextPhase. by destruct (negb _).
  - left. unfold handlePrevPhase. by destruct (negb _).
  - left. unfold handleSetPhase. destruct (negb _); [done|].
    destruct (_ || _); [done|]. by destruct (_ || _).
  - unfold handleStartNextRound. destruct (negb _); [by left|].
    right. destruct (negb _); apply Hreset.
  - right. apply Hreset.
  - left. unfold handleStartReadyCheck. destruct (isGameStarted gs); [done|].
    cbn [fst default from_option id players withReadyCheck].
    rewrite <- list_fmap_compose. by apply list_fmap_ext.
  - left. unfold handleCancelReadyCheck. destruct (negb _); [done|].
    cbn [fst default from_option id players withReadyCheck].
    rewrite <- list_fmap_compose. by apply list_fmap_ext.
  - by left.
  - intros n me _ _ _ _.
    assert (Hr : score <$> readied n gs = score <$> players gs).
    { by apply updateFound_fmap. }
    split; [by left|]. intros _. split; [by left|].
    intros first _. left. rewrite performDrawPhase_players_fmap by done.
    cbn [players kickoff]. rewrite <- Hr. unfold drawStartingHands.
    rewrite <- list_fmap_compose. apply list_fmap_ext. intros _ p _.
    cbn [compose]. unfold drawStartingHand.
    destruct (_ <? _)%nat; [done|]. destruct (negb _); [done|].
    generalize 0%nat. generalize cardsToDraw. intros k. revert p.
    induction k as [|k IH]; intros p i; simpl; [done|].
    destruct (i <? length (deck p))%nat; [|done].
    destruct (deck p); [done|]. by rewrite IH.
Qed.

(** ** The record of the match while the round-end modal is open *)

Lemma after_modal req gs :
  isRoundEndModalOpen gs = true → restarts req = false →
  isRoundEndModalOpen (after stn req gs) = true
  ∧ roundWinners (after stn req gs) = roundWinners gs
  ∧ gameWinner (after stn req gs) = gameWinner gs
  ∧ currentRound (after stn req gs) = currentRound gs.
Proof.
  intros Hopen Hreq.
  assert (Hcheck : ∀ g d, isRoundEndModalOpen g = true →
                          checkRoundEnd g d = false).
  { intros g d Hg. unfold checkRoundEnd. rewrite Hg.
    by destruct (negb (isGameStarted g)). }
  destruct req; try done; try (apply after_PLAYER_READY);
    unfold after; cbn [handle].
  - unfold handleToggleAutoAbilities. by destruct enabled.
  - unfold handleToggleAutoDraw. destruct enabled; try done.
    destruct playerId; try done. by destruct (findPlayer _ _).
  - unfold handleToggleActivePlayer. cbn [fst default from_option id].
    case_bool_decide.
    + destruct (bool_decide _ && _); [|done]. by rewrite Hcheck.
    + by rewrite performDrawPhase_modal_open.
  - unfold handleNextPhase. by destruct (negb _).
  - unfold handlePrevPhase. by destruct (negb _).
  - unfold handleSetPhase. destruct (negb _); [done|].
    destruct (_ || _); [done|]. by destruct (_ || _).
  - unfold handleStartReadyCheck. by destruct (isGameStarted gs).
  - unfold handleCancelReadyCheck. by destruct (negb _).
  - done.
  - intros n me _ _ _ _. split; [done|]. intros _. split; [done|].
    intros first _. by rewrite performDrawPhase_modal_open.
Qed.

(** ** Serving a list of requests *)

Lemma run_snoc reqs req gs :
  run stn (reqs ++ [req]) gs = after stn req (run stn reqs gs).
Proof. unfold run. by rewrite foldl_app. Qed.

Lemma run_invariant (I : GameState → Prop) :
  (∀ req gs, I gs → I (after stn req gs)) →
  ∀ reqs gs, I gs → I (run stn reqs gs).
Proof.
  intros Hstep reqs gs Hgs.
  induction reqs as [|req reqs IH] using rev_ind; [done|].
  rewrite run_snoc. by apply Hstep.
Qed.

End requests.

(** X1.  Whatever requests a session serves, no card is created, lost
    or reordered: for every player the hand followed by the deck is the
    same list of cards as before, the players and their ids are the same,
    and the board is untouched. *)
Theorem requests_conserve_cards (stn : string → JsNumber)
    (reqs : list Request) (gs : GameState) :
  holdings (run stn reqs gs) = holdings gs
  ∧ board (run stn reqs gs) = board gs.
Proof.
  apply (run_invariant stn
           (λ g, holdings g = holdings gs ∧ board g = board gs)); [|done].
  intros req g [Hh Hb].
  destruct (after_holdings stn req g) as [Hh' Hb']. split; congruence.
Qed.

(** X2.  A phase in the range [-1 .. 3] stays in that range under every
    sequence of requests. *)
Theorem requests_keep_phase_in_range (stn : string → JsNumber)
    (reqs : list Request) (gs : GameState) :
  -1 ≤ currentPhase gs ≤ 3 → -1 ≤ currentPhase (run stn reqs gs) ≤ 3.
Proof.
  apply (run_invariant stn (λ g, -1 ≤ currentPhase g ≤ 3)).
  intros req g. apply after_phase.
Qed.

Lemma requests_keep_phase_in_range_witness :
  -1 ≤ currentPhase drawing ≤ 3
  ∧ -1 ≤ currentPhase
           (run noNumericString
              [PREV_PHASE; SET_PHASE (JsNumeric (Finite 3)); NEXT_PHASE;
               TOGGLE_ACTIVE_PLAYER (num 2)] drawing) ≤ 3.
Proof.
  split; [simpl; lia|].
  apply (requests_keep_phase_in_range noNumericString _ drawing).
  simpl; lia.
Defined.

(** X3.  A ready check is never active in a started match, and a started
    match stays started: when the two flags are not both set, no sequence
    of requests sets both, none clears [isGameStarted], and
    [handlePlayerReady] never takes its silent return (every PLAYER_READY
    is answered by an error or a broadcast). *)
Theorem started_match_has_no_ready_check (stn : string → JsNumber)
    (reqs : list Request) (gs : GameState) :
  isGameStarted gs && isReadyCheckActive gs = false →
  isGameStarted (run stn reqs gs) && isReadyCheckActive (run stn reqs gs)
  = false
  ∧ (isGameStarted gs = true → isGameStarted (run stn reqs gs) = true)
  ∧ ∀ random playerId,
      (handlePlayerReady random (Some (run stn reqs gs)) playerId).2 ≠ [].
Proof.
  intros Hex.
  assert (Hinv : isGameStarted (run stn reqs gs)
                 && isReadyCheckActive (run stn reqs gs) = false
                 ∧ (isGameStarted gs = true
                    → isGameStarted (run stn reqs gs) = true)).
  { apply (run_invariant stn
             (λ g, isGameStarted g && isReadyCheckActive g = false
                   ∧ (isGameStarted gs = true → isGameStarted g = true)));
      [|done].
    intros req g [Hg Hmono].
    destruct (after_started stn req g Hg) as [Hg' Hmono']. auto. }
  destruct Hinv as [Hboth Hmono]. split; [done|]. split; [done|].
  intros random playerId. unfold handlePlayerReady.
  destruct (isReadyCheckActive (run stn reqs gs)) eqn:Hact; [|done].
  rewrite andb_true_r in Hboth. rewrite Hboth. cbn [negb].
  destruct (falsy playerId); [done|].
  destruct playerId; try done.
  destruct (findPlayer _ _); [|done]. cbv zeta.
  destruct (_ && _ && _); [|done].
  by destruct (if _ <? 0 then None else _).
Qed.

Lemma started_match_has_no_ready_check_witness :
  isGameStarted readyCheck && isReadyCheckActive readyCheck = false
  ∧ isGameStarted
      (run noNumericString [PLAYER_READY 0 (num 1); START_READY_CHECK]
         readyCheck)
    && isReadyCheckActive
         (run noNumericString [PLAYER_READY 0 (num 1); START_READY_CHECK]
            readyCheck)
    = false
  ∧ (isGameStarted readyCheck = true →
     isGameStarted
       (run noNumericString [PLAYER_READY 0 (num 1); START_READY_CHECK]
          readyCheck) = true)
  ∧ ∀ random playerId,
      (handlePlayerReady random
         (Some (run noNumericString
                  [PLAYER_READY 0 (num 1); START_READY_CHECK] readyCheck))
         playerId).2 ≠ [].
Proof.
  split; [reflexivity|].
  apply (started_match_has_no_ready_check noNumericString _ readyCheck).
  reflexivity.
Defined.

(** X4.  No request awards points: after any sequence of requests the
    scores of the players are what they were, or they are all 0 (the
    reset of START_NEXT_ROUND and START_NEW_MATCH). *)
Theorem requests_award_no_points (stn : string → JsNumber)
    (reqs : list Request) (gs : GameState) :
  score <$> players (run stn reqs gs) = score <$> players gs
  ∨ Forall (λ p, score p = 0) (players (run stn reqs gs)).
Proof.
  apply (run_invariant stn
           (λ g, score <$> players g = score <$> players gs
                 ∨ Forall (λ p, score p = 0) (players g))); [|by left].
  intros req g Hg.
  destruct (after_scores stn req g) as [Hsame|Hzero]; [|by right].
  destruct Hg as [Hg|Hg]; [left; congruence|right].
  apply (Forall_fmap score (λ x, x = 0)). rewrite Hsame.
  by apply (Forall_fmap score (λ x, x = 0)).
Qed.

(** X5.  While the round-end modal is open the record of the match is
    frozen: no sequence of requests without START_NEXT_ROUND and
    START_NEW_MATCH closes the modal, ends a round (the round-end
    evaluation answers [false] in both variants) or changes the round
    number, the round winners or the match winner. *)
Theorem open_modal_freezes_match_record (stn : string → JsNumber)
    (reqs : list Request) (gs : GameState) :
  isRoundEndModalOpen gs = true →
  Forall (λ req, restarts req = false) reqs →
  isRoundEndModalOpen (run stn reqs gs) = true
  ∧ roundWinners (run stn reqs gs) = roundWinners gs
  ∧ gameWinner (run stn reqs gs) = gameWinner gs
  ∧ currentRound (run stn reqs gs) = currentRound gs
  ∧ ∀ isDeselectCheck, checkRoundEnd (run stn reqs gs) isDeselectCheck = false.
Proof.
  intros Hopen Hreqs.
  assert (Hinv : isRoundEndModalOpen (run stn reqs gs) = true
                 ∧ roundWinners (run stn reqs gs) = roundWinners gs
                 ∧ gameWinner (run stn reqs gs) = gameWinner gs
                 ∧ currentRound (run stn reqs gs) = currentRound gs).
  { induction reqs as [|req reqs IH] using rev_ind; [done|].
    apply Forall_app in Hreqs as [Hreqs Hreq].
    apply Forall_cons in Hreq as [Hreq _].
    rewrite run_snoc. destruct (IH Hreqs) as (Ho & Hw & Hg & Hr).
    destruct (after_modal stn req (run stn reqs gs) Ho Hreq)
      as (Ho' & Hw' & Hg' & Hr').
    repeat split; congruence. }
  destruct Hinv as (Ho & Hw & Hg & Hr). repeat split; try done.
  intros d. unfold checkRoundEnd. rewrite Ho.
  by destruct (negb (isGameStarted _)).
Qed.

Lemma open_modal_freezes_match_record_witness :
  isRoundEndModalOpen (endRound (withPhase 0 emptyDeckLeader)) = true
  ∧ Forall (λ req, restarts req = false)
      [TOGGLE_ACTIVE_PLAYER (num 1); TOGGLE_ACTIVE_PLAYER (num 2);
       NEXT_PHASE]
  ∧ isRoundEndModalOpen
      (run noNumericString
         [TOGGLE_ACTIVE_PLAYER (num 1); TOGGLE_ACTIVE_PLAYER (num 2);
          NEXT_PHASE] (endRound (withPhase 0 emptyDeckLeader))) = true
  ∧ roundWinners
      (run noNumericString
         [TOGGLE_ACTIVE_PLAYER (num 1); TOGGLE_ACTIVE_PLAYER (num 2);
          NEXT_PHASE] (endRound (withPhase 0 emptyDeckLeader)))
    = roundWinners (endRound (withPhase 0 emptyDeckLeader))
  ∧ gameWinner
      (run noNumericString
         [TOGGLE_ACTIVE_PLAYER (num 1); TOGGLE_ACTIVE_PLAYER (num 2);
          NEXT_PHASE] (endRound (withPhase 0 emptyDeckLeader)))
    = gameWinner (endRound (withPhase 0 emptyDeckLeader))
  ∧ currentRound
      (run noNumericString
         [TOGGLE_ACTIVE_PLAYER (num 1); TOGGLE_ACTIVE_PLAYER (num 2);
          NEXT_PHASE] (endRound (withPhase 0 emptyDeckLeader)))
    = currentRound (endRound (withPhase 0 emptyDeckLeader))
  ∧ ∀ isDeselectCheck,
      checkRoundEnd
        (run noNumericString
           [TOGGLE_ACTIVE_PLAYER (num 1); TOGGLE_ACTIVE_PLAYER (num 2);
            NEXT_PHASE] (endRound (withPhase 0 emptyDeckLeader)))
        isDeselectCheck = false.
Proof.
  split; [reflexivity|]. split; [by repeat constructor|].
  apply (open_modal_freezes_match_record noNumericString _
           (endRound (withPhase 0 emptyDeckLeader))).
  - reflexivity.
  - by repeat constructor.
Defined.

End SessionTheorems.

(** * Theorems on the round-end resolution *)
Module RoundTheorems.
Import JsObject JsObjectFacts PhaseManagement RoundFacts Examples.

(** X6.  [countWins] counts: the total it holds for a player is the
    number of recorded rounds that list the player as a winner, a player
    without any win has no entry, and when the winner ids are array
    indices the totals are enumerated by ascending player id. *)
Theorem countWins_counts_round_wins (rw : JsObject.t (list Z)) :
  (∀ k, get (countWins rw) k
        = if roundWins rw k =? 0 then None else Some (roundWins rw k))
  ∧ NoDup (keys (countWins rw))
  ∧ (Forall (λ w, isArrayIndex w = true) (concat (values rw)) →
     StronglySorted Z.lt (keys (countWins rw))).
Proof.
  destruct (countWins_spec rw) as (Hget & Hnd & Hasc).
  split; [exact Hget|]. split; [exact Hnd|exact Hasc].
Qed.

(** X7.  The match winner after [endRound]: with the round just ended
    recorded, if no player has two round wins the match winner stays as
    it was; if some player has two, the match winner is a player with
    two round wins, and the one with the smallest id when the winner ids
    are array indices. *)
Theorem endRound_match_winner (gs : GameState) :
  ∃ rw, roundWinners (endRound gs) = Some rw
    ∧ ((∀ k, roundWins rw k < 2) →
       gameWinner (endRound gs) = gameWinner gs)
    ∧ (∀ k, 2 ≤ roundWins rw k →
       ∃ w, gameWinner (endRound gs) = num w ∧ 2 ≤ roundWins rw w
            ∧ (Forall (λ w, isArrayIndex w = true) (concat (values rw)) →
               w ≤ k)).
Proof.
  unfold endRound. cbv zeta. cbn [roundWinners gameWinner].
  set (rw := set (currentRound gs) _ _). exists rw. split; [done|].
  destruct (countWins_spec rw) as (Hget & Hnd & Hasc).
  assert (Hentry : ∀ k c, (k, c) ∈ entries (countWins rw) →
                          c = roundWins rw k).
  { intros k c Hin. apply elem_of_get in Hin; [|done].
    rewrite Hget in Hin. destruct (roundWins rw k =? 0); congruence. }
  destruct (List.find _ _) as [[w c]|] eqn:Hfind.
  - pose proof Hfind as Hfound.
    apply List.find_some in Hfound as [Hin Hc].
    apply list_elem_of_In in Hin. apply Z.leb_le in Hc. simpl in Hc.
    pose proof (Hentry _ _ Hin) as ->. split.
    + intros Hnone. specialize (Hnone w). lia.
    + intros k Hk. exists w. split; [done|]. split; [done|].
      intros Hidx.
      destruct (find_ascending _ _ _ _ (Hasc Hidx) Hfind) as (_ & _ & Hmin).
      apply (Hmin k (roundWins rw k)); [|by apply Z.leb_le].
      apply get_Some_elem. rewrite Hget.
      destruct (Z.eqb_spec (roundWins rw k) 0); [lia|done].
  - split; [done|]. intros k Hk.
    assert (Hin : (k, roundWins rw k) ∈ entries (countWins rw)).
    { apply get_Some_elem. rewrite Hget.
      destruct (Z.eqb_spec (roundWins rw k) 0); [lia|done]. }
    apply list_elem_of_In in Hin.
    pose proof (List.find_none _ _ Hfind _ Hin) as Hno.
    apply Z.leb_gt in Hno. simpl in Hno. lia.
Qed.

(** X8.  When the round-end evaluation answers [true], [endRound]
    records for the current round a non-empty list of winners: the ids
    of exactly the players whose score is the highest, all of whom have
    reached the threshold of the round; the winners recorded for other
    rounds stay, the round-end modal opens and the scores are not
    touched. *)
Theorem endRound_records_leaders (gs : GameState) (isDeselectCheck : bool) :
  checkRoundEnd gs isDeselectCheck = true →
  ∃ rw ws, roundWinners (endRound gs) = Some rw
    ∧ get rw (currentRound gs) = Some ws
    ∧ ws ≠ []
    ∧ (∀ w, w ∈ ws ↔
         ∃ p, p ∈ players gs ∧ player_id p = w
              ∧ getRoundVictoryThreshold (currentRound gs) ≤ score p
              ∧ ∀ q, q ∈ players gs → score q ≤ score p)
    ∧ (∀ r, r ≠ currentRound gs →
         get rw r = get (default empty (roundWinners gs)) r)
    ∧ isRoundEndModalOpen (endRound gs) = true
    ∧ players (endRound gs) = players gs.
Proof.
  intros Hend.
  assert (∃ s, maxScoreOf gs = Max s
               ∧ getRoundVictoryThreshold (currentRound gs) ≤ s)
    as (s & Hmax & Hs).
  { unfold checkRoundEnd in Hend.
    destruct (negb (isGameStarted gs)); [done|].
    destruct (isRoundEndModalOpen gs); [done|].
    destruct (negb (currentPhase gs =? 0)); [done|].
    destruct (negb isDeselectCheck && _); [done|].
    destruct (maxScoreOf gs) as [|s]; [done|]. exists s. split; [done|].
    by apply Z.leb_le. }
  destruct (PhaseTheorems.maxScoreOf_spec _ _ Hmax) as [(p0 & Hp0 & Hs0) Hle].
  assert (Hws : ∀ w,
            w ∈ player_id <$> List.filter (λ p, isMaximum (score p) (Max s))
                                (players gs)
            ↔ ∃ p, p ∈ players gs ∧ player_id p = w ∧ score p = s).
  { intros w. rewrite list_elem_of_fmap. split.
    - intros (p & -> & Hp). apply list_elem_of_In, List.filter_In in Hp.
      destruct Hp as [Hp Hm]. apply list_elem_of_In in Hp.
      apply Z.eqb_eq in Hm. eauto.
    - intros (p & Hp & <- & Hm). exists p. split; [done|].
      apply list_elem_of_In, List.filter_In. split.
      + by apply list_elem_of_In.
      + by apply Z.eqb_eq. }
  unfold endRound. cbv zeta. rewrite Hmax.
  cbn [roundWinners isRoundEndModalOpen players].
  eexists _, _. split; [reflexivity|]. split; [|split; [|split; [|split]]].
  - rewrite get_set. by rewrite decide_True.
  - intros Hnil. destruct (Hws (player_id p0)) as [_ Hin].
    rewrite Hnil in Hin. eapply elem_of_nil, Hin. eauto.
  - intros w. rewrite Hws. split.
    + intros (p & Hp & Hw & Hsp). exists p. rewrite Hsp. eauto.
    + intros (p & Hp & Hw & _ & Hall). exists p. split; [done|].
      split; [done|]. specialize (Hall p0 Hp0). specialize (Hle p Hp). lia.
  - intros r Hr. rewrite get_set. by rewrite decide_False.
  - done.
Qed.

Lemma endRound_records_leaders_witness :
  checkRoundEnd (withPhase 0 emptyDeckLeader) false = true
  ∧ ∃ rw ws, roundWinners (endRound (withPhase 0 emptyDeckLeader)) = Some rw
    ∧ get rw (currentRound (withPhase 0 emptyDeckLeader)) = Some ws
    ∧ ws ≠ []
    ∧ (∀ w, w ∈ ws ↔
         ∃ p, p ∈ players (withPhase 0 emptyDeckLeader) ∧ player_id p = w
              ∧ getRoundVictoryThreshold
                  (currentRound (withPhase 0 emptyDeckLeader)) ≤ score p
              ∧ ∀ q, q ∈ players (withPhase 0 emptyDeckLeader) →
                     score q ≤ score p)
    ∧ (∀ r, r ≠ currentRound (withPhase 0 emptyDeckLeader) →
         get rw r
         = get (default empty
                  (roundWinners (withPhase 0 emptyDeckLeader))) r)
    ∧ isRoundEndModalOpen (endRound (withPhase 0 emptyDeckLeader)) = true
    ∧ players (endRound (withPhase 0 emptyDeckLeader))
      = players (withPhase 0 emptyDeckLeader).
Proof.
  split; [reflexivity|].
  apply (endRound_records_leaders (withPhase 0 emptyDeckLeader) false).
  reflexivity.
Defined.

End RoundTheorems.

(** * Theorems on the match winner *)
Module MatchRecordTheorems.
Import JsObject JsObjectFacts JsValue PhaseManagement ReadyCheck Session
  SessionFacts RoundFacts Examples.

Section requests.
Variable stn : string → JsNumber.





End requests.



End MatchRecordTheorems.

(** * Theorems on the turn handlers *)
Module TurnTheorems.
Import JsValue PhaseManagement ReadyCheck Session SessionFacts RoundFacts
  Examples.

Lemma Math_max_zeros (xs : list Z) s :
  Forall (λ x, x = 0) xs → Math_max xs = Max s → s = 0.
Proof.
  intros Hxs [Hin _]%PhaseTheorems.Math_max_spec.
  rewrite Forall_forall in Hxs. by apply Hxs.
Qed.

Lemma checkRoundEnd_fresh gs d :
  Forall (λ p, score p = 0) (players gs) → -1 ≤ currentRound gs - 1 →
  checkRoundEnd gs d = false.
Proof.
  intros Hzero Hround. unfold checkRoundEnd.
  destruct (negb (isGameStarted gs)); [done|].
  destruct (isRoundEndModalOpen gs); [done|].
  destruct (negb (currentPhase gs =? 0)); [done|].
  destruct (negb d && _); [done|].
  destruct (maxScoreOf gs) as [|s] eqn:Hmax; [done|]. simpl.
  apply Math_max_zeros in Hmax.
  - subst s. unfold getRoundVictoryThreshold. apply Z.leb_gt. lia.
  - apply Forall_fmap. eapply Forall_impl; [exact Hzero|].
    intros p Hp. simpl. by rewrite PhaseTheorems.orZero_id.
Qed.

(** X9.  A fresh round does not end at once: after START_NEW_MATCH, and
    after START_NEXT_ROUND on a state whose round number is at least -1,
    the round-end evaluation answers [false] in both variants, whatever
    the phase and the active player are. *)
Theorem fresh_round_does_not_end (stn : string → JsNumber) (gs : GameState)
    (isDeselectCheck : bool) :
  checkRoundEnd (after stn START_NEW_MATCH gs) isDeselectCheck = false
  ∧ (-1 ≤ currentRound gs →
     checkRoundEnd (after stn START_NEXT_ROUND gs) isDeselectCheck = false).
Proof.
  assert (Hreset : ∀ ps, Forall (λ p, score p = 0) (resetScores ps)).
  { intros ps. unfold resetScores. apply Forall_fmap, Forall_true. done. }
  split.
  - apply checkRoundEnd_fresh; [apply Hreset|]. simpl. lia.
  - intros Hround. unfold after. cbn [handle]. unfold handleStartNextRound.
    destruct (negb (isGameStarted gs)) eqn:Hst.
    { cbn [fst default from_option id]. unfold checkRoundEnd. by rewrite Hst. }
    destruct (negb (bool_decide (gameWinner gs = null)));
      (apply checkRoundEnd_fresh; [apply Hreset|simpl; lia]).
Qed.

(** X10.  On a started match whose phase is one of 0 .. 3, NEXT_PHASE
    and PREV_PHASE are inverse to each other and stay within 0 .. 3: each
    one followed by the other restores the game state. *)
Theorem next_and_prev_phase_are_inverse (gs : GameState) :
  isGameStarted gs = true → 0 ≤ currentPhase gs ≤ 3 →
  (∃ gs1, handleNextPhase (Some gs) = (Some gs1, [Broadcast gs1])
          ∧ 0 ≤ currentPhase gs1 ≤ 3
          ∧ handlePrevPhase (Some gs1) = (Some gs, [Broadcast gs]))
  ∧ (∃ gs1, handlePrevPhase (Some gs) = (Some gs1, [Broadcast gs1])
            ∧ 0 ≤ currentPhase gs1 ≤ 3
            ∧ handleNextPhase (Some gs1) = (Some gs, [Broadcast gs])).
Proof.
  intros Hst Hph. unfold handleNextPhase, handlePrevPhase.
  destruct gs as [b ps a ph act st rd tn rw gw started rc mo tr aa adp].
  cbn [isGameStarted currentPhase] in *. subst started. cbn [negb].
  assert (ph = 0 ∨ ph = 1 ∨ ph = 2 ∨ ph = 3) as Hcases by lia.
  destruct Hcases as [->|[->|[->| ->]]];
    (split; eexists; (split; [reflexivity|]);
     (split; [vm_compute; split; discriminate|]); reflexivity).
Qed.

Lemma next_and_prev_phase_are_inverse_witness :
  isGameStarted midTurn = true ∧ 0 ≤ currentPhase midTurn ≤ 3
  ∧ (∃ gs1, handleNextPhase (Some midTurn) = (Some gs1, [Broadcast gs1])
            ∧ 0 ≤ currentPhase gs1 ≤ 3
            ∧ handlePrevPhase (Some gs1) = (Some midTurn, [Broadcast midTurn]))
  ∧ (∃ gs1, handlePrevPhase (Some midTurn) = (Some gs1, [Broadcast gs1])
            ∧ 0 ≤ currentPhase gs1 ≤ 3
            ∧ handleNextPhase (Some gs1) = (Some midTurn, [Broadcast midTurn])).
Proof.
  split; [reflexivity|]. split; [simpl; lia|].
  apply (next_and_prev_phase_are_inverse midTurn); [reflexivity|simpl; lia].
Defined.

(** On [midTurn] the number 3 is accepted as the phase index. *)
Lemma handleSetPhase_coerces_phase_index_witness :
  isGameStarted midTurn = true
  ∧ (∀ z, -1 ≤ z ≤ 3 →
       PhaseTheorems.isNumber
         (Number noNumericString (JsNumeric (Finite 3))) z →
       handleSetPhase noNumericString (Some midTurn) (JsNumeric (Finite 3))
       = (Some (withPhase z midTurn), [Broadcast (withPhase z midTurn)]))
  ∧ ((∀ z, -1 ≤ z ≤ 3 →
        ¬ PhaseTheorems.isNumber
            (Number noNumericString (JsNumeric (Finite 3))) z) →
     ∃ message,
       handleSetPhase noNumericString (Some midTurn) (JsNumeric (Finite 3))
       = (Some midTurn, [ERROR message]))
  ∧ handleSetPhase noNumericString (Some midTurn) JsNull
    = (Some (withPhase 0 midTurn), [Broadcast (withPhase 0 midTurn)])
  ∧ handleSetPhase noNumericString (Some midTurn) (JsBoolean true)
    = (Some (withPhase 1 midTurn), [Broadcast (withPhase 1 midTurn)])
  ∧ handleSetPhase noNumericString (Some midTurn) (JsBoolean false)
    = (Some (withPhase 0 midTurn), [Broadcast (withPhase 0 midTurn)]).
Proof.
  split; [reflexivity|].
  apply (PhaseTheorems.handleSetPhase_coerces_phase_index noNumericString
           midTurn (JsNumeric (Finite 3))).
  reflexivity.
Defined.

(** X30.  Deselecting the starting player during Setup is the second
    place where a round can end: on a started match with the round-end
    modal closed, the toggle of the active starting player in phase 0
    clears the active player, moves no card, and ends the round exactly
    when the highest score among the players has reached the threshold
    of the round -- although no player is active any more. *)
Theorem deselecting_the_starting_player_checks_the_round (gs : GameState)
    (playerId : Nullable) :
  activePlayerId gs = playerId → startingPlayerId gs = playerId →
  currentPhase gs = 0 → isGameStarted gs = true →
  isRoundEndModalOpen gs = false →
  ∃ gs',
    handleToggleActivePlayer (Some gs) playerId = (Some gs', [Broadcast gs'])
    ∧ activePlayerId gs' = undefined ∧ players gs' = players gs
    ∧ (isRoundEndModalOpen gs' = true
       ↔ ∃ m, highestScore gs m
              ∧ getRoundVictoryThreshold (currentRound gs) ≤ m)
    ∧ (isRoundEndModalOpen gs' = true →
       gs' = endRound (withActivePlayerId undefined gs))
    ∧ (isRoundEndModalOpen gs' = false →
       gs' = withActivePlayerId undefined gs).
Proof.
  intros Hact Hstart Hph Hst Hmodal. unfold handleToggleActivePlayer.
  rewrite (bool_decide_eq_true_2 _ Hact).
  cbn [startingPlayerId currentPhase withActivePlayerId].
  rewrite Hph, Z.eqb_refl, (bool_decide_eq_true_2 (playerId = _))
    by (by symmetry).
  cbn [andb]. unfold checkRoundEnd.
  cbn [isGameStarted isRoundEndModalOpen currentPhase currentRound
       withActivePlayerId].
  rewrite Hst, Hmodal, Hph. cbn [negb Z.eqb andb].
  change (maxScoreOf (withActivePlayerId undefined gs)) with (maxScoreOf gs).
  pose proof (PhaseTheorems.reaches_highestScore gs
                (getRoundVictoryThreshold (currentRound gs))) as Hreach.
  destruct (reaches (maxScoreOf gs) _).
  - eexists. split; [reflexivity|].
    cbn [isRoundEndModalOpen activePlayerId players withActivePlayerId
         endRound].
    repeat split; try done. intros _. by apply Hreach.
  - eexists. split; [reflexivity|].
    cbn [isRoundEndModalOpen activePlayerId players withActivePlayerId].
    rewrite Hmodal. repeat split; try done.
    intros H. by apply Hreach in H.
Qed.

Lemma deselecting_the_starting_player_checks_the_round_witness :
  ∃ gs',
    handleToggleActivePlayer (Some (withPhase 0 emptyDeckLeader)) (num 1)
    = (Some gs', [Broadcast gs'])
    ∧ activePlayerId gs' = undefined
    ∧ players gs' = players (withPhase 0 emptyDeckLeader)
    ∧ (isRoundEndModalOpen gs' = true
       ↔ ∃ m, highestScore (withPhase 0 emptyDeckLeader) m
              ∧ getRoundVictoryThreshold
                  (currentRound (withPhase 0 emptyDeckLeader)) ≤ m)
    ∧ (isRoundEndModalOpen gs' = true →
       gs' = endRound (withActivePlayerId undefined
                         (withPhase 0 emptyDeckLeader)))
    ∧ (isRoundEndModalOpen gs' = false →
       gs' = withActivePlayerId undefined (withPhase 0 emptyDeckLeader)).
Proof.
  apply (deselecting_the_starting_player_checks_the_round
           (withPhase 0 emptyDeckLeader) (num 1)); reflexivity.
Defined.

(** ** The draw *)

(** X12.  The Draw procedure moves at most one card: when the active
    player exists, has a card in the deck and auto-draw applies (the
    player's own setting unless it is [false]; for a dummy, the host's
    setting when it is [true]), the top card of the deck goes to the end
    of that player's hand; in every other case the players are as
    before.  The players other than the active one are never touched. *)
Theorem performDrawPhase_draws_top_card (gs : GameState) :
  length (players (performDrawPhase gs)) = length (players gs)
  ∧ (∀ i q, players gs !! i = Some q →
       num (player_id q) ≠ activePlayerId gs →
       players (performDrawPhase gs) !! i = Some q)
  ∧ (findPlayer (activePlayerId gs) (players gs) = None →
     players (performDrawPhase gs) = players gs)
  ∧ (∀ p, findPlayer (activePlayerId gs) (players gs) = Some p →
       (deck p = [] ∨ shouldDraw (players gs) p = false →
        players (performDrawPhase gs) = players gs)
       ∧ (∀ c rest, deck p = c :: rest →
            shouldDraw (players gs) p = true →
            findPlayer (activePlayerId gs) (players (performDrawPhase gs))
            = Some (withHandDeck (hand p ++ [c]) rest p))).
Proof.
  rewrite performDrawPhase_players.
  destruct (findPlayer _ _) as [p|] eqn:Hp.
  2:{ repeat split; done. }
  pose proof (findPlayer_Some _ _ _ Hp) as [Hact Hin].
  split; [|split; [|split]].
  - destruct (deck p); [done|]. destruct (shouldDraw _ _); [|done].
    apply updateFound_length.
  - intros i q Hq Hne. destruct (deck p); [done|].
    destruct (shouldDraw _ _); [|done].
    apply updateFound_lookup_ne; [done|]. congruence.
  - done.
  - intros p' [= <-]. split.
    + intros [->|Hno]; [done|]. destruct (deck p); [done|]. by rewrite Hno.
    + intros c rest -> ->. rewrite Hact.
      rewrite findPlayer_updateFound by done. rewrite <- Hact, Hp. done.
Qed.

(** X13.  The auto-draw setting of a player decides the draw: once
    TOGGLE_AUTO_DRAW has set it for a player that is not a dummy and has
    a card in the deck, selecting that player as the active player moves
    the top card of the deck to the end of the hand when the setting is
    [true], and moves no card when it is [false]. *)
Theorem auto_draw_setting_decides_the_draw (gs : GameState) (n : Z)
    (p : Player) (c : Card) (rest : list Card) (enabled : bool) :
  findPlayer (num n) (players gs) = Some p → isDummy p = false →
  deck p = c :: rest → activePlayerId gs ≠ num n →
  ∃ gs1 gs2,
    handleToggleAutoDraw (Some gs) (num n) (JsBoolean enabled)
    = (Some gs1, [Broadcast gs1])
    ∧ handleToggleActivePlayer (Some gs1) (num n)
      = (Some gs2, [Broadcast gs2])
    ∧ activePlayerId gs2 = num n
    ∧ findPlayer (num n) (players gs2)
      = Some (withAutoDraw enabled
                (if enabled then withHandDeck (hand p ++ [c]) rest p else p)).
Proof.
  intros Hp Hdummy Hdeck Hact.
  unfold handleToggleAutoDraw. rewrite Hp.
  eexists _, _. split; [reflexivity|].
  unfold handleToggleActivePlayer.
  rewrite bool_decide_eq_false_2 by done.
  split; [reflexivity|].
  set (ps1 := updateFound n (withAutoDraw enabled) (players gs)).
  set (gs1 := withPhase (-1) (withActivePlayerId (num n) (withPlayers ps1 gs))).
  destruct (performDrawPhase_frame gs1) as (_ & -> & _).
  split; [done|].
  assert (Hp1 : findPlayer (num n) ps1 = Some (withAutoDraw enabled p)).
  { unfold ps1. rewrite findPlayer_updateFound by done. by rewrite Hp. }
  rewrite performDrawPhase_players. cbn [activePlayerId players gs1 withPhase
    withActivePlayerId withPlayers]. rewrite Hp1.
  cbn [deck withAutoDraw]. rewrite Hdeck.
  unfold shouldDraw. cbn [isDummy autoDrawEnabled player_id withAutoDraw].
  rewrite Hdummy.
  apply findPlayer_Some in Hp as [[= Hn] _].
  destruct enabled; cbn [negb bool_decide]; [|done].
  rewrite bool_decide_eq_false_2 by done. cbn [negb].
  rewrite <- Hn, findPlayer_updateFound by done. by rewrite Hp1.
Qed.

Lemma auto_draw_setting_decides_the_draw_witness :
  findPlayer (num 2) (players midTurn) = Some (seat 2 [inDeck "c"] 0)
  ∧ isDummy (seat 2 [inDeck "c"] 0) = false
  ∧ deck (seat 2 [inDeck "c"] 0) = [inDeck "c"]
  ∧ activePlayerId midTurn ≠ num 2
  ∧ ∃ gs1 gs2,
      handleToggleAutoDraw (Some midTurn) (num 2) (JsBoolean false)
      = (Some gs1, [Broadcast gs1])
      ∧ handleToggleActivePlayer (Some gs1) (num 2)
        = (Some gs2, [Broadcast gs2])
      ∧ activePlayerId gs2 = num 2
      ∧ findPlayer (num 2) (players gs2)
        = Some (withAutoDraw false (seat 2 [inDeck "c"] 0)).
Proof.
  split; [reflexivity|]. split; [reflexivity|]. split; [reflexivity|].
  split; [discriminate|].
  apply (auto_draw_setting_decides_the_draw midTurn 2
           (seat 2 [inDeck "c"] 0) (inDeck "c") [] false);
    [reflexivity|reflexivity|reflexivity|discriminate].
Defined.

(** X14.  The toggle toggles: selecting a player that is not the active
    one makes it the active player and ends in Setup (0); the same
    request again deselects it, leaving no active player ([undefined]),
    and this second request moves no card. *)
Theorem toggle_twice_deselects (gs : GameState) (playerId : Nullable) :
  activePlayerId gs ≠ playerId →
  ∃ gs1 gs2,
    handleToggleActivePlayer (Some gs) playerId = (Some gs1, [Broadcast gs1])
    ∧ activePlayerId gs1 = playerId ∧ currentPhase gs1 = 0
    ∧ handleToggleActivePlayer (Some gs1) playerId
      = (Some gs2, [Broadcast gs2])
    ∧ activePlayerId gs2 = undefined ∧ currentPhase gs2 = 0
    ∧ players gs2 = players gs1.
Proof.
  intros Hact. unfold handleToggleActivePlayer at 1.
  rewrite bool_decide_eq_false_2 by done.
  set (gs1 := performDrawPhase _).
  assert (Hact1 : activePlayerId gs1 = playerId).
  { unfold gs1.
    by destruct (performDrawPhase_frame
                   (withPhase (-1) (withActivePlayerId playerId gs)))
      as (_ & -> & _). }
  assert (Hph1 : currentPhase gs1 = 0) by apply performDrawPhase_Setup.
  eexists gs1, _. split; [reflexivity|]. split; [done|]. split; [done|].
  unfold handleToggleActivePlayer. rewrite bool_decide_eq_true_2 by done.
  split; [reflexivity|].
  destruct (bool_decide _ && _); [|done].
  by destruct (checkRoundEnd _ _).
Qed.

Lemma toggle_twice_deselects_witness :
  activePlayerId midTurn ≠ num 2
  ∧ ∃ gs1 gs2,
      handleToggleActivePlayer (Some midTurn) (num 2)
      = (Some gs1, [Broadcast gs1])
      ∧ activePlayerId gs1 = num 2 ∧ currentPhase gs1 = 0
      ∧ handleToggleActivePlayer (Some gs1) (num 2)
        = (Some gs2, [Broadcast gs2])
      ∧ activePlayerId gs2 = undefined ∧ currentPhase gs2 = 0
      ∧ players gs2 = players gs1.
Proof.
  split; [discriminate|].
  apply (toggle_twice_deselects midTurn (num 2)). discriminate.
Defined.

End TurnTheorems.

(** * Theorems on the ready check and the match start *)
Module MatchStartTheorems.
Import JsValue PhaseManagement ReadyCheck Session SessionFacts Examples.

Lemma withReady_false_id p : isReady p = false → withReady false p = p.
Proof. destruct p. simpl. by intros ->. Qed.

(** X15.  START_READY_CHECK followed by CANCEL_READY_CHECK: the first
    activates the ready check of a match that has not started and clears
    every ready flag, the second deactivates it again with every flag
    still cleared; when no ready check was active and no player was
    ready before, the game state is back to what it was. *)
Theorem ready_check_start_then_cancel (gs : GameState) :
  isGameStarted gs = false →
  ∃ gs1 gs2,
    handleStartReadyCheck (Some gs) = (Some gs1, [Broadcast gs1])
    ∧ isReadyCheckActive gs1 = true
    ∧ Forall (λ p, isReady p = false) (players gs1)
    ∧ handleCancelReadyCheck (Some gs1) = (Some gs2, [Broadcast gs2])
    ∧ isReadyCheckActive gs2 = false
    ∧ Forall (λ p, isReady p = false) (players gs2)
    ∧ (isReadyCheckActive gs = false →
       Forall (λ p, isReady p = false) (players gs) → gs2 = gs).
Proof.
  intros Hst. unfold handleStartReadyCheck. rewrite Hst.
  eexists _, _. split; [reflexivity|]. split; [done|].
  split; [by apply Forall_fmap, Forall_true|].
  unfold handleCancelReadyCheck.
  cbn [isReadyCheckActive withReadyCheck negb].
  split; [reflexivity|]. split; [done|].
  split; [by apply Forall_fmap, Forall_true|].
  intros Hact Hready. cbn [players withReadyCheck].
  assert (Hps : withReady false <$> (withReady false <$> players gs)
                = players gs).
  { rewrite <- list_fmap_compose. rewrite <- (list_fmap_id (players gs)) at 2.
    apply Forall_fmap_ext. eapply Forall_impl; [exact Hready|].
    intros p Hp. simpl. by rewrite !withReady_false_id. }
  rewrite Hps. destruct gs. simpl in *. by subst.
Qed.

Lemma ready_check_start_then_cancel_witness :
  isGameStarted lobby = false
  ∧ ∃ gs1 gs2,
      handleStartReadyCheck (Some lobby) = (Some gs1, [Broadcast gs1])
      ∧ isReadyCheckActive gs1 = true
      ∧ Forall (λ p, isReady p = false) (players gs1)
      ∧ handleCancelReadyCheck (Some gs1) = (Some gs2, [Broadcast gs2])
      ∧ isReadyCheckActive gs2 = false
      ∧ Forall (λ p, isReady p = false) (players gs2)
      ∧ (isReadyCheckActive lobby = false →
         Forall (λ p, isReady p = false) (players lobby) → gs2 = lobby).
Proof.
  split; [reflexivity|]. apply (ready_check_start_then_cancel lobby).
  reflexivity.
Defined.

(** ** Who is ready *)

Lemma elem_of_realPlayers ps q :
  q ∈ realPlayers ps ↔ q ∈ ps ∧ isDummy q = false ∧ isDisconnected q = false.
Proof.
  unfold realPlayers. rewrite list_elem_of_In, List.filter_In.
  rewrite <- list_elem_of_In, andb_true_iff, !negb_true_iff. tauto.
Qed.

Lemma elem_of_connected ps q :
  q ∈ connected ps ↔ q ∈ ps ∧ isDisconnected q = false.
Proof.
  unfold connected. rewrite list_elem_of_In, List.filter_In.
  rewrite <- list_elem_of_In, negb_true_iff. tauto.
Qed.

Lemma allReady_false ps q :
  q ∈ ps → isDummy q = false → isDisconnected q = false →
  isReady q = false → allReady ps = false.
Proof.
  intros Hq Hd Hc Hr. unfold allReady.
  assert (Hall : forallb isReady (realPlayers ps) = false).
  { apply not_true_is_false. intros Hall.
    rewrite forallb_forall in Hall.
    assert (Hin : In q (realPlayers ps)).
    { apply list_elem_of_In, elem_of_realPlayers. done. }
    specialize (Hall q Hin). congruence. }
  rewrite Hall. by rewrite andb_false_r.
Qed.

Lemma handlePlayerReady_session random gs playerId :
  ∃ gs' evs, handlePlayerReady random (Some gs) playerId = (Some gs', evs).
Proof.
  unfold handlePlayerReady.
  destruct (negb _); [by eexists _, _|].
  destruct (isGameStarted gs); [by eexists _, _|].
  destruct (falsy _); [by eexists _, _|].
  destruct playerId; try by eexists _, _.
  destruct (findPlayer _ _); [|by eexists _, _]. cbv zeta.
  destruct (_ && _ && _); [|by eexists _, _].
  destruct (if _ <? 0 then None else _); by eexists _, _.
Qed.

(** X16.  The match waits for every real player: while a player that is
    neither a dummy nor disconnected, and is not the one the request
    names, is not ready, PLAYER_READY does not start the match -- the
    started flag, the phase, the active player, the hands and the decks
    stay as they are. *)
Theorem match_waits_for_every_real_player (random : Q) (gs : GameState)
    (playerId : Nullable) (q : Player) :
  q ∈ players gs → isDummy q = false → isDisconnected q = false →
  isReady q = false → num (player_id q) ≠ playerId →
  ∃ gs' evs,
    handlePlayerReady random (Some gs) playerId = (Some gs', evs)
    ∧ isGameStarted gs' = isGameStarted gs
    ∧ currentPhase gs' = currentPhase gs
    ∧ activePlayerId gs' = activePlayerId gs
    ∧ hand <$> players gs' = hand <$> players gs
    ∧ deck <$> players gs' = deck <$> players gs.
Proof.
  intros Hq Hd Hc Hr Hne.
  destruct (handlePlayerReady_session random gs playerId) as (gs' & evs & E).
  exists gs', evs. split; [exact E|].
  refine (handlePlayerReady_outcome
            (λ gs', isGameStarted gs' = isGameStarted gs
                    ∧ currentPhase gs' = currentPhase gs
                    ∧ activePlayerId gs' = activePlayerId gs
                    ∧ hand <$> players gs' = hand <$> players gs
                    ∧ deck <$> players gs' = deck <$> players gs)
            random gs playerId _ _ gs' evs E); [done|].
  intros n me _ _ -> Hme.
  assert (Hno : allReady (readied n gs) = false).
  { apply (allReady_false _ q); try done.
    apply updateFound_elem; [done|]. congruence. }
  split.
  - intros _. cbn [isGameStarted currentPhase activePlayerId players
                   withPlayers].
    unfold readied. by rewrite !updateFound_fmap.
  - intros Hyes. congruence.
Qed.

Lemma match_waits_for_every_real_player_witness :
  twelveCards ∈ players readyCheck
  ∧ ∃ gs' evs,
      handlePlayerReady 0 (Some readyCheck) (num 2) = (Some gs', evs)
      ∧ isGameStarted gs' = isGameStarted readyCheck
      ∧ currentPhase gs' = currentPhase readyCheck
      ∧ activePlayerId gs' = activePlayerId readyCheck
      ∧ hand <$> players gs' = hand <$> players readyCheck
      ∧ deck <$> players gs' = deck <$> players readyCheck.
Proof.
  split; [apply list_elem_of_here|].
  apply (match_waits_for_every_real_player 0 readyCheck (num 2) twelveCards).
  - apply list_elem_of_here.
  - reflexivity.
  - reflexivity.
  - reflexivity.
  - discriminate.
Defined.

(** ** The start *)

Lemma pick_Some random ps :
  (0 <= random)%Q → (random < 1)%Q → connected ps ≠ [] →
  ∃ first, pick random ps = Some first ∧ first ∈ connected ps.
Proof.
  intros H0 H1 Hne. unfold pick. cbv zeta.
  set (len := length (connected ps)).
  assert (Hlen : (0 < len)%nat).
  { unfold len. destruct (connected ps); simpl; [done|lia]. }
  set (x := (random * inject_Z (Z.of_nat len))%Q).
  assert (Hx0 : (0 <= x)%Q).
  { apply Qmult_le_0_compat; [done|].
    change 0%Q with (inject_Z 0). rewrite <- Zle_Qle. lia. }
  assert (Hx1 : (x < inject_Z (Z.of_nat len))%Q).
  { unfold x. rewrite <- (Qmult_1_l (inject_Z (Z.of_nat len))) at 2.
    apply Qmult_lt_compat_r; [|done].
    change 0%Q with (inject_Z 0). rewrite <- Zlt_Qlt. lia. }
  assert (Hf0 : 0 ≤ Qfloor x).
  { change 0 with (Qfloor (inject_Z 0)). by apply Qfloor_resp_le. }
  assert (Hf1 : Qfloor x < Z.of_nat len).
  { rewrite Zlt_Qlt. eapply Qle_lt_trans; [apply Qfloor_le|done]. }
  destruct (Z.ltb_spec (Qfloor x) 0); [lia|].
  destruct (lookup_lt_is_Some_2 (connected ps) (Z.to_nat (Qfloor x)))
    as [first Hfirst]; [fold len; lia|].
  exists first. split; [done|]. by eapply list_elem_of_lookup_2.
Qed.

Lemma elem_of_updateFound n f ps q :
  NoDup (player_id <$> ps) → q ∈ updateFound n f ps →
  (∃ p0, p0 ∈ ps ∧ player_id p0 = n ∧ q = f p0)
  ∨ (q ∈ ps ∧ player_id q ≠ n).
Proof.
  induction ps as [|p ps IH]; cbn [updateFound]; intros Hnd Hq.
  { by apply elem_of_nil in Hq. }
  rewrite fmap_cons in Hnd. apply NoDup_cons in Hnd as [Hp Hnd].
  destruct (Z.eqb_spec (player_id p) n) as [E|E].
  - apply elem_of_cons in Hq as [->|Hq].
    + left. exists p. split; [apply list_elem_of_here|done].
    + right. split; [by apply list_elem_of_further|].
      intros Hn. apply Hp. rewrite E, <- Hn.
      apply list_elem_of_fmap. by exists q.
  - apply elem_of_cons in Hq as [->|Hq].
    + right. split; [apply list_elem_of_here|done].
    + destruct (IH Hnd Hq) as [(p0 & Hp0 & Hn & ->)|[Hin Hn]].
      * left. exists p0. split; [by apply list_elem_of_further|done].
      * right. split; [by apply list_elem_of_further|done].
Qed.

Lemma drawStartingHands_isDisconnected ps :
  isDisconnected <$> drawStartingHands ps = isDisconnected <$> ps.
Proof.
  unfold drawStartingHands. rewrite <- list_fmap_compose.
  apply list_fmap_ext. intros _ p _. cbn [compose]. unfold drawStartingHand.
  destruct (_ <? _)%nat; [done|]. destruct (negb _); [done|].
  generalize 0%nat. generalize cardsToDraw. intros k. revert p.
  induction k as [|k IH]; intros p i; simpl; [done|].
  destruct (i <? length (deck p))%nat; [|done].
  destruct (deck p); [done|]. by rewrite IH.
Qed.

(** X17.  The last ready player starts the match: during a ready check,
    when the player named by PLAYER_READY is a connected real player,
    every other connected real player is ready, the player ids are
    distinct and [Math.random()] is in [0, 1), the match starts -- the
    ready check is over, the starting player is one of the players of
    the game, is connected and is the active player, the phase is
    Setup (0), the state is broadcast, every player still holds the same
    cards and no player's connection flag has changed. *)
Theorem all_ready_starts_the_match (random : Q) (gs : GameState) (n : Z)
    (me : Player) :
  isReadyCheckActive gs = true → isGameStarted gs = false → n ≠ 0 →
  findPlayer (num n) (players gs) = Some me →
  isDummy me = false → isDisconnected me = false →
  NoDup (player_id <$> players gs) →
  (∀ p, p ∈ players gs → isDummy p = false → isDisconnected p = false →
        player_id p ≠ n → isReady p = true) →
  (0 <= random)%Q → (random < 1)%Q →
  ∃ gs' first,
    handlePlayerReady random (Some gs) (num n) = (Some gs', [Broadcast gs'])
    ∧ isGameStarted gs' = true ∧ isReadyCheckActive gs' = false
    ∧ currentPhase gs' = 0
    ∧ first ∈ players gs ∧ isDisconnected first = false
    ∧ activePlayerId gs' = num (player_id first)
    ∧ startingPlayerId gs' = num (player_id first)
    ∧ holdings gs' = holdings gs
    ∧ isDisconnected <$> players gs' = isDisconnected <$> players gs.
Proof.
  intros Hact Hst Hn Hme Hd Hc Hnd Hothers H0 H1.
  rewrite (handlePlayerReady_found _ _ _ _ Hact Hst Hn Hme).
  pose proof (findPlayer_Some _ _ _ Hme) as [[= Hid] Hin].
  assert (Hme' : withReady true me ∈ readied n gs).
  { unfold readied. apply list_elem_of_In.
    apply (List.find_some (λ p, player_id p =? n)).
    change (findPlayer (num n) (updateFound n (withReady true) (players gs))
            = Some (withReady true me)).
    rewrite findPlayer_updateFound by done. by rewrite Hme. }
  assert (Hready : ∀ q, q ∈ realPlayers (readied n gs) → isReady q = true).
  { intros q (Hq & Hqd & Hqc)%elem_of_realPlayers.
    apply elem_of_updateFound in Hq as [(p0 & _ & _ & ->)|[Hq Hqn]];
      [done| |done].
    by apply Hothers. }
  assert (Hall : allReady (readied n gs) = true).
  { unfold allReady.
    assert (Hreal : withReady true me ∈ realPlayers (readied n gs)).
    { apply elem_of_realPlayers. done. }
    assert (Hlen : (0 < length (realPlayers (readied n gs)))%nat).
    { destruct (realPlayers (readied n gs)); [|simpl; lia].
      by apply elem_of_nil in Hreal. }
    rewrite (proj2 (Nat.ltb_lt _ _) Hlen), (proj2 (Nat.leb_le _ _) Hlen).
    rewrite andb_true_l, andb_true_r. apply forallb_forall.
    intros q Hq%list_elem_of_In. by apply Hready. }
  rewrite Hall.
  destruct (pick_Some random (readied n gs) H0 H1) as (first & Hpick & Hfirst).
  { intros Hnil. assert (Hcon : withReady true me ∈ connected (readied n gs)).
    { apply elem_of_connected. done. }
    rewrite Hnil in Hcon. by apply elem_of_nil in Hcon. }
  rewrite Hpick.
  apply elem_of_connected in Hfirst as [Hfirst Hfc].
  assert (∃ p, p ∈ players gs ∧ isDisconnected p = false
               ∧ player_id p = player_id first) as (p & Hp & Hpc & Hpid).
  { apply elem_of_updateFound in Hfirst as [(p0 & Hp0 & _ & ->)|[Hin' _]];
      [by exists p0|by exists first|done]. }
  exists (performDrawPhase (kickoff gs n first)), p.
  split; [done|].
  destruct (performDrawPhase_frame (kickoff gs n first))
    as (_ & -> & -> & _ & -> & -> & _).
  rewrite performDrawPhase_Setup, performDrawPhase_holdings.
  cbn [activePlayerId startingPlayerId kickoff]. rewrite Hpid.
  rewrite performDrawPhase_players_fmap by done.
  cbn [players kickoff]. rewrite drawStartingHands_isDisconnected.
  repeat split; try done.
  - unfold holdings. cbn [players kickoff].
    rewrite drawStartingHands_holding. unfold readied.
    by apply updateFound_fmap.
  - unfold readied. by apply updateFound_fmap.
Qed.

Lemma all_ready_starts_the_match_witness :
  ∃ gs' first,
    handlePlayerReady (1 # 2) (Some readyCheck) (num 1)
    = (Some gs', [Broadcast gs'])
    ∧ isGameStarted gs' = true ∧ isReadyCheckActive gs' = false
    ∧ currentPhase gs' = 0
    ∧ first ∈ players readyCheck ∧ isDisconnected first = false
    ∧ activePlayerId gs' = num (player_id first)
    ∧ startingPlayerId gs' = num (player_id first)
    ∧ holdings gs' = holdings readyCheck
    ∧ isDisconnected <$> players gs' = isDisconnected <$> players readyCheck.
Proof.
  apply (all_ready_starts_the_match (1 # 2) readyCheck 1 twelveCards).
  - reflexivity.
  - reflexivity.
  - discriminate.
  - reflexivity.
  - reflexivity.
  - reflexivity.
  - apply (bool_decide_unpack _). vm_compute. exact I.
  - intros p Hp _ _ Hid.
    apply elem_of_cons in Hp as [->|Hp]; [done|].
    apply elem_of_cons in Hp as [->|Hp]; [reflexivity|].
    by apply elem_of_nil in Hp.
  - discriminate.
  - reflexivity.
Defined.

(** X18.  The starting hand: a player with an empty hand for whom the
    starting draw applies (a dummy when the host's auto-draw is on, a
    real player unless the own auto-draw is [false]) receives the first
    [min 6 ((n + 1) / 2)] cards of a deck of [n] cards, in deck order,
    and the deck keeps the rest: never more than 6 cards, and 6 exactly
    when the deck holds 11 cards or more. *)
Theorem starting_hand_is_half_the_deck_up_to_six
    (hostAutoDrawEnabled : bool) (p : Player) :
  hand p = [] →
  (isDummy p = true → hostAutoDrawEnabled = true) →
  (isDummy p = false → autoDrawEnabled p ≠ Some false) →
  hand (drawStartingHand hostAutoDrawEnabled p)
  = take (Nat.min 6 (Nat.div2 (S (length (deck p))))) (deck p)
  ∧ deck (drawStartingHand hostAutoDrawEnabled p)
    = drop (Nat.min 6 (Nat.div2 (S (length (deck p))))) (deck p)
  ∧ (length (hand (drawStartingHand hostAutoDrawEnabled p)) ≤ 6)%nat
  ∧ ((11 ≤ length (deck p))%nat →
     length (hand (drawStartingHand hostAutoDrawEnabled p)) = 6%nat).
Proof.
  intros Hhand Hdummy Hreal. unfold drawStartingHand.
  rewrite Hhand. cbn [length Nat.ltb Nat.leb].
  assert (Hdraw : (if isDummy p then hostAutoDrawEnabled
                   else negb (bool_decide (autoDrawEnabled p = Some false)))
                  = true).
  { destruct (isDummy p); [by apply Hdummy|].
    by rewrite bool_decide_eq_false_2 by (by apply Hreal). }
  rewrite Hdraw. cbn [negb].
  destruct (ReadyCheckTheorems.drawLoop_spec cardsToDraw 0 p) as [Hh Hd];
    [lia|].
  unfold ReadyCheckTheorems.drawn, cardsToDraw in *.
  rewrite Nat.sub_0_r, Hhand in *. cbn [app] in Hh.
  split; [exact Hh|]. split; [exact Hd|]. rewrite Hh, length_take.
  split; [lia|]. intros Hlen.
  assert (6 ≤ Nat.div2 (S (length (deck p))))%nat; [|lia].
  rewrite Nat.div2_div. apply Nat.div_le_lower_bound; lia.
Qed.

Lemma starting_hand_is_half_the_deck_up_to_six_witness :
  hand (drawStartingHand false fiveCards)
  = take (Nat.min 6 (Nat.div2 (S (length (deck fiveCards)))))
      (deck fiveCards)
  ∧ deck (drawStartingHand false fiveCards)
    = drop (Nat.min 6 (Nat.div2 (S (length (deck fiveCards)))))
        (deck fiveCards)
  ∧ (length (hand (drawStartingHand false fiveCards)) ≤ 6)%nat
  ∧ ((11 ≤ length (deck fiveCards))%nat →
     length (hand (drawStartingHand false fiveCards)) = 6%nat).
Proof.
  apply (starting_hand_is_half_the_deck_up_to_six false fiveCards).
  - reflexivity.
  - intros H. discriminate H.
  - intros _ H. discriminate H.
Defined.

(** ** The answer to a request *)

Lemma allReady_connected ps : allReady ps = true → connected ps ≠ [].
Proof.
  unfold allReady. intros H.
  apply andb_true_iff in H as [H _]. apply andb_true_iff in H as [H _].
  apply Nat.ltb_lt in H.
  destruct (realPlayers ps) as [|q qs] eqn:Hreal; [simpl in H; lia|].
  assert (Hq : q ∈ realPlayers ps) by (rewrite Hreal; apply list_elem_of_here).
  apply elem_of_realPlayers in Hq as (Hq & _ & Hc).
  intros Hnil. assert (Hin : q ∈ connected ps) by (by apply elem_of_connected).
  rewrite Hnil in Hin. by apply elem_of_nil in Hin.
Qed.

(** X29.  A request is answered in one of three ways: by one broadcast,
    of the very state the handler leaves behind; by nothing, the state
    being left as it was; or by one error, the state being left as it
    was -- a rejected request changes nothing.  ([Math.random()] is in
    [0, 1).) *)
Theorem requests_are_answered_atomically (stn : string → JsNumber)
    (req : Request) (gs : GameState) :
  (∀ random playerId, req = PLAYER_READY random playerId →
     (0 <= random)%Q ∧ (random < 1)%Q) →
  handle stn req (Some gs)
  = (Some (after stn req gs), [Broadcast (after stn req gs)])
  ∨ handle stn req (Some gs) = (Some gs, [])
  ∨ ∃ message, handle stn req (Some gs) = (Some gs, [ERROR message]).
Proof.
  intros Hrandom. unfold after.
  destruct req; cbn [handle].
  - unfold handleToggleAutoAbilities.
    destruct enabled; try (right; right; by eexists). by left.
  - unfold handleToggleAutoDraw.
    destruct enabled; try (right; right; by eexists).
    destruct playerId; try (right; right; by eexists).
    destruct (findPlayer _ _); [by left|right; right; by eexists].
  - by left.
  - unfold handleNextPhase.
    destruct (negb _); [right; right; by eexists|by left].
  - unfold handlePrevPhase.
    destruct (negb _); [right; right; by eexists|by left].
  - unfold handleSetPhase.
    destruct (negb _); [right; right; by eexists|].
    destruct (_ || _); [right; right; by eexists|].
    destruct (_ || _); [right; right; by eexists|by left].
  - unfold handleStartNextRound.
    destruct (negb _); [right; right; by eexists|by left].
  - by left.
  - unfold handleStartReadyCheck.
    destruct (isGameStarted gs); [right; right; by eexists|by left].
  - unfold handleCancelReadyCheck.
    destruct (negb _); [right; by left|by left].
  - destruct (Hrandom random playerId eq_refl) as [H0 H1].
    destruct (isReadyCheckActive gs) eqn:Hact.
    2:{ unfold handlePlayerReady. rewrite Hact. right; right; by eexists. }
    destruct (isGameStarted gs) eqn:Hst.
    { unfold handlePlayerReady. rewrite Hact, Hst. right; by left. }
    destruct (falsy playerId) eqn:Hfalsy.
    { unfold handlePlayerReady. rewrite Hact, Hst, Hfalsy.
      right; right; by eexists. }
    destruct playerId as [| |n]; try done.
    destruct (findPlayer (num n) (players gs)) as [me|] eqn:Hme.
    2:{ unfold handlePlayerReady. rewrite Hact, Hst, Hfalsy, Hme.
        right; right; by eexists. }
    assert (Hn : n ≠ 0) by (by intros ->).
    rewrite (handlePlayerReady_found _ _ _ _ Hact Hst Hn Hme).
    destruct (allReady (readied n gs)) eqn:Hall; [|by left].
    destruct (pick_Some random (readied n gs) H0 H1) as (first & -> & _);
      [by apply allReady_connected|].
    by left.
Qed.

Lemma requests_are_answered_atomically_witness :
  handle noNumericString (PLAYER_READY (1 # 2) (num 1)) (Some readyCheck)
  = (Some (after noNumericString (PLAYER_READY (1 # 2) (num 1)) readyCheck),
     [Broadcast
        (after noNumericString (PLAYER_READY (1 # 2) (num 1)) readyCheck)])
  ∨ handle noNumericString (PLAYER_READY (1 # 2) (num 1)) (Some readyCheck)
    = (Some readyCheck, [])
  ∨ ∃ message,
      handle noNumericString (PLAYER_READY (1 # 2) (num 1)) (Some readyCheck)
      = (Some readyCheck, [ERROR message]).
Proof.
  apply (requests_are_answered_atomically noNumericString
           (PLAYER_READY (1 # 2) (num 1)) readyCheck).
  intros random playerId [= <- _]. split; [discriminate|reflexivity].
Defined.

End MatchStartTheorems.

(** * Theorems on the recomputed board *)
Module BoardTheorems.
Import BoardUtils BoardFacts StatusFacts Examples.

Lemma recomputed_card gs b' r c cd :
  recalculateBoardStatuses gs = Some b' →
  cardAt (board gs) r c = Some cd →
  cardAt b' r c = Some (finalCard gs r c cd).
Proof.
  intros Hre Hcd. by rewrite (recalculateBoardStatuses_cardAt _ _ _ _ Hre), Hcd.
Qed.

(** X19.  The recomputation keeps the cards: the board keeps its
    dimensions, an empty cell stays empty, and a card stays on its cell
    with the same id, base id, owner, face, power and, in their order,
    the same statuses other than Support and Threat (Stun among them);
    the cells outside the square of side [board.length] are not touched
    at all. *)
Theorem recompute_keeps_the_cards (gs : GameState) (b' : Board) :
  recalculateBoardStatuses gs = Some b' →
  shape b' = shape (board gs)
  ∧ (∀ r c, cardAt (board gs) r c = None → cardAt b' r c = None)
  ∧ (∀ r c cd, cardAt (board gs) r c = Some cd →
       ∃ cd', cardAt b' r c = Some cd'
         ∧ card_id cd' = card_id cd ∧ baseId cd' = baseId cd
         ∧ ownerId cd' = ownerId cd ∧ isFaceDown cd' = isFaceDown cd
         ∧ power cd' = power cd
         ∧ List.filter notAuto (default [] (statuses cd'))
           = List.filter notAuto (default [] (statuses cd)))
  ∧ (∀ r c, ¬ (r < length (board gs) ∧ c < length (board gs))%nat →
       cardAt b' r c = cardAt (board gs) r c).
Proof.
  intros Hre. split; [by apply recalculateBoardStatuses_shape|].
  split; [|split].
  - intros r c Hnone.
    by rewrite (recalculateBoardStatuses_cardAt _ _ _ _ Hre), Hnone.
  - intros r c cd Hcd. exists (finalCard gs r c cd).
    split; [by apply recomputed_card|].
    destruct (decide (r < length (board gs) ∧ c < length (board gs))%nat)
      as [[Hr Hc]|Hout].
    + rewrite finalCard_statuses by done.
      rewrite finalCard_inside by done. cbn [card_id baseId ownerId isFaceDown
        power setDerived].
      repeat split.
      rewrite List.filter_app, filter_notAuto_idem.
      rewrite filter_notAuto_foldl by apply finalOps_auto.
      apply app_nil_r.
    + by rewrite finalCard_outside.
  - intros r c Hout.
    rewrite (recalculateBoardStatuses_cardAt _ _ _ _ Hre).
    destruct (cardAt (board gs) r c) as [cd|]; [|done]. simpl.
    by rewrite finalCard_outside.
Qed.

Lemma recompute_keeps_the_cards_witness :
  ∃ b', recalculateBoardStatuses twoEnemies = Some b'
  ∧ shape b' = shape (board twoEnemies)
  ∧ (∀ r c, cardAt (board twoEnemies) r c = None → cardAt b' r c = None)
  ∧ (∀ r c cd, cardAt (board twoEnemies) r c = Some cd →
       ∃ cd', cardAt b' r c = Some cd'
         ∧ card_id cd' = card_id cd ∧ baseId cd' = baseId cd
         ∧ ownerId cd' = ownerId cd ∧ isFaceDown cd' = isFaceDown cd
         ∧ power cd' = power cd
         ∧ List.filter notAuto (default [] (statuses cd'))
           = List.filter notAuto (default [] (statuses cd)))
  ∧ (∀ r c, ¬ (r < length (board twoEnemies)
               ∧ c < length (board twoEnemies))%nat →
       cardAt b' r c = cardAt (board twoEnemies) r c).
Proof.
  eexists. split; [vm_compute; reflexivity|].
  apply (recompute_keeps_the_cards twoEnemies). vm_compute; reflexivity.
Defined.

Lemma createInitialBoard_empty r c : cardAt createInitialBoard r c = None.
Proof.
  do 7 (destruct r as [|r];
        [do 7 (destruct c as [|c]; [reflexivity|]); reflexivity|]).
  reflexivity.
Qed.

(** X20.  A board without cards -- the initial 7x7 board of
    [createInitialBoard] for one -- is returned as it is, whatever the
    players, the grid size and the phase are. *)
Theorem board_without_cards_is_unchanged (gs : GameState) :
  rowsCoverGrid (board gs) = true →
  (∀ r c, cardAt (board gs) r c = None) →
  recalculateBoardStatuses gs = Some (board gs).
Proof.
  intros Hcover Hempty.
  destruct (recalculateBoardStatuses_Some _ Hcover) as [b' Hre].
  rewrite Hre. f_equal. apply board_ext.
  - by apply recalculateBoardStatuses_shape.
  - intros r c. by rewrite (recalculateBoardStatuses_cardAt _ _ _ _ Hre), Hempty.
Qed.

Lemma board_without_cards_is_unchanged_witness :
  recalculateBoardStatuses (skirmish createInitialBoard)
  = Some (board (skirmish createInitialBoard)).
Proof.
  apply (board_without_cards_is_unchanged (skirmish createInitialBoard)).
  - reflexivity.
  - apply createInitialBoard_empty.
Defined.

(** X21.  A card that lies face down or has no owner takes no part: on
    its cell the recomputation leaves the card reset -- Support, Threat
    and the bonus power removed -- and adds nothing. *)
Theorem hidden_cards_are_only_reset (gs : GameState) (b' : Board)
    (r c : nat) (cd : Card) :
  recalculateBoardStatuses gs = Some b' →
  (r < length (board gs))%nat → (c < length (board gs))%nat →
  cardAt (board gs) r c = Some cd →
  isFaceDown cd = true ∨ ownerId cd = None →
  cardAt b' r c = Some (resetCard cd).
Proof.
  intros Hre Hr Hc Hcd Hhidden.
  rewrite (recomputed_card _ _ _ _ _ Hre Hcd). f_equal.
  rewrite finalCard_inside, resetCard_setDerived by done.
  assert (Hops : finalOps gs r c cd = []).
  { unfold finalOps, opsD, opsR.
    destruct (ownerId cd) as [o|]; [|done].
    destruct Hhidden as [->|]; done. }
  assert (Hbonus : finalBonus gs r c cd = None).
  { unfold finalBonus, bonusHits.
    destruct (ownerId cd) as [o|]; [|done].
    destruct Hhidden as [->|]; done. }
  by rewrite Hops, Hbonus.
Qed.

Lemma hidden_cards_are_only_reset_witness :
  ∃ b', recalculateBoardStatuses hiddenCard = Some b'
  ∧ cardAt b' 1 1 = Some (resetCard staleCard).
Proof.
  eexists. split; [vm_compute; reflexivity|].
  apply (hidden_cards_are_only_reset hiddenCard).
  - vm_compute; reflexivity.
  - simpl; lia.
  - simpl; lia.
  - vm_compute; reflexivity.
  - by left.
Defined.

(** X22.  After the recomputation a card holds at most one Support and
    at most one Threat status, however many the card held before and
    however many neighbors and heroes grant them. *)
Theorem recompute_grants_each_status_once (gs : GameState) (b' : Board)
    (r c : nat) (cd' : Card) :
  recalculateBoardStatuses gs = Some b' →
  (r < length (board gs))%nat → (c < length (board gs))%nat →
  cardAt b' r c = Some cd' →
  (countType "Support" (default [] (statuses cd')) ≤ 1)%nat
  ∧ (countType "Threat" (default [] (statuses cd')) ≤ 1)%nat.
Proof.
  intros Hre Hr Hc Hcd'.
  rewrite (recalculateBoardStatuses_cardAt _ _ _ _ Hre) in Hcd'.
  destruct (cardAt (board gs) r c) as [cd|]; [|done].
  injection Hcd' as <-. rewrite finalCard_statuses by done.
  assert (Hone : ∀ ty, isAutoTy ty = true →
            (countType ty
               (List.filter notAuto (default [] (statuses cd))
                ++ foldl pushAcc [] (finalOps gs r c cd)) ≤ 1)%nat).
  { intros ty Hty. rewrite countType_app.
    rewrite (countType_zero ty (List.filter _ _))
      by (by apply hasType_auto_clean).
    apply (countType_foldl_pushAcc ty _ []). cbn. lia. }
  split; by apply Hone.
Qed.

Lemma recompute_grants_each_status_once_witness :
  ∃ b' cd', recalculateBoardStatuses loneReverend = Some b'
  ∧ cardAt b' 0 0 = Some cd'
  ∧ (countType "Support" (default [] (statuses cd')) ≤ 1)%nat
  ∧ (countType "Threat" (default [] (statuses cd')) ≤ 1)%nat.
Proof.
  eexists _, _. split; [vm_compute; reflexivity|].
  split; [vm_compute; reflexivity|].
  eapply (recompute_grants_each_status_once loneReverend _ 0 0).
  - vm_compute; reflexivity.
  - simpl; lia.
  - simpl; lia.
  - vm_compute; reflexivity.
Defined.

(** ** Support *)

Lemma finalOps_face_up gs r c cd o :
  ownerId cd = Some o → isFaceDown cd = false →
  finalOps gs r c cd
  = (if hasFriendlyNeighbor
          (scanNeighbors (length (board gs)) (playerTeamMap (players gs))
             (board gs) o r c)
     then [("Support"%string, o)] else [])
    ++ match threateningPlayerId (length (board gs)) (activeGridSize gs)
               (enemyNeighborsByPlayer
                  (scanNeighbors (length (board gs))
                     (playerTeamMap (players gs)) (board gs) o r c)) r c with
       | Some t => [("Threat"%string, t)]
       | None => []
       end
    ++ replicate
         (lineHits (length (board gs)) ∅ ∅
            (collectHeroes HERO_REVEREND_ID (length (board gs)) (board gs))
            r c o)
         ("Support"%string, o).
Proof.
  intros Ho Hf. unfold finalOps, opsD, opsR. rewrite Ho, Hf.
  by rewrite <- app_assoc.
Qed.

Lemma elem_of_final_statuses gs r c cd s :
  (r < length (board gs))%nat → (c < length (board gs))%nat →
  s ∈ default [] (statuses (finalCard gs r c cd)) → isAuto s = true →
  (type s, addedByPlayerId s) ∈ finalOps gs r c cd.
Proof.
  intros Hr Hc Hs Hauto. rewrite finalCard_statuses in Hs by done.
  apply elem_of_app in Hs as [Hs|Hs].
  - apply list_elem_of_In, List.filter_In in Hs as [_ Hs].
    unfold notAuto in Hs. by rewrite Hauto in Hs.
  - apply elem_of_foldl_pushAcc in Hs as [Hs|Hs]; [|done].
    by apply elem_of_nil in Hs.
Qed.

Lemma final_statuses_have gs r c cd ty :
  (r < length (board gs))%nat → (c < length (board gs))%nat →
  isAutoTy ty = true →
  existsb (hasType ty) (default [] (statuses (finalCard gs r c cd)))
  = existsb (λ op, String.eqb op.1 ty) (finalOps gs r c cd).
Proof.
  intros Hr Hc Hty. rewrite finalCard_statuses by done.
  rewrite existsb_app, hasType_auto_clean by done.
  by rewrite hasType_foldl_pushAcc.
Qed.

Lemma existsb_hasType ty l :
  existsb (hasType ty) l = true ↔ ∃ s, s ∈ l ∧ type s = ty.
Proof.
  rewrite existsb_exists. split.
  - intros (s & Hin & Hs). exists s. split; [by apply list_elem_of_In|].
    by apply hasType_true.
  - intros (s & Hin & Hs). exists s. split; [by apply list_elem_of_In|].
    by apply hasType_true.
Qed.

(** X23.  Who gets Support: a face-up card with an owner holds a Support
    status after the recomputation exactly when one of its four neighbors
    is a face-up, not stunned card of the same player or of the same
    team, or a Reverend of its owner that is face-up and not stunned
    stands in its row or in its column; the status is attributed to the
    owner of the card. *)
Theorem support_iff_friend_or_reverend (gs : GameState) (b' : Board)
    (r c : nat) (cd : Card) (o : Z) :
  recalculateBoardStatuses gs = Some b' →
  (r < length (board gs))%nat → (c < length (board gs))%nat →
  cardAt (board gs) r c = Some cd →
  ownerId cd = Some o → isFaceDown cd = false →
  ∃ cd', cardAt b' r c = Some cd'
    ∧ ((∃ s, s ∈ default [] (statuses cd') ∧ type s = "Support"%string)
       ↔ (∃ pos, pos ∈ neighborsPos r c
                 ∧ friendAt (length (board gs)) (playerTeamMap (players gs))
                     (board gs) o pos = true)
         ∨ heroInRow HERO_REVEREND_ID (length (board gs)) (board gs) r o
         ∨ heroInCol HERO_REVEREND_ID (length (board gs)) (board gs) c o)
    ∧ (∀ s, s ∈ default [] (statuses cd') → type s = "Support"%string →
            addedByPlayerId s = o).
Proof.
  intros Hre Hr Hc Hcd Ho Hf. exists (finalCard gs r c cd).
  split; [by apply recomputed_card|]. split.
  - rewrite <- existsb_hasType, final_statuses_have by done.
    rewrite (finalOps_face_up _ _ _ _ o), !existsb_app by done.
    rewrite scanNeighbors_friendly.
    set (n := length (board gs)).
    set (hits := lineHits n ∅ ∅ (collectHeroes HERO_REVEREND_ID n (board gs))
                   r c o).
    assert (Hthreat : existsb (λ op : string * Z, String.eqb op.1 "Support")
              match threateningPlayerId n (activeGridSize gs)
                      (enemyNeighborsByPlayer
                         (scanNeighbors n (playerTeamMap (players gs))
                            (board gs) o r c)) r c with
              | Some t => [("Threat"%string, t)]
              | None => []
              end = false).
    { by destruct (threateningPlayerId _ _ _ _ _). }
    rewrite Hthreat, orb_false_l.
    assert (Hrev : existsb (λ op : string * Z, String.eqb op.1 "Support")
                     (replicate hits ("Support"%string, o)) = true
                   ↔ heroInRow HERO_REVEREND_ID n (board gs) r o
                     ∨ heroInCol HERO_REVEREND_ID n (board gs) c o).
    { unfold hits, lineHits.
      destruct (rowHits_spec HERO_REVEREND_ID n (board gs) r c o)
        as [[-> Hrow]|[-> Hrow]]; try done;
        destruct (colHits_spec HERO_REVEREND_ID n (board gs) r c o)
          as [[-> Hcol]|[-> Hcol]]; try done; simpl; intuition done. }
    assert (Hfriend : existsb (friendAt n (playerTeamMap (players gs))
                                 (board gs) o) (neighborsPos r c) = true
                      ↔ ∃ pos, pos ∈ neighborsPos r c
                               ∧ friendAt n (playerTeamMap (players gs))
                                   (board gs) o pos = true).
    { rewrite existsb_exists. split.
      - intros (pos & Hin & Hp). exists pos. by rewrite list_elem_of_In.
      - intros (pos & Hin & Hp). exists pos. by rewrite <- list_elem_of_In. }
    rewrite <- Hfriend, <- Hrev.
    destruct (existsb (friendAt _ _ _ _) _); simpl.
    + split; [by left|done].
    + split; [by right|]. by intros [|].
  - intros s Hs Hty.
    assert (Hauto : isAuto s = true).
    { unfold isAuto, hasType. by rewrite Hty. }
    pose proof (elem_of_final_statuses _ _ _ _ _ Hr Hc Hs Hauto) as Hop.
    rewrite (finalOps_face_up _ _ _ _ o), Hty in Hop by done.
    rewrite !elem_of_app in Hop. destruct Hop as [Hop|[Hop|Hop]].
    + destruct (hasFriendlyNeighbor _); [|by apply elem_of_nil in Hop].
      apply list_elem_of_singleton in Hop. congruence.
    + destruct (threateningPlayerId _ _ _ _ _);
        [|by apply elem_of_nil in Hop].
      apply list_elem_of_singleton in Hop. congruence.
    + apply elem_of_replicate in Hop as [Hop _]. congruence.
Qed.

Lemma support_iff_friend_or_reverend_witness :
  ∃ b', recalculateBoardStatuses loneReverend = Some b'
  ∧ ∃ cd', cardAt b' 0 0 = Some cd'
    ∧ ((∃ s, s ∈ default [] (statuses cd') ∧ type s = "Support"%string)
       ↔ (∃ pos, pos ∈ neighborsPos 0 0
                 ∧ friendAt (length (board loneReverend))
                     (playerTeamMap (players loneReverend))
                     (board loneReverend) 1 pos = true)
         ∨ heroInRow HERO_REVEREND_ID (length (board loneReverend))
             (board loneReverend) 0 1
         ∨ heroInCol HERO_REVEREND_ID (length (board loneReverend))
             (board loneReverend) 0 1)
    ∧ (∀ s, s ∈ default [] (statuses cd') → type s = "Support"%string →
            addedByPlayerId s = 1).
Proof.
  eexists. split; [vm_compute; reflexivity|].
  apply (support_iff_friend_or_reverend loneReverend _ 0 0
           (unit_ "rev" HERO_REVEREND_ID 1) 1).
  - vm_compute; reflexivity.
  - simpl; lia.
  - simpl; lia.
  - vm_compute; reflexivity.
  - reflexivity.
  - reflexivity.
Defined.

(** ** Threat *)

Lemma threat_op gs r c cd o t :
  ownerId cd = Some o → isFaceDown cd = false →
  ("Threat"%string, t) ∈ finalOps gs r c cd →
  threateningPlayerId (length (board gs)) (activeGridSize gs)
    (enemyNeighborsByPlayer
       (scanNeighbors (length (board gs)) (playerTeamMap (players gs))
          (board gs) o r c)) r c = Some t.
Proof.
  intros Ho Hf. rewrite (finalOps_face_up _ _ _ _ o) by done.
  rewrite !elem_of_app. intros [Hop|[Hop|Hop]].
  - destruct (hasFriendlyNeighbor _); [|by apply elem_of_nil in Hop].
    by apply list_elem_of_singleton in Hop.
  - destruct (threateningPlayerId _ _ _ _ _);
      [|by apply elem_of_nil in Hop].
    apply list_elem_of_singleton in Hop. congruence.
  - by apply elem_of_replicate in Hop as [Hop _].
Qed.

Lemma isAuto_Threat s : type s = "Threat"%string → isAuto s = true.
Proof. intros Hty. unfold isAuto, hasType. by rewrite Hty. Qed.

(** X24.  A Threat names an enemy next to the card: whenever a card
    with an owner holds a Threat status after the recomputation, the
    player the status is attributed to owns one of the four neighbors of
    the card, and that neighbor is face-up, not stunned and neither of
    the card's owner nor of the owner's team. *)
Theorem threat_names_an_enemy_neighbor (gs : GameState) (b' : Board)
    (r c : nat) (cd cd' : Card) (o : Z) (s : Status) :
  recalculateBoardStatuses gs = Some b' →
  (r < length (board gs))%nat → (c < length (board gs))%nat →
  cardAt (board gs) r c = Some cd → ownerId cd = Some o →
  cardAt b' r c = Some cd' →
  s ∈ default [] (statuses cd') → type s = "Threat"%string →
  isFaceDown cd = false
  ∧ ∃ pos, pos ∈ neighborsPos r c
           ∧ enemyAt (length (board gs)) (playerTeamMap (players gs))
               (board gs) o pos = Some (addedByPlayerId s).
Proof.
  intros Hre Hr Hc Hcd Ho Hcd' Hs Hty.
  rewrite (recomputed_card _ _ _ _ _ Hre Hcd) in Hcd'. injection Hcd' as <-.
  pose proof (elem_of_final_statuses _ _ _ _ _ Hr Hc Hs (isAuto_Threat _ Hty))
    as Hop.
  rewrite Hty in Hop.
  destruct (isFaceDown cd) eqn:Hf.
  { unfold finalOps, opsD, opsR in Hop. rewrite Ho, Hf in Hop.
    by apply elem_of_nil in Hop. }
  split; [done|].
  apply (threat_op _ _ _ _ o) in Hop; [|done..].
  apply threateningPlayerId_Some, scan_keys in Hop.
  unfold enemyOwners in Hop. apply list_elem_of_omap in Hop.
  destruct Hop as (pos & Hpos & Hen). by exists pos.
Qed.

Lemma threat_names_an_enemy_neighbor_witness :
  ∃ b', recalculateBoardStatuses twoEnemies = Some b'
  ∧ cardAt b' 1 0
    = Some (mkCard "mid" (Some "riotAgent"%string) (Some 1) false 2 None
              (Some [mkStatus "Threat" 2]))
  ∧ isFaceDown (unit_ "mid" "riotAgent" 1) = false
  ∧ ∃ pos, pos ∈ neighborsPos 1 0
           ∧ enemyAt (length (board twoEnemies))
               (playerTeamMap (players twoEnemies))
               (board twoEnemies) 1 pos
             = Some (addedByPlayerId (mkStatus "Threat" 2)).
Proof.
  eexists. split; [vm_compute; reflexivity|].
  split; [vm_compute; reflexivity|].
  eapply (threat_names_an_enemy_neighbor twoEnemies _ 1 0
            (unit_ "mid" "riotAgent" 1)
            (mkCard "mid" (Some "riotAgent"%string) (Some 1) false 2 None
               (Some [mkStatus "Threat" 2]))
            1 (mkStatus "Threat" 2)).
  - vm_compute; reflexivity.
  - simpl; lia.
  - simpl; lia.
  - vm_compute; reflexivity.
  - reflexivity.
  - vm_compute; reflexivity.
  - apply list_elem_of_here.
  - reflexivity.
Defined.

Lemma threat_pushed gs r c cd o t :
  (r < length (board gs))%nat → (c < length (board gs))%nat →
  ownerId cd = Some o → isFaceDown cd = false →
  threateningPlayerId (length (board gs)) (activeGridSize gs)
    (enemyNeighborsByPlayer
       (scanNeighbors (length (board gs)) (playerTeamMap (players gs))
          (board gs) o r c)) r c = Some t →
  mkStatus "Threat" t ∈ default [] (statuses (finalCard gs r c cd))
  ∧ ∀ s, s ∈ default [] (statuses (finalCard gs r c cd)) →
         type s = "Threat"%string → addedByPlayerId s = t.
Proof.
  intros Hr Hc Ho Hf Hthreat.
  assert (Honly : ∀ s, s ∈ default [] (statuses (finalCard gs r c cd)) →
                       type s = "Threat"%string → addedByPlayerId s = t).
  { intros s Hs Hty.
    pose proof (elem_of_final_statuses _ _ _ _ _ Hr Hc Hs
                  (isAuto_Threat _ Hty)) as Hop.
    rewrite Hty in Hop. apply (threat_op _ _ _ _ o) in Hop; [|done..].
    congruence. }
  split; [|done].
  assert (Hex : existsb (hasType "Threat")
                  (default [] (statuses (finalCard gs r c cd))) = true).
  { rewrite final_statuses_have by done.
    rewrite (finalOps_face_up _ _ _ _ o), Hthreat, !existsb_app by done.
    simpl. by rewrite orb_true_r. }
  apply existsb_hasType in Hex as (s & Hs & Hty).
  pose proof (Honly s Hs Hty) as Hby.
  destruct s as [ty w]. simpl in *. by subst.
Qed.

(** X25.  The pincer: a face-up card with an owner that has two
    neighbors of the same enemy player -- face-up, not stunned cards of a
    player that is neither its owner nor of its owner's team -- holds a
    Threat after the recomputation, attributed to an enemy player with
    two such neighbors, wherever the card lies: the active grid plays no
    part. *)
Theorem pincer_threatens_anywhere (gs : GameState) (b' : Board)
    (r c : nat) (cd : Card) (o q : Z) :
  recalculateBoardStatuses gs = Some b' →
  (r < length (board gs))%nat → (c < length (board gs))%nat →
  cardAt (board gs) r c = Some cd →
  ownerId cd = Some o → isFaceDown cd = false →
  (2 ≤ occurrences q
         (enemyOwners (length (board gs)) (playerTeamMap (players gs))
            (board gs) o r c))%nat →
  ∃ cd' t,
    cardAt b' r c = Some cd'
    ∧ mkStatus "Threat" t ∈ default [] (statuses cd')
    ∧ (2 ≤ occurrences t
             (enemyOwners (length (board gs)) (playerTeamMap (players gs))
                (board gs) o r c))%nat
    ∧ ∀ s, s ∈ default [] (statuses cd') → type s = "Threat"%string →
           addedByPlayerId s = t.
Proof.
  intros Hre Hr Hc Hcd Ho Hf Hq.
  set (n := length (board gs)) in *.
  set (m := playerTeamMap (players gs)) in *.
  set (e := enemyNeighborsByPlayer (scanNeighbors n m (board gs) o r c)).
  assert (He : e = foldl (addEnemy n m (board gs) o) JsObject.empty
                     (neighborsPos r c)) by apply scanNeighbors_enemies.
  pose proof (enemies_count n m (board gs) o (neighborsPos r c) q) as Hcount.
  rewrite <- He in Hcount. fold (enemyOwners n m (board gs) o r c) in Hcount.
  destruct (JsObject.get e q) as [l|] eqn:Hget;
    cbn [default from_option id length] in Hcount; [|lia].
  destruct (pinnedBy_is_Some e q l) as [t Hpin];
    [by apply JsObjectFacts.get_Some_elem|lia|].
  pose proof (pinnedBy_Some _ _ Hpin) as (l' & Hin & Hl').
  destruct (enemies_invariant n m (board gs) o (neighborsPos r c))
    as (_ & _ & Hall).
  rewrite <- He in Hall. rewrite Forall_forall in Hall.
  specialize (Hall _ Hin). cbn [fst snd] in Hall.
  fold (enemyOwners n m (board gs) o r c) in Hall.
  assert (Hthreat : threateningPlayerId n (activeGridSize gs) e r c = Some t).
  { unfold threateningPlayerId. by rewrite Hpin. }
  destruct (threat_pushed gs r c cd o t Hr Hc Ho Hf Hthreat) as [Hhas Honly].
  exists (finalCard gs r c cd), t.
  split; [by apply recomputed_card|]. split; [done|]. split; [lia|done].
Qed.

Lemma pincer_threatens_anywhere_witness :
  ∃ b', recalculateBoardStatuses pincer = Some b'
  ∧ ∃ cd' t,
      cardAt b' 1 3 = Some cd'
      ∧ mkStatus "Threat" t ∈ default [] (statuses cd')
      ∧ (2 ≤ occurrences t
               (enemyOwners (length (board pincer))
                  (playerTeamMap (players pincer)) (board pincer) 1 1 3))%nat
      ∧ ∀ s, s ∈ default [] (statuses cd') → type s = "Threat"%string →
             addedByPlayerId s = t.
Proof.
  eexists. split; [vm_compute; reflexivity|].
  apply (pincer_threatens_anywhere pincer
           _ 1 3 (unit_ "mid" "riotAgent" 1) 1 2).
  - vm_compute; reflexivity.
  - simpl; lia.
  - simpl; lia.
  - vm_compute; reflexivity.
  - reflexivity.
  - reflexivity.
  - vm_compute. lia.
Defined.

(** X26.  No Threat without a pincer or a border: a card with an owner
    no two of whose enemy neighbors belong to the same player holds no
    Threat after the recomputation when it has no enemy neighbor at all,
    or lies outside the active grid, or lies inside it but not on its
    outer edge. *)
Theorem no_threat_without_pincer_or_border (gs : GameState) (b' : Board)
    (r c : nat) (cd : Card) (o : Z) :
  recalculateBoardStatuses gs = Some b' →
  (r < length (board gs))%nat → (c < length (board gs))%nat →
  cardAt (board gs) r c = Some cd → ownerId cd = Some o →
  NoDup (enemyOwners (length (board gs)) (playerTeamMap (players gs))
           (board gs) o r c) →
  enemyOwners (length (board gs)) (playerTeamMap (players gs))
    (board gs) o r c = []
  ∨ isActiveCell (length (board gs)) (activeGridSize gs) r c = false
  ∨ isCardOnEdge (length (board gs)) (activeGridSize gs) r c = false →
  ∃ cd', cardAt b' r c = Some cd'
    ∧ ∀ s, s ∈ default [] (statuses cd') → type s ≠ "Threat"%string.
Proof.
  intros Hre Hr Hc Hcd Ho Hnd Hwhy.
  exists (finalCard gs r c cd). split; [by apply recomputed_card|].
  intros s Hs Hty.
  pose proof (elem_of_final_statuses _ _ _ _ _ Hr Hc Hs (isAuto_Threat _ Hty))
    as Hop.
  rewrite Hty in Hop.
  destruct (isFaceDown cd) eqn:Hf.
  { unfold finalOps, opsD, opsR in Hop. rewrite Ho, Hf in Hop.
    by apply elem_of_nil in Hop. }
  apply (threat_op _ _ _ _ o) in Hop; [|done..].
  set (n := length (board gs)) in *.
  set (m := playerTeamMap (players gs)) in *.
  set (e := enemyNeighborsByPlayer (scanNeighbors n m (board gs) o r c)) in *.
  assert (He : e = foldl (addEnemy n m (board gs) o) JsObject.empty
                     (neighborsPos r c)) by apply scanNeighbors_enemies.
  destruct (enemies_invariant n m (board gs) o (neighborsPos r c))
    as (_ & _ & Hall).
  rewrite <- He in Hall. fold (enemyOwners n m (board gs) o r c) in Hall.
  assert (Hpin : pinnedBy e = None) by (by eapply pinnedBy_None).
  unfold threateningPlayerId, borderThreat in Hop. rewrite Hpin in Hop.
  destruct Hwhy as [Hnone|[Hact|Hedge]].
  - assert (Hkeys : JsObject.keys e = []).
    { destruct (JsObject.keys e) as [|k ks] eqn:Hks; [done|].
      assert (Hk : k ∈ enemyOwners n m (board gs) o r c).
      { apply scan_keys. fold e. rewrite Hks. apply list_elem_of_here. }
      rewrite Hnone in Hk. by apply elem_of_nil in Hk. }
    rewrite Hkeys in Hop. destruct (isActiveCell _ _ _ _); [|done].
    by destruct (_ && _).
  - by rewrite Hact in Hop.
  - rewrite Hedge in Hop. by destruct (isActiveCell _ _ _ _).
Qed.

Lemma no_threat_without_pincer_or_border_witness :
  ∃ b', recalculateBoardStatuses innerEnemy = Some b'
  ∧ ∃ cd', cardAt b' 3 3 = Some cd'
    ∧ ∀ s, s ∈ default [] (statuses cd') → type s ≠ "Threat"%string.
Proof.
  eexists. split; [vm_compute; reflexivity|].
  apply (no_threat_without_pincer_or_border innerEnemy
           _ 3 3 (unit_ "mid" "riotAgent" 1) 1).
  - vm_compute; reflexivity.
  - simpl; lia.
  - simpl; lia.
  - vm_compute; reflexivity.
  - reflexivity.
  - vm_compute. apply NoDup_singleton.
  - right. right. vm_compute; reflexivity.
Defined.

(** ** Bonus power *)

(** X27.  The bonus of Mr. Pearl counts lines: after the recomputation
    the bonus power of a face-up card with an owner, other than a Mr.
    Pearl, is absent when no Mr. Pearl of its owner (face-up, not
    stunned) stands in its row or column, 2 when one stands in its row
    and one in its column, and 1 otherwise -- whatever the bonus was
    before and however many Mr. Pearls share a line; a Mr. Pearl card
    itself never has a bonus. *)
Theorem mr_pearl_bonus_counts_lines (gs : GameState) (b' : Board)
    (r c : nat) (cd : Card) (o : Z) :
  recalculateBoardStatuses gs = Some b' →
  (r < length (board gs))%nat → (c < length (board gs))%nat →
  cardAt (board gs) r c = Some cd →
  ownerId cd = Some o → isFaceDown cd = false →
  ∃ cd', cardAt b' r c = Some cd'
    ∧ (baseId cd = Some HERO_MR_PEARL_ID → bonusPower cd' = None)
    ∧ (baseId cd ≠ Some HERO_MR_PEARL_ID →
       (bonusPower cd' = None
        ↔ ¬ heroInRow HERO_MR_PEARL_ID (length (board gs)) (board gs) r o
          ∧ ¬ heroInCol HERO_MR_PEARL_ID (length (board gs)) (board gs) c o)
       ∧ (bonusPower cd' = Some 2
          ↔ heroInRow HERO_MR_PEARL_ID (length (board gs)) (board gs) r o
            ∧ heroInCol HERO_MR_PEARL_ID (length (board gs)) (board gs) c o)
       ∧ (bonusPower cd' = None ∨ bonusPower cd' = Some 1
          ∨ bonusPower cd' = Some 2)).
Proof.
  intros Hre Hr Hc Hcd Ho Hf. exists (finalCard gs r c cd).
  split; [by apply recomputed_card|].
  rewrite finalCard_inside by done. cbn [bonusPower setDerived].
  unfold finalBonus, bonusHits. rewrite Ho, Hf. cbn [negb andb]. split.
  - intros Hb. by rewrite (bool_decide_eq_true_2 _ Hb).
  - intros Hb. rewrite (bool_decide_eq_false_2 _ Hb). cbn [negb].
    rewrite bumpBonus_values. unfold lineHits.
    destruct (rowHits_spec HERO_MR_PEARL_ID (length (board gs)) (board gs)
                r c o) as [[-> Hrow]|[-> Hrow]]; try done;
      destruct (colHits_spec HERO_MR_PEARL_ID (length (board gs)) (board gs)
                  r c o) as [[-> Hcol]|[-> Hcol]]; try done;
      cbn [Nat.add Z.of_nat Pos.of_succ_nat Pos.succ];
      (split; [|split]); try (split; [done|]); try tauto;
      try (intros [? ?]; tauto); try (by right; left); try (by right; right);
      try (by left).
Qed.

Lemma mr_pearl_bonus_counts_lines_witness :
  ∃ b', recalculateBoardStatuses pearlRow = Some b'
  ∧ ∃ cd', cardAt b' 3 5 = Some cd'
    ∧ (baseId (unit_ "a" "riotAgent" 1) = Some HERO_MR_PEARL_ID →
       bonusPower cd' = None)
    ∧ (baseId (unit_ "a" "riotAgent" 1) ≠ Some HERO_MR_PEARL_ID →
       (bonusPower cd' = None
        ↔ ¬ heroInRow HERO_MR_PEARL_ID (length (board pearlRow))
              (board pearlRow) 3 1
          ∧ ¬ heroInCol HERO_MR_PEARL_ID (length (board pearlRow))
                (board pearlRow) 5 1)
       ∧ (bonusPower cd' = Some 2
          ↔ heroInRow HERO_MR_PEARL_ID (length (board pearlRow))
              (board pearlRow) 3 1
            ∧ heroInCol HERO_MR_PEARL_ID (length (board pearlRow))
                (board pearlRow) 5 1)
       ∧ (bonusPower cd' = None ∨ bonusPower cd' = Some 1
          ∨ bonusPower cd' = Some 2)).
Proof.
  eexists. split; [vm_compute; reflexivity|].
  apply (mr_pearl_bonus_counts_lines pearlRow
           _ 3 5 (unit_ "a" "riotAgent" 1) 1).
  - vm_compute; reflexivity.
  - simpl; lia.
  - simpl; lia.
  - vm_compute; reflexivity.
  - reflexivity.
  - reflexivity.
Defined.

(** ** Friends and enemies *)

(** X28.  Friendship is mutual: whether the cards of one player count as
    friendly neighbors of the cards of another does not depend on which
    of the two is asked; a player is its own friend, a player without a
    team has no other friend, and the friends of a player with a team
    are the player itself and the players of that team. *)
Theorem friendship_is_mutual (m : gmap Z (option Z)) (a b : Z) :
  isFriendly m a b = isFriendly m b a
  ∧ isFriendly m a a = true
  ∧ (teamOf m a = None → isFriendly m a b = bool_decide (a = b))
  ∧ (∀ t, teamOf m a = Some t →
          isFriendly m a b = true ↔ a = b ∨ teamOf m b = Some t).
Proof.
  unfold isFriendly. split; [|split; [|split]].
  - rewrite (Z.eqb_sym b a).
    destruct (a =? b); [done|]. simpl.
    destruct (teamOf m a) as [ta|], (teamOf m b) as [tb|]; try done;
      repeat case_bool_decide; congruence.
  - by rewrite Z.eqb_refl.
  - intros ->. rewrite orb_false_r.
    destruct (Z.eqb_spec a b) as [->|Hne].
    + by rewrite bool_decide_eq_true_2.
    + by rewrite bool_decide_eq_false_2.
  - intros t ->. rewrite orb_true_iff, Z.eqb_eq, bool_decide_eq_true. done.
Qed.

End BoardTheorems.
